(** * Lens-flare ghost pipeline: a shallow embedding

The development follows the stages of the renderer:
- [LensFlareRenderer::initializeLensSystem] (opengl_lens_flare.cpp): the
  prescription table, the interface stack built from it and the ghost
  enumeration;
- the ray tracing compute shader: [intersectSphere], [intersectPlane],
  [fresnel] and [main];
- the ghost rendering vertex shader, which maps each traced grid to
  triangles.

GLSL and C++ [float] values are IEEE-754 binary32 numbers, taken from the
Standard Library's executable specification [SpecFloat] at precision 24
and maximal exponent 128.  [uint] and [int] values are integers of [Z]
with their 32-bit wrap-around written out. *)

From Stdlib Require Import ZArith Bool Lia.
From Stdlib Require Import Floats.SpecFloat.
From stdpp Require Import base list.

Local Open Scope Z_scope.

(** ** binary32 arithmetic *)

Module F32.

Definition prec : Z := 24.
Definition emax : Z := 128.

Definition float : Type := spec_float.

Definition add : float -> float -> float := SFadd prec emax.
Definition sub : float -> float -> float := SFsub prec emax.
Definition mul : float -> float -> float := SFmul prec emax.
Definition div : float -> float -> float := SFdiv prec emax.
Definition sqrt : float -> float := SFsqrt prec emax.
Definition neg : float -> float := SFopp.
Definition abs : float -> float := SFabs.

Definition ltb : float -> float -> bool := SFltb.
Definition leb : float -> float -> bool := SFleb.
Definition gtb (x y : float) : bool := SFltb y x.
Definition geb (x y : float) : bool := SFleb y x.

(** Conversion of an integer to the nearest binary32 number:
    [static_cast<float>(int)] in C++, [float(uint)] in GLSL. *)
Definition of_Z (z : Z) : float := binary_normalize prec emax z 0 false.

(** A decimal literal [n / 10^k]: numerator and denominator are exact in
    binary32 for every literal of the sources (both stay below [2^24]), so
    the correctly rounded quotient is the literal's value. *)
Definition dec (n : Z) (k : nat) : float := div (of_Z n) (of_Z (10 ^ Z.of_nat k)).

Definition zero : float := S754_zero false.
Definition one : float := of_Z 1.

(** Truncation toward zero of a float that holds a non-negative number;
    [0] for the negative numbers, the infinities and NaN. *)
Definition trunc (x : float) : Z :=
  match x with
  | S754_finite false m e =>
      match e with
      | Zneg p => Z.shiftr (Zpos m) (Zpos p)
      | _ => Z.shiftl (Zpos m) e
      end
  | _ => 0
  end.

(** Truncation toward zero with the sign. *)
Definition trunc_signed (x : float) : Z :=
  match x with
  | S754_finite true m e => - trunc (S754_finite false m e)
  | _ => trunc x
  end.

Definition is_nan (x : float) : bool :=
  match x with S754_nan => true | _ => false end.

Definition is_inf (x : float) : bool :=
  match x with S754_infinity _ => true | _ => false end.

Definition is_zero (x : float) : bool :=
  match x with S754_zero _ => true | _ => false end.

(** Neither a zero nor a NaN. *)
Definition is_nonzero (x : float) : bool := negb (is_zero x) && negb (is_nan x).

(** A number in the IEEE sense that is not an infinity: a zero or a
    finite non-zero value. *)
Definition is_finite (x : float) : bool :=
  match x with S754_zero _ | S754_finite _ _ _ => true | _ => false end.

End F32.

Abbreviation float := F32.float.

Declare Scope f32_scope.
Delimit Scope f32_scope with f32.
Infix "+" := F32.add : f32_scope.
Infix "-" := F32.sub : f32_scope.
Infix "*" := F32.mul : f32_scope.
Infix "/" := F32.div : f32_scope.
Notation "- x" := (F32.neg x) : f32_scope.
Infix "<?" := F32.ltb : f32_scope.
Infix "<=?" := F32.leb : f32_scope.
Infix ">?" := F32.gtb : f32_scope.
Infix ">=?" := F32.geb : f32_scope.

(** 32-bit wrap-around of [uint] and of [int]. *)
Definition wrap_uint (z : Z) : Z := z mod 2 ^ 32.
Definition wrap_int (z : Z) : Z := (z + 2 ^ 31) mod 2 ^ 32 - 2 ^ 31.

(** The conversions [uint(x)] and [int(x)] of GLSL: truncation toward zero.
    The language leaves the result undefined when the truncated value is not
    representable in the target type; the model wraps it into the type, and
    gives [0] for an infinity, for a NaN and, in [to_uint], for a negative
    number. *)
Definition to_uint (x : float) : Z := wrap_uint (F32.trunc x).
Definition to_int (x : float) : Z := wrap_int (F32.trunc_signed x).

(** ** Vectors *)

Record vec2 : Type := Vec2 { v2_x : float; v2_y : float }.
Record vec3 : Type := Vec3 { v3_x : float; v3_y : float; v3_z : float }.
Record vec4 : Type :=
  Vec4 { v4_x : float; v4_y : float; v4_z : float; v4_w : float }.

(** ** The host program: [LensFlareRenderer::initializeLensSystem] *)

Record PatentFormat : Type := mkPatent {
  pf_r : float;   (* radius *)
  pf_d : float;   (* distance *)
  pf_n : float;   (* refractive index *)
  pf_f : bool;    (* flat surface flag *)
  pf_w : float;   (* width *)
  pf_h : float;   (* height *)
  pf_c : float    (* coating parameter *)
}.

Record LensInterface : Type := mkInterface {
  li_center : vec3;
  li_radius : float;
  li_n : vec3;        (* n.x = left IOR, n.y = coating IOR, n.z = right IOR *)
  li_sa : float;      (* surface aperture *)
  li_d1 : float;      (* coating thickness *)
  li_is_flat : float; (* flat surface flag *)
  li_pos : float;     (* position along optical axis *)
  li_w : float        (* width factor *)
}.

Record GhostData : Type := mkGhost {
  bounce1 : float;
  bounce2 : float;
  padding1 : float;
  padding2 : float
}.

Definition patch_tessellation : Z := 32.

Section Prescription.
Import F32.

(** Nikon 28-75mm lens data. *)
Definition nikon_lens : list PatentFormat := [
  mkPatent (dec 72747 3) (dec 23 1) (dec 1603 3) false (dec 2 1) (dec 29 0) (dec 530 0);
  mkPatent (dec 37 0) (dec 13 0) (dec 1 0) false (dec 2 1) (dec 29 0) (dec 600 0);
  mkPatent (dec (-172809) 3) (dec 21 1) (dec 158913 5) false (dec 27 1) (dec 262 1) (dec 570 0);
  mkPatent (dec 39894 3) (dec 1 0) (dec 1 0) false (dec 27 1) (dec 262 1) (dec 660 0);
  mkPatent (dec 4982 2) (dec 44 1) (dec 186074 5) false (dec 5 1) (dec 20 0) (dec 330 0);
  mkPatent (dec 7475 2) (dec 53142 3) (dec 1 0) false (dec 5 1) (dec 20 0) (dec 544 0);
  mkPatent (dec 63402 3) (dec 16 1) (dec 186074 5) false (dec 5 1) (dec 161 1) (dec 740 0);
  mkPatent (dec 3753 2) (dec 86 1) (dec 15168 4) false (dec 5 1) (dec 161 1) (dec 411 0);
  mkPatent (dec (-75887) 3) (dec 16 1) (dec 180458 5) false (dec 5 1) (dec 16 0) (dec 580 0);
  mkPatent (dec (-97792) 3) (dec 7063 3) (dec 1 0) false (dec 5 1) (dec 165 1) (dec 730 0);
  mkPatent (dec 96034 3) (dec 36 1) (dec 162041 5) false (dec 5 1) (dec 18 0) (dec 700 0);
  mkPatent (dec 261743 3) (dec 1 1) (dec 1 0) false (dec 5 1) (dec 18 0) (dec 440 0);
  mkPatent (dec 54262 3) (dec 6 0) (dec 16968 4) false (dec 5 1) (dec 18 0) (dec 800 0);
  mkPatent (dec (-5995277) 3) (dec 1532 3) (dec 1 0) false (dec 5 1) (dec 18 0) (dec 300 0);
  mkPatent (dec 0 0) (dec 28 1) (dec 1 0) true (dec 18 0) (dec 7 0) (dec 440 0); (* Aperture *)
  mkPatent (dec (-74414) 3) (dec 22 1) (dec 190265 5) false (dec 5 1) (dec 13 0) (dec 500 0);
  mkPatent (dec (-62929) 3) (dec 145 2) (dec 15168 4) false (dec 1 1) (dec 13 0) (dec 770 0);
  mkPatent (dec 12138 2) (dec 25 1) (dec 1 0) false (dec 4 0) (dec 131 1) (dec 820 0);
  mkPatent (dec (-85723) 3) (dec 14 1) (dec 149782 5) false (dec 4 0) (dec 13 0) (dec 200 0);
  mkPatent (dec 31093 3) (dec 26 1) (dec 180458 5) false (dec 4 0) (dec 131 1) (dec 540 0);
  mkPatent (dec 84758 3) (dec 16889 3) (dec 1 0) false (dec 5 1) (dec 13 0) (dec 580 0);
  mkPatent (dec 45969 2) (dec 14 1) (dec 186074 5) false (dec 1 0) (dec 15 0) (dec 533 0);
  mkPatent (dec 4024 2) (dec 73 1) (dec 149782 5) false (dec 1 0) (dec 15 0) (dec 666 0);
  mkPatent (dec (-49771) 3) (dec 1 1) (dec 1 0) false (dec 1 0) (dec 152 1) (dec 500 0);
  mkPatent (dec 62369 3) (dec 7 0) (dec 167025 5) false (dec 1 0) (dec 16 0) (dec 487 0);
  mkPatent (dec (-76454) 3) (dec 52 1) (dec 1 0) false (dec 1 0) (dec 16 0) (dec 671 0);
  mkPatent (dec (-32524) 3) (dec 2 0) (dec 180454 5) false (dec 5 1) (dec 17 0) (dec 487 0);
  mkPatent (dec (-50194) 3) (dec 39683 3) (dec 1 0) false (dec 5 1) (dec 17 0) (dec 732 0);
  mkPatent (dec 0 0) (dec 5 0) (dec 1 0) true (dec 10 0) (dec 10 0) (dec 500 0)
].

(** The refractive index on the left of table entry [i]: the previous
    entry's index, vacuum at the head of the table. *)
Definition left_ior (table : list PatentFormat) (i : nat) : float :=
  match i with
  | O => one
  | S j => match table !! j with Some prev => pf_n prev | None => one end
  end.

(** One pass of the conversion loop's body, for table index [i]. *)
Definition convert_entry (table : list PatentFormat) (i : nat)
    (entry : PatentFormat) (total_distance : float) : LensInterface :=
  mkInterface
    (Vec3 zero zero (total_distance - pf_r entry)%f32)
    (pf_r entry)
    (Vec3 (left_ior table i) one (pf_n entry))
    (pf_h entry)
    (pf_c entry)
    (if pf_f entry then one else zero)
    total_distance
    (pf_w entry).

(** [for (int i = nikon_lens.size() - 1; i >= 0; --i)]: [count] is [i + 1],
    the number of table entries still to visit; the loop runs from the
    last table entry down to the first and appends to [lens_interfaces]. *)
Fixpoint convert_loop (table : list PatentFormat) (count : nat)
    (total_distance : float) (lens_interfaces : list LensInterface)
    : list LensInterface :=
  match count with
  | O => lens_interfaces
  | S i =>
      match table !! i with
      | Some entry =>
          let total_distance := (total_distance + pf_d entry)%f32 in
          convert_loop table i total_distance
            (lens_interfaces ++ [convert_entry table i entry total_distance])
      | None => lens_interfaces
      end
  end.

Definition convert_patent (table : list PatentFormat) : list LensInterface :=
  convert_loop table (length table) zero [].

(** *** Ghost enumeration

The loop counters are [int]; the bound [lens_interfaces.size() - 1] is
computed in [size_t], so it wraps around for an empty stack, and the
comparison is made in [size_t]. *)

Definition INT_MAX : Z := 2 ^ 31 - 1.

Definition size_minus_one (size : nat) : Z := (Z.of_nat size - 1) mod 2 ^ 64.

Definition ghost_record (b1 b2 : Z) : GhostData :=
  mkGhost (of_Z b1) (of_Z b2) zero zero.

(** [for (int bounce1 = ...; bounce1 < bound; ++bounce1) push_back]. *)
Fixpoint bounce1_loop (fuel : nat) (b2 b1 bound : Z)
    (ghost_data : list GhostData) : list GhostData :=
  match fuel with
  | O => ghost_data
  | S fuel' =>
      if b1 <? bound
      then bounce1_loop fuel' b2 (b1 + 1) bound (ghost_data ++ [ghost_record b1 b2])
      else ghost_data
  end.

(** [for (int bounce2 = ...; bounce2 < bound; ++bounce2)] around the inner
    loop, which starts at [bounce2 + 2]. *)
Fixpoint bounce2_loop (fuel : nat) (b2 bound : Z)
    (ghost_data : list GhostData) : list GhostData :=
  match fuel with
  | O => ghost_data
  | S fuel' =>
      if b2 <? bound
      then bounce2_loop fuel' (b2 + 1) bound
             (bounce1_loop (Z.to_nat (bound - (b2 + 2))) b2 (b2 + 2) bound ghost_data)
      else ghost_data
  end.

(** The enumeration for a stack of [size] interfaces.  When the bound does
    not leave room for [bounce2 + 2] in [int] (in particular for the
    wrapped bound of an empty stack) a counter overflows, which C++ leaves
    undefined: [None]. *)
Definition generate_ghosts (size : nat) : option (list GhostData) :=
  let bound := size_minus_one size in
  if INT_MAX <? bound + 1 then None
  else Some (bounce2_loop (Z.to_nat (bound - 1)) 1 bound []).

Definition lens_interfaces : list LensInterface := convert_patent nikon_lens.

Definition ghost_data : list GhostData :=
  default [] (generate_ghosts (length lens_interfaces)).

Definition num_ghosts : Z := Z.of_nat (length ghost_data).

(** [setupBuffers]: the vertex buffer is allocated with
    [total_vertices * 4 * sizeof(glm::vec4)] bytes when [total_vertices] is
    positive, so its length in [vec4] records is four times
    [total_vertices]. *)
Definition total_vertices : Z := num_ghosts * patch_tessellation * patch_tessellation.

Definition vertex_buffer_length : Z :=
  if 0 <? total_vertices then total_vertices * 4 else 0.

End Prescription.

(** ** GLSL built-in functions

The built-ins the shaders call, following their definitions in the
OpenGL Shading Language specification: [dot] is the sum of the
componentwise products, [length(v)] is [sqrt(dot(v, v))], [normalize(v)]
is [v / length(v)] and [reflect(I, N)] is [I - 2 * dot(N, I) * N]. *)

Module GLSL.
Import F32.
Local Open Scope f32_scope.

Definition two : float := of_Z 2.

Definition vadd (a b : vec3) : vec3 :=
  Vec3 (v3_x a + v3_x b) (v3_y a + v3_y b) (v3_z a + v3_z b).

Definition vsub (a b : vec3) : vec3 :=
  Vec3 (v3_x a - v3_x b) (v3_y a - v3_y b) (v3_z a - v3_z b).

(** [v * s] for a vector and a scalar. *)
Definition vscale (v : vec3) (s : float) : vec3 :=
  Vec3 (v3_x v * s) (v3_y v * s) (v3_z v * s).

(** [v / s] for a vector and a scalar. *)
Definition vdiv (v : vec3) (s : float) : vec3 :=
  Vec3 (v3_x v / s) (v3_y v / s) (v3_z v / s).

Definition dot (a b : vec3) : float :=
  v3_x a * v3_x b + v3_y a * v3_y b + v3_z a * v3_z b.

Definition length (v : vec3) : float := sqrt (dot v v).

Definition normalize (v : vec3) : vec3 := vdiv v (length v).

Definition reflect (I N : vec3) : vec3 :=
  vsub I (vscale N (two * dot N I)).

End GLSL.

(** ** The ray tracing compute shader *)

Record uvec3 : Type := UVec3 { uv_x : Z; uv_y : Z; uv_z : Z }.

(** The per-ray state of [main]: [current_pos], [current_dir] and
    [intensity]. *)
Record Ray : Type := mkRay {
  current_pos : vec3;
  current_dir : vec3;
  intensity : float
}.

Module Tracer.
Import F32 GLSL.
Local Open Scope f32_scope.

(** Ray-sphere intersection.  The result pairs the returned [bool] with
    the [out] parameter [t], which is [None] when the function returns
    before assigning it. *)
Definition intersectSphere (rayOrigin rayDir sphereCenter : vec3)
    (sphereRadius : float) : bool * option float :=
  let oc := vsub rayOrigin sphereCenter in
  let a := dot rayDir rayDir in
  let b := two * dot oc rayDir in
  let c := dot oc oc - sphereRadius * sphereRadius in
  let discriminant := b * b - of_Z 4 * a * c in
  if discriminant <? zero then (false, None)
  else
    let sqrt_discriminant := sqrt discriminant in
    let t1 := (- b - sqrt_discriminant) / (of_Z 2 * a) in
    let t2 := (- b + sqrt_discriminant) / (of_Z 2 * a) in
    let t := if t1 >? zero then t1 else t2 in
    (t >? zero, Some t).

(** Ray-plane intersection. *)
Definition intersectPlane (rayOrigin rayDir planeCenter planeNormal : vec3)
    : bool * option float :=
  let denom := dot planeNormal rayDir in
  if abs denom <? dec 1 6 then (false, None)
  else
    let p0l0 := vsub planeCenter rayOrigin in
    let t := dot p0l0 planeNormal / denom in
    (t >=? zero, Some t).

Section Kernel.

(** The built-in [pow], whose rounding the Shading Language leaves to
    the implementation. *)
Variable pow : float -> float -> float.

(** Fresnel reflectance. *)
Definition fresnel (cosTheta n1 n2 : float) : float :=
  let r0 := (n1 - n2) / (n1 + n2) in
  let r0 := r0 * r0 in
  let cosX := one - cosTheta in
  r0 + (one - r0) * pow cosX (of_Z 5).

(** The uniform block members [main] reads and the two read-only
    buffers. *)
Variable light_dir : vec3.
Variable backbuffer_size : vec2.
Variable lens_interfaces : list LensInterface.
Variable ghost_data : list GhostData.

Definition interface_count : Z := Z.of_nat (List.length lens_interfaces).

(** The intersection test of a loop body: plane or sphere according to
    the flatness flag. *)
Definition intersect (iface : LensInterface) (st : Ray) : bool * option float :=
  if li_is_flat iface >? dec 5 1
  then intersectPlane (current_pos st) (current_dir st) (li_center iface)
         (Vec3 (of_Z 0) (of_Z 0) (of_Z 1))
  else intersectSphere (current_pos st) (current_dir st) (li_center iface)
         (li_radius iface).

(** The reflection block guarded by [i == bounce_idx - 1]. *)
Definition reflect_at (iface : LensInterface) (st : Ray) : Ray :=
  let normal := normalize (vsub (current_pos st) (li_center iface)) in
  let current_dir := reflect (current_dir st) normal in
  mkRay (current_pos st) current_dir
    (intensity st *
       (fresnel (abs (dot current_dir normal)) (v3_x (li_n iface)) (v3_z (li_n iface))
          * dec 1 1)).

(** The two [for] loops of [main] have the same body up to the bounce
    index they compare with:
    [for (uint i = start; i < bounce_idx && i < lens_interfaces.length(); ++i)].
    [fuel] bounds the number of passes; a miss zeroes the intensity and
    leaves the loop. *)
Fixpoint trace_loop (fuel : nat) (i bounce_idx : Z) (st : Ray) : Ray :=
  match fuel with
  | O => st
  | S fuel' =>
      if ((i <? bounce_idx) && (i <? interface_count))%Z then
        match lens_interfaces !! Z.to_nat i with
        | None => st
        | Some iface =>
            match intersect iface st with
            | (true, Some t) =>
                let st :=
                  mkRay (vadd (current_pos st) (vscale (current_dir st) t))
                    (current_dir st) (intensity st) in
                let st :=
                  if (i =? wrap_uint (bounce_idx - 1))%Z
                  then reflect_at iface st else st in
                trace_loop fuel' (i + 1)%Z bounce_idx st
            | _ => mkRay (current_pos st) (current_dir st) zero
            end
        end
      else st
  end.

(** *** Notions the statements about the loops use

[advance] is the part of a pass before the reflection test: the
intersection and, on a hit, the move of the ray origin to the hit
point.  [dead] is the state a miss leaves.  [walk] advances through a
list of interfaces and stops at the first miss; it returns the last
state reached and whether every interface was hit. *)
Definition advance (iface : LensInterface) (st : Ray) : option Ray :=
match intersect iface st with
| (true, Some t) =>
  Some (mkRay (vadd (current_pos st) (vscale (current_dir st) t))
          (current_dir st) (intensity st))
| _ => None
end.

Definition dead (st : Ray) : Ray :=
  mkRay (current_pos st) (current_dir st) zero.

Fixpoint walk (ifaces : list LensInterface) (st : Ray) : Ray * bool :=
  match ifaces with
  | [] => (st, true)
  | iface :: rest =>
      match advance iface st with
      | Some st' => walk rest st'
      | None => (st, false)
      end
  end.

(** Trace through lens system to first bounce. *)
Definition phase1 (bounce1_idx : Z) (st : Ray) : Ray :=
  trace_loop (Z.to_nat bounce1_idx) 0%Z bounce1_idx st.

(** Continue to second bounce. *)
Definition phase2 (bounce1_idx bounce2_idx : Z) (st : Ray) : Ray :=
  trace_loop (Z.to_nat (bounce2_idx - bounce1_idx)) bounce1_idx bounce2_idx st.

(** Generate ray from light source. *)
Definition initial_ray (local_x local_y : Z) : Ray :=
  let half := dec 5 1 in
  let ax := (of_Z local_x / of_Z 16 - half) * two in
  let ay := (of_Z local_y / of_Z 16 - half) * two in
  mkRay (Vec3 (ax * of_Z 10) (ay * of_Z 10) (- of_Z 100))
    (normalize light_dir) one.

(** Project final ray to screen. *)
Definition screen_pos (st : Ray) : vec2 :=
  Vec2 (v3_x (current_pos st) / v2_x backbuffer_size * two - one)
       (v3_y (current_pos st) / v2_y backbuffer_size * two - one).

Definition vertex_record (st : Ray) : vec4 :=
  Vec4 (v2_x (screen_pos st)) (v2_y (screen_pos st)) (intensity st) one.

(** [ghost_id * 256 + local_y * 16 + local_x] in [uint]. *)
Definition vertex_idx (ghost_id local_x local_y : Z) : Z :=
  wrap_uint (ghost_id * 256 + local_y * 16 + local_x).

(** One invocation of the kernel.  It returns the vertex buffer it
    leaves behind: an early [return] and a discarded write leave the
    buffer as it was. *)
Definition main (thread_id : uvec3) (vertex_data : list vec4) : list vec4 :=
  let ghost_id := (uv_x thread_id / 16)%Z in
  if (ghost_id >=? Z.of_nat (List.length ghost_data))%Z then vertex_data
  else
    let local_x := (uv_x thread_id mod 16)%Z in
    let local_y := uv_y thread_id in
    if ((local_x >=? 16) || (local_y >=? 16))%Z then vertex_data
    else
      match ghost_data !! Z.to_nat ghost_id with
      | None => vertex_data
      | Some ghost =>
          let bounce1_idx := to_uint (bounce1 ghost) in
          let bounce2_idx := to_uint (bounce2 ghost) in
          if ((bounce1_idx >=? interface_count)
              || (bounce2_idx >=? interface_count))%Z
          then vertex_data
          else
            let st := initial_ray local_x local_y in
            let st := phase1 bounce1_idx st in
            let st := phase2 bounce1_idx bounce2_idx st in
            let idx := vertex_idx ghost_id local_x local_y in
            if (idx <? Z.of_nat (List.length vertex_data))%Z
            then <[Z.to_nat idx := vertex_record st]> vertex_data
            else vertex_data
      end.

End Kernel.

(** A reference instance of [pow] for the evaluation of concrete runs:
    the power by repeated multiplication, for the integral exponent of the
    only call in the shader, [pow(cosX, 5.0)]. *)
Definition pow_ref (x y : float) : float :=
  Nat.iter (Z.to_nat (trunc y)) (fun acc => acc * x) one.

End Tracer.

(** ** The ghost rendering vertex shader *)

Record VertexOutput : Type := mkVertexOutput {
  gl_Position : vec4;
  out_intensity : float;
  out_aperture_coord : vec2
}.

Module GhostVertex.
Import F32 GLSL.

(** The six-entry offset pattern of a quad split into two triangles. *)
Definition quad_offsets : list (Z * Z) :=
  [ (0, 0); (1, 0); (0, 1);     (* First triangle *)
    (1, 0); (1, 1); (0, 1) ].   (* Second triangle *)

(** An array read at an [int] index; [None] outside the array. *)
Definition read_at {A : Type} (l : list A) (i : Z) : option A :=
  if i <? 0 then None else l !! Z.to_nat i.

(** [int] arithmetic. *)
Definition imul (a b : Z) : Z := wrap_int (a * b).
Definition iadd (a b : Z) : Z := wrap_int (a + b).
Definition isub (a b : Z) : Z := wrap_int (a - b).

Section Shader.

Variable ghost_id : float.
Variable patch_tessellation : Z.
Variable vertex_data : list vec4.

(** [int(ghost_id) * total_vertices_per_ghost + local_y * patch_tessellation + local_x]. *)
Definition vertex_idx (local_x local_y : Z) : Z :=
  let total_vertices_per_ghost := imul patch_tessellation patch_tessellation in
  let vertex_in_ghost := iadd (imul local_y patch_tessellation) local_x in
  iadd (imul (to_int ghost_id) total_vertices_per_ghost) vertex_in_ghost.

(** The vertex emitted for a cell whose index is not in the buffer. *)
Definition culled_vertex : VertexOutput :=
  mkVertexOutput (Vec4 zero zero (neg (of_Z 10)) one) zero (Vec2 zero zero).

(** The grid cell of a vertex: the quad of its triangle, moved by the
    offset of the vertex in the quad and clamped to the valid range.
    [None] stands for a read outside [quad_offsets]. *)
Definition grid_cell (gl_VertexID : Z) : option (Z * Z) :=
  let triangle_id := Z.quot gl_VertexID 6 in
  let vertex_in_triangle := Z.rem gl_VertexID 6 in
  let grid_x := Z.rem triangle_id (isub patch_tessellation 1) in
  let grid_y := Z.quot triangle_id (isub patch_tessellation 1) in
  match read_at quad_offsets vertex_in_triangle with
  | None => None
  | Some (offset_x, offset_y) =>
      let local_x := iadd grid_x offset_x in
      let local_y := iadd grid_y offset_y in
      let local_x := Z.min local_x (isub patch_tessellation 1) in
      let local_y := Z.min local_y (isub patch_tessellation 1) in
      Some (local_x, local_y)
  end.

(** One invocation of the vertex shader.  [None] stands for a read
    outside an array, which the language leaves undefined. *)
Definition main (gl_VertexID : Z) : option VertexOutput :=
  match grid_cell gl_VertexID with
  | None => None
  | Some (local_x, local_y) =>
      let idx := vertex_idx local_x local_y in
      if idx >=? Z.of_nat (List.length vertex_data) then Some culled_vertex
      else
        match read_at vertex_data idx with
        | None => None
        | Some vertex =>
            let denom := of_Z (isub patch_tessellation 1) in
            let half := dec 5 1 in
            Some (mkVertexOutput
                    (Vec4 (v4_x vertex) (v4_y vertex) zero one)
                    (v4_z vertex)
                    (Vec2 (mul (sub (div (of_Z local_x) denom) half) two)
                          (mul (sub (div (of_Z local_y) denom) half) two)))
        end
  end.

End Shader.

End GhostVertex.

(** ** Reference forms used by the statements *)

Definition sumZ (l : list Z) : Z := foldr Z.add 0 l.

(** The closed form the specification gives for the number of ghosts of a
    stack of [N] interfaces: the sum over [b2] from [1] to [N - 3] of
    [max(0, (N-2) - (b2+2))]. *)
Definition spec_ghost_count (N : Z) : Z :=
  sumZ ((fun b2 => Z.max 0 ((N - 2) - (b2 + 2))) <$> seqZ 1 (N - 3)).

(** The same sum with both ends of the inner range counted: [b1] runs over
    the [(N-2) - (b2+2) + 1] indices from [b2 + 2] to [N - 2]. *)
Definition ghost_count (N : Z) : Z :=
  sumZ ((fun b2 => Z.max 0 ((N - 2) - (b2 + 2) + 1)) <$> seqZ 1 (N - 3)).

(** The bounce pairs [(b1, b2)] in nested order: [b2] ascending from [1] to
    [N - 2] outside, [b1] ascending from [b2 + 2] to [N - 2] inside. *)
Definition ghost_pairs (N : Z) : list (Z * Z) :=
  b2 ← seqZ 1 (N - 2);
  (fun b1 => (b1, b2)) <$> seqZ (b2 + 2) ((N - 2) - (b2 + 2) + 1).

(** The invariant of a ghost path in a stack of [N] interfaces. *)
Definition valid_ghost_pair (N : Z) (p : Z * Z) : Prop :=
  let '(b1, b2) := p in
  b1 >= b2 + 2 /\ (0 < b1 < N - 1) /\ (0 < b2 < N - 1).


(** Clip-space containment of a position: each of [x], [y] and [z] lies
    between [-w] and [w]. *)
Definition in_clip_volume (p : vec4) : bool :=
  let inside c := F32.leb (F32.neg (v4_w p)) c && F32.leb c (v4_w p) in
  inside (v4_x p) && inside (v4_y p) && inside (v4_z p).

(** A relation that holds between every two neighbours of a list. *)
Definition adjacent_all {A : Type} (R : A -> A -> Prop) (l : list A) : Prop :=
  forall (i : nat) (a b : A), l !! i = Some a -> l !! S i = Some b -> R a b.

(** Two neighbours of the interface stack chain backwards when the
    incident-side index of the earlier is the exit-side index of the later. *)
Definition chained_backwards (a b : LensInterface) : Prop :=
  v3_x (li_n a) = v3_z (li_n b).

(** The executable counterpart of [adjacent_all] for a decidable relation. *)
Fixpoint adjacent_allb {A : Type} (r : A -> A -> bool) (l : list A) : bool :=
  match l with
  | a :: ((b :: _) as rest) => r a b && adjacent_allb r rest
  | _ => true
  end.

(** The surface normal as the specification words it: the normalized vector
    from the hit point to the interface's center for a spherical surface, the
    fixed axis-aligned normal for a planar one. *)
Definition spec_normal (iface : LensInterface) (hit : vec3) : vec3 :=
  if F32.gtb (li_is_flat iface) (F32.dec 5 1)
  then Vec3 (F32.of_Z 0) (F32.of_Z 0) (F32.of_Z 1)
  else GLSL.normalize (GLSL.vsub (li_center iface) hit).

(** ** Concrete frames used by the examples *)

(** Light along the optical axis, toward increasing [z]. *)
Definition axial_light : vec3 := Vec3 F32.zero F32.zero (F32.of_Z 1).

(** Light across the optical axis: every ray misses the first interface. *)
Definition transverse_light : vec3 := Vec3 (F32.of_Z 1) F32.zero F32.zero.

Definition hd_backbuffer : vec2 := Vec2 (F32.of_Z 1920) (F32.of_Z 1080).

(** A vertex buffer of the length [setupBuffers] allocates would hold
    [vertex_buffer_length] records; the examples use a short buffer of
    cleared records, which is enough for the cells they look at. *)
Definition cleared_buffer (count : nat) : list vec4 :=
  replicate count (Vec4 F32.zero F32.zero F32.zero F32.zero).

(** A three-interface stack and a descriptor whose bounce indices are in the
    order the enumerator never produces (first bounce 1, second bounce 2):
    a unit sphere behind the ray origin, which an axial ray misses, followed
    by two planes at [z = 5]. *)
Definition swapped_stack : list LensInterface :=
  let unit_n := Vec3 F32.one F32.one F32.one in
  let plane :=
    mkInterface (Vec3 F32.zero F32.zero (F32.of_Z 5)) F32.zero unit_n
      F32.one F32.zero F32.one F32.zero F32.zero in
  [ mkInterface (Vec3 F32.zero F32.zero (F32.of_Z (-200))) F32.one unit_n
      F32.one F32.zero F32.zero F32.zero F32.zero;
    plane; plane ].

Definition swapped_ghost : GhostData := ghost_record 1 2.

(** The first bounce as the specification words it: the ray reaches the
    interface whose index is the first-bounce index, and the direction after
    phase 1 is the incoming direction reflected about [spec_normal] of that
    interface at the hit point. *)
Definition first_bounce_as_worded (pow : float -> float -> float)
    (ifaces : list LensInterface) (bounce1_idx : Z) (st : Ray) : Prop :=
  exists (iface : LensInterface) (hit : Ray),
    ifaces !! Z.to_nat bounce1_idx = Some iface
    /\ Tracer.walk (take (S (Z.to_nat bounce1_idx)) ifaces) st = (hit, true)
    /\ current_dir (Tracer.phase1 pow ifaces bounce1_idx st)
       = GLSL.reflect (current_dir st) (spec_normal iface (current_pos hit)).

(** ** Further parts of the renderer *)

From Stdlib Require Strings.Byte.

(** The invariant of a ghost path, on a record as the tracer reads it:
    [uint(ghost.bounce1)] and [uint(ghost.bounce2)]. *)
Definition valid_ghost_record (N : Z) (g : GhostData) : Prop :=
  valid_ghost_pair N (to_uint (bounce1 g), to_uint (bounce2 g)).

(** *** One kernel invocation as a write

[unit_record] is the record an invocation computes for its ghost and its
sample, and [unit_write] is the write it performs on a buffer of [len]
records: the slot and the record, or [None] when [main] returns early or
discards the write. *)

Section UnitWrite.

Variable pow : float -> float -> float.
Variable light_dir : vec3.
Variable backbuffer_size : vec2.
Variable lens_interfaces : list LensInterface.
Variable ghost_data : list GhostData.

Definition unit_record (ghost : GhostData) (local_x local_y : Z) : vec4 :=
  let bounce1_idx := to_uint (bounce1 ghost) in
  let bounce2_idx := to_uint (bounce2 ghost) in
  Tracer.vertex_record backbuffer_size
    (Tracer.phase2 pow lens_interfaces bounce1_idx bounce2_idx
       (Tracer.phase1 pow lens_interfaces bounce1_idx
          (Tracer.initial_ray light_dir local_x local_y))).

Definition unit_write (thread_id : uvec3) (len : nat) : option (nat * vec4) :=
  let ghost_id := uv_x thread_id / 16 in
  let local_x := uv_x thread_id mod 16 in
  let local_y := uv_y thread_id in
  if ghost_id >=? Z.of_nat (length ghost_data) then None
  else if (local_x >=? 16) || (local_y >=? 16) then None
  else
    match ghost_data !! Z.to_nat ghost_id with
    | None => None
    | Some ghost =>
        if (to_uint (bounce1 ghost) >=? Tracer.interface_count lens_interfaces)
           || (to_uint (bounce2 ghost) >=? Tracer.interface_count lens_interfaces)
        then None
        else
          let idx := Tracer.vertex_idx ghost_id local_x local_y in
          if idx <? Z.of_nat len
          then Some (Z.to_nat idx, unit_record ghost local_x local_y)
          else None
    end.

(** The record of the unit that owns slot [s]: ghost [s / 256], sample
    [(s mod 16, (s / 16) mod 16)]. *)
Definition slot_record (s : Z) : option vec4 :=
  match ghost_data !! Z.to_nat (s / 256) with
  | Some ghost =>
      if (to_uint (bounce1 ghost) >=? Tracer.interface_count lens_interfaces)
         || (to_uint (bounce2 ghost) >=? Tracer.interface_count lens_interfaces)
      then None
      else Some (unit_record ghost (s mod 16) ((s / 16) mod 16))
  | None => None
  end.

(** *** [renderLensFlare]: the dispatch of the kernel

[glDispatchCompute(num_ghosts * groups_x, groups_y, 1)] with work groups of
16 x 16 invocations starts one invocation for every
[gl_GlobalInvocationID] of the grid.  The invocations are run one after the
other here, in the order of the list; OpenGL fixes no order. *)

Definition work_groups (tessellation : Z) : Z := (tessellation + 15) / 16.

Definition dispatch_threads (num_groups_x num_groups_y : Z) : list uvec3 :=
  x ← seqZ 0 (num_groups_x * 16);
  (fun y => UVec3 x y 0) <$> seqZ 0 (num_groups_y * 16).

Definition run_units (threads : list uvec3) (vertex_data : list vec4) : list vec4 :=
  foldl (fun buf thread_id =>
           Tracer.main pow light_dir backbuffer_size lens_interfaces ghost_data
             thread_id buf)
        vertex_data threads.

(** Step 1 of [renderLensFlare] for a tessellation setting. *)
Definition trace_frame (tessellation : Z) (vertex_data : list vec4) : list vec4 :=
  run_units
    (dispatch_threads (Z.of_nat (length ghost_data) * work_groups tessellation)
       (work_groups tessellation))
    vertex_data.

End UnitWrite.

(** Step 2 of [renderLensFlare]: the number of vertices of the draw call of
    one ghost. *)
Definition vertices_per_ghost (tessellation : Z) : Z :=
  let quads_per_ghost := (tessellation - 1) * (tessellation - 1) in
  quads_per_ghost * 6.

(** Two interfaces with the same surface: center, radius and flatness
    flag. *)
Definition same_surface (a b : LensInterface) : Prop :=
  li_center a = li_center b /\ li_radius a = li_radius b
  /\ li_is_flat a = li_is_flat b.

(** The components of a [uvec3] are [uint] values. *)
Definition is_uvec3 (v : uvec3) : Prop :=
  0 <= uv_x v < 2 ^ 32 /\ 0 <= uv_y v < 2 ^ 32 /\ 0 <= uv_z v < 2 ^ 32.


(** *** [setupBuffers]: the vertex buffer

[glBufferData(..., total_vertices * 4 * sizeof(glm::vec4), ...)] with
[total_vertices = num_ghosts * patch_tessellation * patch_tessellation]:
the number of [vec4] records of the buffer the frame works on.  The
products are [int] products; the statements about the allocation ask for
a result below [2^31]. *)
Definition allocated_records (num_ghosts tessellation : Z) : Z :=
  let total_vertices := num_ghosts * tessellation * tessellation in
  total_vertices * 4.

(** *** [renderLensFlare]: the draw calls

[for (int ghost_id = 0; ghost_id < num_ghosts && ghost_id < 10; ++ghost_id)]
issues one draw call per pass; [draw_loop] collects the ghost ids of the
passes. *)
Fixpoint draw_loop (fuel : nat) (ghost_id num_ghosts : Z) (drawn : list Z) : list Z :=
  match fuel with
  | O => drawn
  | S fuel' =>
      if (ghost_id <? num_ghosts) && (ghost_id <? 10)
      then draw_loop fuel' (ghost_id + 1) num_ghosts (drawn ++ [ghost_id])
      else drawn
  end.

Definition drawn_ghosts (num_ghosts : Z) : list Z := draw_loop 10 0 num_ghosts [].

(** [glDrawArrays(GL_TRIANGLES, 0, vertices_per_ghost)] with the uniform
    [ghost_id] set to [float(ghost_id)]: the vertex shader runs once for
    every vertex id of the range. *)
Definition draw_call (ghost_id tessellation : Z) (vertex_data : list vec4)
    : list (option VertexOutput) :=
  GhostVertex.main (F32.of_Z ghost_id) tessellation vertex_data
    <$> seqZ 0 (vertices_per_ghost tessellation).

Definition render_ghosts (num_ghosts tessellation : Z) (vertex_data : list vec4)
    : list (list (option VertexOutput)) :=
  (fun ghost_id => draw_call ghost_id tessellation vertex_data)
    <$> drawn_ghosts num_ghosts.

(** The record a mapper vertex shows. *)
Definition shown (vertex : vec4) (out : VertexOutput) : Prop :=
  gl_Position out = Vec4 (v4_x vertex) (v4_y vertex) F32.zero F32.one
  /\ out_intensity out = v4_z vertex.

(** Two ray states on the same path: same position and same direction. *)
Definition same_path (st st' : Ray) : Prop :=
  current_pos st = current_pos st' /\ current_dir st = current_dir st'.

(** An interface with the same surface and every optical parameter
    replaced: all three indices 1.0, no coating, no aperture height. *)
Definition bare_surface (a : LensInterface) : LensInterface :=
  mkInterface (li_center a) (li_radius a) (Vec3 F32.one F32.one F32.one)
    F32.zero F32.zero (li_is_flat a) F32.zero F32.zero.

(** *** [loadShaderFromFile]

A file is a byte string, or nothing when it cannot be opened.
[std::getline(file, line)] fails, and ends the loop, when no character is
left; otherwise it takes the characters up to the next newline, which it
removes from the stream without storing it, or up to the end of the file. *)

Definition newline : Byte.byte := Byte.x0a.

(** The line at the head of a stream and what is left after it. *)
Fixpoint read_line (stream : list Byte.byte) : list Byte.byte * list Byte.byte :=
  match stream with
  | [] => ([], [])
  | c :: rest =>
      if Strings.Byte.eqb c newline then ([], rest)
      else let '(line, rest') := read_line rest in (c :: line, rest')
  end.

Definition getline (stream : list Byte.byte)
    : option (list Byte.byte * list Byte.byte) :=
  match stream with
  | [] => None
  | _ => Some (read_line stream)
  end.

(** [while (std::getline(file, line)) content += line + "\n";] *)
Fixpoint read_lines (fuel : nat) (stream content : list Byte.byte) : list Byte.byte :=
  match fuel with
  | O => content
  | S fuel' =>
      match getline stream with
      | None => content
      | Some (line, rest) => read_lines fuel' rest (content ++ (line ++ [newline]))
      end
  end.

Definition loadShaderFromFile (file : option (list Byte.byte)) : list Byte.byte :=
  match file with
  | None => []
  | Some stream => read_lines (length stream) stream []
  end.

(** A text with its last line closed: the same bytes, and one newline
    more when the text is not empty and does not end in one. *)
Definition newline_terminated (s : list Byte.byte) : list Byte.byte :=
  match last s with
  | None => []
  | Some c => if Strings.Byte.eqb c newline then s else s ++ [newline]
  end.

(** *** Colour functions of the fragment shaders

[min], [max] and [clamp] as the Shading Language defines them: [min(x, y)]
is [y] when [y < x] and [x] otherwise, [max(x, y)] is [y] when [x < y] and
[x] otherwise, and [clamp(x, lo, hi)] is [min(max(x, lo), hi)]. *)

Module Shading.
Import F32.
Local Open Scope f32_scope.

Definition min (x y : float) : float := if y <? x then y else x.
Definition max (x y : float) : float := if x <? y then y else x.
Definition clamp (x minVal maxVal : float) : float := min (max x minVal) maxVal.

(** [temperatureToColor] of the ghost, lens flare and starburst fragment
    shaders. *)
Definition temperatureToColor (temp : float) : vec3 :=
  let t := temp / of_Z 6000 in
  Vec3 (clamp (one + dec 1 1 * (t - one)) (dec 6 1) one)
       (clamp (dec 9 1 + dec 5 2 * (t - one)) (dec 8 1) one)
       (clamp (dec 8 1 + dec 2 1 * (one - t)) (dec 5 1) one).

(** One channel of [ACESFilm] of the tonemap shader; the shader applies
    it to the three channels of a colour. *)
Definition ACESFilm_channel (x : float) : float :=
  let a := dec 251 2 in
  let b := dec 3 2 in
  let c := dec 243 2 in
  let d := dec 59 2 in
  let e := dec 14 2 in
  clamp ((x * (a * x + b)) / (x * (c * x + d) + e)) zero one.

Definition ACESFilm (x : vec3) : vec3 :=
  Vec3 (ACESFilm_channel (v3_x x)) (ACESFilm_channel (v3_y x))
       (ACESFilm_channel (v3_z x)).

(** A value inside a closed range. *)
Definition within (lo hi x : float) : Prop :=
  (lo <=? x) = true /\ (x <=? hi) = true.

End Shading.
(** ** The ghost enumerator *)

Section Enumerator.

Lemma bounce1_loop_seqZ (fuel : nat) (b2 b1 bound : Z) (acc : list GhostData) :
  bound - b1 <= Z.of_nat fuel ->
  bounce1_loop fuel b2 b1 bound acc
  = acc ++ ((fun b1 => ghost_record b1 b2) <$> seqZ b1 (bound - b1)).
Proof.
  revert b1 acc. induction fuel as [|fuel IH]; intros b1 acc Hfuel.
  - cbn [bounce1_loop]. rewrite seqZ_nil by lia. now rewrite app_nil_r.
  - cbn [bounce1_loop]. destruct (Z.ltb_spec b1 bound) as [Hlt|Hge].
    + rewrite IH by lia. rewrite (seqZ_cons b1) by lia.
      rewrite fmap_cons, <- app_assoc. cbn [app].
      replace (Z.succ b1) with (b1 + 1) by lia.
      replace (Z.pred (bound - b1)) with (bound - (b1 + 1)) by lia.
      reflexivity.
    + rewrite seqZ_nil by lia. now rewrite app_nil_r.
Qed.

Lemma bounce2_loop_seqZ (fuel : nat) (b2 bound : Z) (acc : list GhostData) :
  bound - b2 <= Z.of_nat fuel ->
  bounce2_loop fuel b2 bound acc
  = acc ++ (b ← seqZ b2 (bound - b2);
            (fun b1 => ghost_record b1 b) <$> seqZ (b + 2) (bound - (b + 2))).
Proof.
  revert b2 acc. induction fuel as [|fuel IH]; intros b2 acc Hfuel.
  - cbn [bounce2_loop]. rewrite seqZ_nil by lia. now rewrite app_nil_r.
  - cbn [bounce2_loop]. destruct (Z.ltb_spec b2 bound) as [Hlt|Hge].
    + rewrite IH by lia. rewrite bounce1_loop_seqZ by lia.
      rewrite (seqZ_cons b2) by lia. rewrite bind_cons, <- app_assoc.
      replace (Z.succ b2) with (b2 + 1) by lia.
      replace (Z.pred (bound - b2)) with (bound - (b2 + 1)) by lia.
      reflexivity.
    + rewrite seqZ_nil by lia. now rewrite app_nil_r.
Qed.

Lemma size_minus_one_small (size : nat) :
  (1 <= size)%nat -> Z.of_nat size <= 2 ^ 31 - 1 ->
  size_minus_one size = Z.of_nat size - 1.
Proof.
  intros H1 H2. unfold size_minus_one. apply Z.mod_small. lia.
Qed.

Lemma generate_ghosts_pairs (size : nat) :
  (1 <= size)%nat -> Z.of_nat size <= 2 ^ 31 - 1 ->
  generate_ghosts size
  = Some ((fun p => ghost_record p.1 p.2) <$> ghost_pairs (Z.of_nat size)).
Proof.
  intros H1 H2. unfold generate_ghosts.
  rewrite size_minus_one_small by assumption.
  unfold INT_MAX. destruct (Z.ltb_spec (2 ^ 31 - 1) (Z.of_nat size - 1 + 1)) as [?|_];
    [lia|].
  f_equal. rewrite bounce2_loop_seqZ by lia. cbn [app].
  unfold ghost_pairs.
  replace (Z.of_nat size - 1 - 1) with (Z.of_nat size - 2) by lia.
  induction (seqZ 1 (Z.of_nat size - 2)) as [|b l IH]; [reflexivity|].
  rewrite !bind_cons, fmap_app, IH. f_equal.
  rewrite <- list_fmap_compose.
  replace (Z.of_nat size - 1 - (b + 2)) with (Z.of_nat size - 2 - (b + 2) + 1) by lia.
  reflexivity.
Qed.

Lemma length_ghost_pairs_from (N m len : Z) :
  Z.of_nat (length (b2 ← seqZ m len;
                    (fun b1 => (b1, b2)) <$> seqZ (b2 + 2) ((N - 2) - (b2 + 2) + 1)))
  = sumZ ((fun b2 => Z.max 0 ((N - 2) - (b2 + 2) + 1)) <$> seqZ m len).
Proof.
  destruct (Z.le_gt_cases len 0) as [Hle|Hgt].
  - now rewrite seqZ_nil by assumption.
  - rewrite <- (Z2Nat.id len) by lia.
    generalize (Z.to_nat len) as k. clear Hgt len. intros k. revert m.
    induction k as [|k IH]; intros m; [reflexivity|].
    rewrite seqZ_cons by lia. rewrite bind_cons, fmap_cons, length_app.
    rewrite Nat2Z.inj_add. cbn [sumZ foldr].
    replace (Z.pred (Z.of_nat (S k))) with (Z.of_nat k) by lia.
    fold (sumZ ((fun b2 => Z.max 0 (N - 2 - (b2 + 2) + 1)) <$> seqZ (Z.succ m) (Z.of_nat k))).
    rewrite IH, length_fmap, length_seqZ. lia.
Qed.

Lemma length_ghost_pairs (N : Z) :
  Z.of_nat (length (ghost_pairs N)) = ghost_count N.
Proof.
  unfold ghost_pairs, ghost_count. rewrite length_ghost_pairs_from.
  destruct (Z.le_gt_cases N 3) as [Hle|Hgt].
  - destruct (Z.le_gt_cases N 2) as [Hle2|Hgt2].
    + now rewrite !seqZ_nil by lia.
    + replace N with 3 by lia. reflexivity.
  - assert (Hsplit : seqZ 1 (N - 2) = seqZ 1 (N - 3) ++ [N - 2]).
    { replace (N - 2) with ((N - 3) + 1) at 1 by lia.
      rewrite seqZ_app by lia. f_equal.
      rewrite seqZ_cons by lia. rewrite seqZ_nil by lia. f_equal; lia. }
    rewrite Hsplit, fmap_app. unfold sumZ. rewrite foldr_app.
    cbn [fmap list_fmap foldr].
    replace (Z.max 0 (N - 2 - (N - 2 + 2) + 1) + 0) with 0 by lia.
    reflexivity.
Qed.

Lemma valid_ghost_pairs (N : Z) : Forall (valid_ghost_pair N) (ghost_pairs N).
Proof.
  unfold ghost_pairs. apply Forall_forall. intros [b1 b2] Hin.
  apply list_elem_of_bind in Hin as (b & Hin & Hb).
  apply list_elem_of_fmap in Hin as (b1' & Heq & Hb1).
  inversion Heq; subst. apply elem_of_seqZ in Hb, Hb1.
  unfold valid_ghost_pair. lia.
Qed.

End Enumerator.

(** The enumeration of the renderer's own stack of 29 interfaces. *)
Lemma ghost_data_nikon :
  generate_ghosts 29 = Some ghost_data /\ Z.of_nat (length ghost_data) = 325.
Proof. vm_compute. split; reflexivity. Qed.

Lemma spec_ghost_count_nikon : spec_ghost_count 29 = 300.
Proof. vm_compute. reflexivity. Qed.

(** For an empty stack the loop bound wraps around and the counters leave
    the range of [int]. *)
Lemma generate_ghosts_empty : generate_ghosts 0 = None.
Proof. vm_compute. reflexivity. Qed.

(** C1, as stated, fails: for the 29 interfaces of the Nikon prescription the
    enumerator emits 325 records, while the closed form
    [Σ_{b2=1}^{N-3} max(0, (N-2)-(b2+2))] evaluates to 300. *)
Lemma ghost_count_closed_form_fails :
  ~ (forall l, generate_ghosts 29 = Some l ->
               Z.of_nat (length l) = spec_ghost_count 29).
Proof.
  intros H. specialize (H ghost_data (proj1 ghost_data_nikon)).
  rewrite (proj2 ghost_data_nikon), spec_ghost_count_nikon in H. discriminate H.
Qed.

Lemma sumZ_app (l1 l2 : list Z) : sumZ (l1 ++ l2) = sumZ l1 + sumZ l2.
Proof.
  unfold sumZ. induction l1 as [|a l1 IH]; cbn [app foldr]; [reflexivity|].
  rewrite IH. lia.
Qed.

Lemma sumZ_descending (c : Z) (k : nat) :
  2 * sumZ ((fun b => c - b) <$> seqZ 1 (Z.of_nat k))
  = Z.of_nat k * (2 * c - Z.of_nat k - 1).
Proof.
  induction k as [|k IH]; [reflexivity|].
  rewrite seqZ_S, fmap_app, sumZ_app. cbn [fmap list_fmap sumZ foldr].
  fold (sumZ ((fun b => c - b) <$> seqZ 1 (Z.of_nat k))). nia.
Qed.

(** The amended count has the closed form [(N-3)(N-4)/2]. *)
Lemma ghost_count_closed (N : Z) :
  3 <= N -> 2 * ghost_count N = (N - 3) * (N - 4).
Proof.
  intros HN. unfold ghost_count.
  replace ((fun b2 => Z.max 0 (N - 2 - (b2 + 2) + 1)) <$> seqZ 1 (N - 3))
    with ((fun b => (N - 3) - b) <$> seqZ 1 (N - 3)).
  2:{ apply list_fmap_ext. intros i b Hl. apply lookup_seqZ in Hl. lia. }
  assert (Hk : N - 3 = Z.of_nat (Z.to_nat (N - 3))) by lia.
  rewrite Hk, sumZ_descending. lia.
Qed.

(** ** Conversions between integers and binary32 *)

(** The decimal literals are the binary32 numbers a compiler produces:
    [0.5] is [2^-1], [0.1f] has the bit pattern [0x3DCCCCCD] and [1e-6] the
    bit pattern [0x358637BD]. *)
Example dec_literals :
  F32.dec 5 1 = S754_finite false 0x800000 (-24)
  /\ F32.dec 1 1 = S754_finite false 0xCCCCCD (-27)
  /\ F32.dec 1 6 = S754_finite false 0x8637BD (-43).
Proof. vm_compute. repeat split; reflexivity. Qed.

Section Conversions.

Lemma digits2_pos_lower (m : positive) :
  2 ^ (Zpos (digits2_pos m) - 1) <= Zpos m.
Proof.
  induction m as [m IH|m IH|]; cbn [digits2_pos].
  - rewrite Pos2Z.inj_succ. replace (Z.succ (Z.pos (digits2_pos m)) - 1) with (Z.succ (Z.pos (digits2_pos m) - 1)) by lia.
    rewrite Z.pow_succ_r by lia. lia.
  - rewrite Pos2Z.inj_succ. replace (Z.succ (Z.pos (digits2_pos m)) - 1) with (Z.succ (Z.pos (digits2_pos m) - 1)) by lia.
    rewrite Z.pow_succ_r by lia. lia.
  - cbn. lia.
Qed.

Lemma digits2_pos_le_24 (m : positive) :
  Zpos m < 2 ^ 24 -> (Zpos (digits2_pos m) <= 24).
Proof.
  intros H. pose proof (digits2_pos_lower m) as Hl.
  destruct (Z.le_gt_cases (Zpos (digits2_pos m)) 24) as [|Hgt]; [assumption|].
  assert (2 ^ 24 <= 2 ^ (Z.pos (digits2_pos m) - 1)) by (apply Z.pow_le_mono_r; lia).
  lia.
Qed.


Lemma iter_xO_value (m k : positive) :
  Zpos (Pos.iter xO m k) = Zpos m * 2 ^ Zpos k.
Proof.
  induction k as [|k IH] using Pos.peano_ind.
  - cbn. lia.
  - rewrite Pos.iter_succ, Pos2Z.inj_succ, Z.pow_succ_r by lia.
    rewrite Pos2Z.inj_xO, IH. lia.
Qed.

Lemma iter_xO_digits (m k : positive) :
  digits2_pos (Pos.iter xO m k) = (digits2_pos m + k)%positive.
Proof.
  induction k as [|k IH] using Pos.peano_ind.
  - cbn. lia.
  - rewrite Pos.iter_succ. cbn [digits2_pos]. rewrite IH. lia.
Qed.

Lemma binary_round_aux_canonical (s : bool) (mz : positive) (ez : Z) :
  Zpos (digits2_pos mz) = 24 -> -149 <= ez <= 104 ->
  binary_round_aux F32.prec F32.emax s (Zpos mz) ez loc_Exact = S754_finite s mz ez.
Proof.
  intros Hd He.
  assert (Hfexp : fexp F32.prec F32.emax (Zpos (digits2_pos mz) + ez) - ez = 0).
  { rewrite Hd. unfold fexp, emin, F32.prec, F32.emax. lia. }
  unfold binary_round_aux, shr_fexp. cbn [Zdigits2 shr_record_of_loc].
  rewrite Hfexp. cbn [shr shr_m loc_of_shr_record round_nearest_even Zdigits2 shr_record_of_loc].
  rewrite Hfexp. cbn [shr shr_m].
  unfold F32.emax, F32.prec.
  destruct (Z.leb_spec ez (128 - 24)) as [_|?]; [reflexivity|lia].
Qed.

Lemma of_Z_pos (m : positive) :
  Zpos m < 2 ^ 24 ->
  exists mz ez, F32.of_Z (Zpos m) = S754_finite false mz ez
                /\ -23 <= ez <= 0 /\ Zpos mz = Zpos m * 2 ^ (- ez).
Proof.
  intros Hm. pose proof (digits2_pos_le_24 m Hm) as Hd.
  unfold F32.of_Z, binary_normalize, binary_round.
  assert (Hfexp : fexp F32.prec F32.emax (Zpos (digits2_pos m) + 0) = Zpos (digits2_pos m) - 24).
  { unfold fexp, emin, F32.prec, F32.emax. lia. }
  rewrite Hfexp. unfold shl_align.
  destruct (Z.pos (digits2_pos m) - 24 - 0) as [|k|k] eqn:Ek; [|lia|].
  - exists m, 0. split; [|split; [lia|cbn; lia]].
    apply binary_round_aux_canonical; lia.
  - exists (Pos.iter xO m k), (Z.pos (digits2_pos m) - 24).
    split; [|split; [lia|]].
    + apply binary_round_aux_canonical; [|lia].
      rewrite iter_xO_digits. lia.
    + rewrite iter_xO_value. f_equal. f_equal. lia.
Qed.

Lemma trunc_of_Z (z : Z) : 0 <= z < 2 ^ 24 -> F32.trunc (F32.of_Z z) = z.
Proof.
  intros [H0 H1]. destruct z as [|m|m]; [reflexivity| |lia].
  destruct (of_Z_pos m H1) as (mz & ez & -> & He & Hmz).
  unfold F32.trunc. destruct ez as [|p|p]; [|lia|].
  - change (2 ^ (- 0)) with 1 in Hmz. rewrite Z.shiftl_0_r. lia.
  - rewrite Hmz. rewrite Z.shiftr_div_pow2 by lia.
    replace (- Z.neg p) with (Z.pos p) by lia.
    apply Z.div_mul. apply Z.pow_nonzero; lia.
Qed.

Lemma to_uint_of_Z (z : Z) : 0 <= z < 2 ^ 24 -> to_uint (F32.of_Z z) = z.
Proof.
  intros H. unfold to_uint. rewrite trunc_of_Z by assumption.
  apply Z.mod_small. lia.
Qed.

Lemma to_int_of_Z (z : Z) : 0 <= z < 2 ^ 24 -> to_int (F32.of_Z z) = z.
Proof.
  intros H. unfold to_int.
  assert (Ht : F32.trunc_signed (F32.of_Z z) = z).
  { destruct z as [|m|m]; [reflexivity| |lia].
    pose proof (trunc_of_Z (Zpos m) H) as Hr.
    destruct (of_Z_pos m (proj2 H)) as (mz & ez & Heq & _).
    rewrite Heq in Hr |- *. exact Hr. }
  rewrite Ht. unfold wrap_int. rewrite Z.mod_small; lia.
Qed.

End Conversions.

(** ** The ghost list as the tracer reads it *)

Lemma elem_of_ghost_pairs (N b1 b2 : Z) :
  (b1, b2) ∈ ghost_pairs N <-> 1 <= b2 /\ b2 + 2 <= b1 <= N - 2.
Proof.
  unfold ghost_pairs. rewrite list_elem_of_bind. split.
  - intros (b & Hin & Hb). apply list_elem_of_fmap in Hin as (b1' & Heq & Hb1).
    inversion Heq; subst. apply elem_of_seqZ in Hb, Hb1. lia.
  - intros (H2 & H1). exists b2. split.
    + apply list_elem_of_fmap. exists b1. split; [reflexivity|].
      apply elem_of_seqZ. lia.
    + apply elem_of_seqZ. lia.
Qed.

(** The records of a stack of at most [2^24] interfaces keep the invariant
    of their loop counters when the tracer reads them back. *)
Lemma valid_ghost_records (N : Z) :
  N <= 2 ^ 24 ->
  Forall (valid_ghost_record N) ((fun p => ghost_record p.1 p.2) <$> ghost_pairs N).
Proof.
  intros HN. apply Forall_fmap. eapply Forall_impl; [apply valid_ghost_pairs|].
  intros [b1 b2] (Hsep & Hb1 & Hb2). unfold compose, valid_ghost_record, ghost_record.
  cbn [fst snd bounce1 bounce2 valid_ghost_pair].
  rewrite !to_uint_of_Z by lia. lia.
Qed.

(** Beyond [2^24] interfaces the [float] fields round: in a stack of
    16777220 interfaces the loop emits a record for the counters
    (16777217, 16777215), and the tracer reads (16777216, 16777215) back
    from it, one apart. *)
Lemma ghost_record_rounds_beyond_2_24 :
  (16777217, 16777215) ∈ ghost_pairs 16777220
  /\ to_uint (bounce1 (ghost_record 16777217 16777215)) = 16777216
  /\ to_uint (bounce2 (ghost_record 16777217 16777215)) = 16777215
  /\ ~ valid_ghost_record 16777220 (ghost_record 16777217 16777215).
Proof.
  split; [apply elem_of_ghost_pairs; lia|].
  assert (E1 : to_uint (bounce1 (ghost_record 16777217 16777215)) = 16777216)
    by (vm_compute; reflexivity).
  assert (E2 : to_uint (bounce2 (ghost_record 16777217 16777215)) = 16777215)
    by (vm_compute; reflexivity).
  split; [exact E1|]. split; [exact E2|].
  unfold valid_ghost_record. rewrite E1, E2. cbn [valid_ghost_pair]. lia.
Qed.

(** C1, amended: for every interface count [N] from 1 to [2^31 - 1] the
    enumerator returns one record per pair of loop counters, in nested order
    ([b2] ascending outside, [b1] ascending from [b2 + 2] inside); there are
    [Σ_{b2=1}^{N-3} max(0, (N-2)-(b2+2)+1)] of them; every pair of counters
    satisfies [b1 >= b2 + 2] with both indices strictly between [0] and
    [N - 1]; and for [N <= 2^24] every emitted record, read back from its
    [float] fields as the tracer reads it, satisfies the same invariant. *)
Theorem ghost_enumeration (size : nat) :
  (1 <= size)%nat -> Z.of_nat size <= 2 ^ 31 - 1 ->
  exists l,
    generate_ghosts size = Some l
    /\ l = (fun p => ghost_record p.1 p.2) <$> ghost_pairs (Z.of_nat size)
    /\ Z.of_nat (length l) = ghost_count (Z.of_nat size)
    /\ Forall (valid_ghost_pair (Z.of_nat size)) (ghost_pairs (Z.of_nat size))
    /\ (Z.of_nat size <= 2 ^ 24 -> Forall (valid_ghost_record (Z.of_nat size)) l).
Proof.
  intros H1 H2. eexists. split; [apply generate_ghosts_pairs; assumption|].
  split; [reflexivity|]. split; [|split].
  - rewrite length_fmap. apply length_ghost_pairs.
  - apply valid_ghost_pairs.
  - apply valid_ghost_records.
Qed.

Lemma ghost_enumeration_witness :
  exists l,
    generate_ghosts 29 = Some l
    /\ l = (fun p => ghost_record p.1 p.2) <$> ghost_pairs (Z.of_nat 29)
    /\ Z.of_nat (length l) = ghost_count (Z.of_nat 29)
    /\ Forall (valid_ghost_pair (Z.of_nat 29)) (ghost_pairs (Z.of_nat 29))
    /\ Forall (valid_ghost_record (Z.of_nat 29)) l.
Proof.
  destruct (ghost_enumeration 29) as (l & Hgen & Hl & Hcount & Hpairs & Hrecords);
    [lia | vm_compute; discriminate |].
  exists l. split; [exact Hgen|]. split; [exact Hl|]. split; [exact Hcount|].
  split; [exact Hpairs|]. apply Hrecords. vm_compute. discriminate.
Defined.


(** ** The flat buffer index of the tracer and of the geometry mapper *)

Lemma wrap_uint_small (z : Z) : 0 <= z < 2 ^ 32 -> wrap_uint z = z.
Proof. intros H. unfold wrap_uint. apply Z.mod_small. exact H. Qed.

Lemma wrap_int_small (z : Z) : - 2 ^ 31 <= z < 2 ^ 31 -> wrap_int z = z.
Proof. intros H. unfold wrap_int. rewrite Z.mod_small; lia. Qed.

Lemma tracer_vertex_idx_flat (ghost_id local_x local_y : Z) :
  0 <= ghost_id -> 0 <= local_x < 16 -> 0 <= local_y < 16 ->
  ghost_id * 256 + 256 <= 2 ^ 32 ->
  Tracer.vertex_idx ghost_id local_x local_y
  = ghost_id * 16 ^ 2 + local_y * 16 + local_x.
Proof.
  intros Hg Hx Hy Hb. unfold Tracer.vertex_idx. rewrite wrap_uint_small; lia.
Qed.

Lemma mapper_vertex_idx_flat (ghost_id : float) (R local_x local_y : Z) :
  0 <= to_int ghost_id -> 0 <= local_x < R -> 0 <= local_y < R ->
  (to_int ghost_id + 1) * (R * R) < 2 ^ 31 ->
  GhostVertex.vertex_idx ghost_id R local_x local_y
  = to_int ghost_id * R ^ 2 + local_y * R + local_x.
Proof.
  intros Hg Hx Hy Hb. unfold GhostVertex.vertex_idx, GhostVertex.imul, GhostVertex.iadd.
  set (g := to_int ghost_id) in *.
  assert (HR : 0 < R) by lia.
  assert (HRR : 0 < R * R) by nia.
  assert (Hcell : 0 <= local_y * R + local_x < R * R) by nia.
  assert (Hgrr : 0 <= g * (R * R)) by nia.
  rewrite (wrap_int_small (R * R)) by nia.
  rewrite (wrap_int_small (local_y * R)) by nia.
  rewrite (wrap_int_small (local_y * R + local_x)) by nia.
  rewrite (wrap_int_small (g * (R * R))) by nia.
  rewrite wrap_int_small by nia.
  lia.
Qed.

(** Were the mapper run with a tessellation of 16, the two indices would
    agree on every cell. *)
Lemma vertex_idx_agree_16 (g local_x local_y : Z) :
  0 <= g < 2 ^ 16 -> 0 <= local_x < 16 -> 0 <= local_y < 16 ->
  GhostVertex.vertex_idx (F32.of_Z g) 16 local_x local_y
  = Tracer.vertex_idx g local_x local_y.
Proof.
  intros Hg Hx Hy.
  assert (Hrt : to_int (F32.of_Z g) = g) by (apply to_int_of_Z; lia).
  rewrite tracer_vertex_idx_flat by lia.
  rewrite mapper_vertex_idx_flat by (rewrite ?Hrt; lia).
  rewrite Hrt. lia.
Qed.

(** With the renderer's tessellation of 32 the two indices of a cell of the
    16 x 16 tile differ by [768 * g + 16 * y]: they agree only on row 0 of
    ghost 0. *)
Lemma vertex_idx_differ_32 (g local_x local_y : Z) :
  0 <= g < 2 ^ 16 -> 0 <= local_x < 16 -> 0 <= local_y < 16 ->
  GhostVertex.vertex_idx (F32.of_Z g) patch_tessellation local_x local_y
  = Tracer.vertex_idx g local_x local_y + (768 * g + 16 * local_y).
Proof.
  intros Hg Hx Hy.
  assert (Hrt : to_int (F32.of_Z g) = g) by (apply to_int_of_Z; lia).
  rewrite tracer_vertex_idx_flat by lia. unfold patch_tessellation.
  rewrite mapper_vertex_idx_flat by (rewrite ?Hrt; lia).
  rewrite Hrt. lia.
Qed.

(** C2: the renderer runs the mapper with [patch_tessellation = 32] while the
    tracer flattens with the literal 16.  For ghost 0 and the cell
    [(x, y) = (0, 1)] the tracer writes slot 16 and the mapper reads slot 32;
    for ghost 1 and the cell [(0, 0)] the tracer writes slot 256 and the
    mapper reads slot 1024. *)
Theorem vertex_idx_writer_reader_differ :
  Tracer.vertex_idx 0 0 1 = 16
  /\ GhostVertex.vertex_idx (F32.of_Z 0) patch_tessellation 0 1 = 32
  /\ Tracer.vertex_idx 1 0 0 = 256
  /\ GhostVertex.vertex_idx (F32.of_Z 1) patch_tessellation 0 0 = 1024.
Proof. vm_compute. repeat split; reflexivity. Qed.

(** ** The loops of the tracer *)

Section TraceLoop.

Variable pow : float -> float -> float.
Variable ifaces : list LensInterface.

Local Abbreviation trace_loop := (Tracer.trace_loop pow ifaces).
Local Abbreviation phase1 := (Tracer.phase1 pow ifaces).
Local Abbreviation phase2 := (Tracer.phase2 pow ifaces).
Local Abbreviation reflect_at := (Tracer.reflect_at pow).
Local Abbreviation advance := Tracer.advance.
Local Abbreviation walk := Tracer.walk.
Local Abbreviation dead := Tracer.dead.

(** No pass is made once the counter has reached the bounce index,
    whatever the fuel. *)
Lemma trace_loop_done (fuel : nat) (i bounce_idx : Z) (st : Ray) :
  bounce_idx <= i -> trace_loop fuel i bounce_idx st = st.
Proof.
  intros Hle. destruct fuel as [|fuel]; [reflexivity|].
  cbn [Tracer.trace_loop].
  destruct (Z.ltb_spec i bounce_idx) as [Hlt|_]; [lia|]. reflexivity.
Qed.

(** One pass of the loop. *)
Lemma trace_loop_pass (fuel : nat) (i bounce_idx : Z) (st : Ray)
    (iface : LensInterface) :
  0 <= i < bounce_idx -> ifaces !! Z.to_nat i = Some iface ->
  trace_loop (S fuel) i bounce_idx st
  = match advance iface st with
    | Some st' =>
        trace_loop fuel (i + 1) bounce_idx
          (if i =? wrap_uint (bounce_idx - 1) then reflect_at iface st' else st')
    | None => dead st
    end.
Proof.
  intros Hi Hl. cbn [Tracer.trace_loop]. rewrite Hl.
  assert (Hlen : i < Tracer.interface_count ifaces).
  { apply lookup_lt_Some in Hl. unfold Tracer.interface_count. lia. }
  destruct (Z.ltb_spec i bounce_idx) as [_|?]; [|lia].
  destruct (Z.ltb_spec i (Tracer.interface_count ifaces)) as [_|?]; [|lia].
  cbn [andb]. unfold Tracer.advance, Tracer.dead.
  destruct (Tracer.intersect iface st) as [[|] [t|]]; reflexivity.
Qed.

Lemma walk_app (l1 l2 : list LensInterface) (st : Ray) :
  walk (l1 ++ l2) st
  = match walk l1 st with
    | (st', true) => walk l2 st'
    | (st', false) => (st', false)
    end.
Proof.
  revert st. induction l1 as [|iface l1 IH]; intros st; [reflexivity|].
  cbn [app Tracer.walk]. destruct (advance iface st) as [st'|]; [apply IH|reflexivity].
Qed.

Lemma advance_dir (iface : LensInterface) (st st' : Ray) :
  advance iface st = Some st' ->
  current_dir st' = current_dir st /\ intensity st' = intensity st.
Proof.
  unfold Tracer.advance.
  destruct (Tracer.intersect iface st) as [[|] [t|]]; intros H; inversion H; subst.
  split; reflexivity.
Qed.

(** A walk moves the ray origin only: direction and intensity stay. *)
Lemma walk_dir (l : list LensInterface) (st st' : Ray) (ok : bool) :
  walk l st = (st', ok) ->
  current_dir st' = current_dir st /\ intensity st' = intensity st.
Proof.
  revert st. induction l as [|iface l IH]; intros st H; cbn [Tracer.walk] in H.
  - inversion H; subst. split; reflexivity.
  - destruct (advance iface st) as [st1|] eqn:Ha.
    + apply IH in H. apply advance_dir in Ha. destruct H, Ha. split; congruence.
    + inversion H; subst. split; reflexivity.
Qed.

(** The loop from [i] to a bounce index [bounce_idx] inside the stack: it
    advances through the interfaces [i .. bounce_idx - 1], and reflects on
    the last of them, the one of index [bounce_idx - 1]. *)
Lemma trace_loop_walk (n : nat) :
  forall (fuel : nat) (i bounce_idx : Z) (st : Ray),
    0 <= i -> Z.of_nat n = bounce_idx - 1 - i ->
    bounce_idx <= Z.of_nat (length ifaces) -> bounce_idx < 2 ^ 32 ->
    (n < fuel)%nat ->
    trace_loop fuel i bounce_idx st
    = match walk (take (S n) (drop (Z.to_nat i) ifaces)) st with
      | (st', false) => dead st'
      | (st', true) =>
          match ifaces !! Z.to_nat (bounce_idx - 1) with
          | Some iface => reflect_at iface st'
          | None => st'
          end
      end.
Proof.
  induction n as [|n IH]; intros fuel i bounce_idx st Hi Hn Hlen Hb Hfuel.
  - assert (Hib : i = bounce_idx - 1) by lia.
    destruct (lookup_lt_is_Some_2 ifaces (Z.to_nat i)) as [iface Hl]; [lia|].
    destruct fuel as [|fuel]; [lia|].
    rewrite (trace_loop_pass _ _ _ _ iface) by (assumption || lia).
    rewrite (drop_S _ _ _ Hl). cbn [take Tracer.walk]. rewrite take_0.
    rewrite <- Hib, Hl.
    destruct (advance iface st) as [st'|]; [|reflexivity].
    rewrite trace_loop_done by lia.
    rewrite wrap_uint_small by lia. cbn [Tracer.walk].
    rewrite Z.eqb_refl. reflexivity.
  - destruct (lookup_lt_is_Some_2 ifaces (Z.to_nat i)) as [iface Hl]; [lia|].
    destruct fuel as [|fuel]; [lia|].
    rewrite (trace_loop_pass _ _ _ _ iface) by (assumption || lia).
    rewrite (drop_S _ _ _ Hl). cbn [take Tracer.walk].
    destruct (advance iface st) as [st'|]; [|reflexivity].
    rewrite wrap_uint_small by lia.
    destruct (Z.eqb_spec i (bounce_idx - 1)) as [?|_]; [lia|].
    rewrite (IH fuel (i + 1) bounce_idx st') by lia.
    replace (Z.to_nat (i + 1)) with (S (Z.to_nat i)) by lia.
    reflexivity.
Qed.

(** Phase 1 for a first-bounce index inside the stack. *)
Lemma phase1_walk (bounce1_idx : Z) (st : Ray) :
  1 <= bounce1_idx <= Z.of_nat (length ifaces) -> bounce1_idx < 2 ^ 32 ->
  phase1 bounce1_idx st
  = match walk (take (Z.to_nat bounce1_idx) ifaces) st with
    | (st', false) => dead st'
    | (st', true) =>
        match ifaces !! Z.to_nat (bounce1_idx - 1) with
        | Some iface => reflect_at iface st'
        | None => st'
        end
    end.
Proof.
  intros Hb1 Hb. unfold Tracer.phase1.
  rewrite (trace_loop_walk (Z.to_nat (bounce1_idx - 1))) by lia.
  change (Z.to_nat 0) with 0%nat. rewrite drop_0.
  replace (S (Z.to_nat (bounce1_idx - 1))) with (Z.to_nat bounce1_idx) by lia.
  reflexivity.
Qed.

(** Phase 2 for a second-bounce index above the first and inside the
    stack. *)
Lemma phase2_walk (bounce1_idx bounce2_idx : Z) (st : Ray) :
  0 <= bounce1_idx < bounce2_idx -> bounce2_idx <= Z.of_nat (length ifaces) ->
  bounce2_idx < 2 ^ 32 ->
  phase2 bounce1_idx bounce2_idx st
  = match walk (take (Z.to_nat (bounce2_idx - bounce1_idx))
                  (drop (Z.to_nat bounce1_idx) ifaces)) st with
    | (st', false) => dead st'
    | (st', true) =>
        match ifaces !! Z.to_nat (bounce2_idx - 1) with
        | Some iface => reflect_at iface st'
        | None => st'
        end
    end.
Proof.
  intros Hb1 Hlen Hb. unfold Tracer.phase2.
  rewrite (trace_loop_walk (Z.to_nat (bounce2_idx - 1 - bounce1_idx))) by lia.
  replace (S (Z.to_nat (bounce2_idx - 1 - bounce1_idx)))
    with (Z.to_nat (bounce2_idx - bounce1_idx)) by lia.
  reflexivity.
Qed.

(** Phase 2 makes no pass when the second-bounce index does not exceed
    the first. *)
Lemma phase2_no_pass (bounce1_idx bounce2_idx : Z) (st : Ray) :
  bounce2_idx <= bounce1_idx -> phase2 bounce1_idx bounce2_idx st = st.
Proof. intros H. unfold Tracer.phase2. apply trace_loop_done. exact H. Qed.

End TraceLoop.

(** ** binary32 facts used by the shader functions *)

Section FloatFacts.
Import F32.

Lemma one_eq : one = S754_finite false 8388608 (-23).
Proof. reflexivity. Qed.

(** The square of a number does not see its sign. *)
Lemma mul_neg_neg (x : float) : mul (neg x) (neg x) = mul x x.
Proof.
  destruct x as [s|s| |s m e]; cbn; try reflexivity; destruct s; reflexivity.
Qed.

Lemma sub_diag (x : float) : is_finite x = true -> sub x x = zero.
Proof.
  destruct x as [s|s| |s m e]; cbn; try discriminate; intros _.
  - destruct s; reflexivity.
  - unfold sub, SFsub. cbv zeta. rewrite Z.sub_diag. reflexivity.
Qed.

(** A zero divided by a number that is neither a zero nor a NaN is a zero. *)
Lemma div_zero_l (s : bool) (y : float) :
  is_zero y = false -> is_nan y = false -> is_zero (div (S754_zero s) y) = true.
Proof. destruct y; cbn; congruence. Qed.

Lemma mul_zero_self (x : float) : is_zero x = true -> mul x x = zero.
Proof. destruct x as [s|s| |s m e]; cbn; try discriminate. destruct s; reflexivity. Qed.

(** Multiplication by one is exact on the canonical numbers. *)
Lemma mul_one_l (x : float) :
  valid_binary prec emax x = true -> mul one x = x.
Proof.
  destruct x as [s|s| |s m e]; try reflexivity.
  cbn [valid_binary]. unfold bounded, canonical_mantissa. intros Hv.
  apply andb_prop in Hv as [Hc He].
  apply Z.eqb_eq in Hc. apply Z.leb_le in He.
  rewrite one_eq. unfold mul, SFmul. cbn [xorb].
  unfold binary_round_aux, shr_fexp.
  change (Z.pos (8388608 * m))
    with (Z.pos (m~0~0~0~0~0~0~0~0~0~0~0~0~0~0~0~0~0~0~0~0~0~0~0)).
  cbn [Zdigits2 digits2_pos shr_record_of_loc].
  match goal with
  | |- context [shr _ _ ?n] =>
      assert (Hn : n = 23) by (unfold fexp, emin, prec, emax in *; lia)
  end.
  rewrite Hn.
  cbn [shr SpecFloat.iter_pos shr_1 orb shr_m loc_of_shr_record round_nearest_even
       Zdigits2 shr_record_of_loc].
  replace (-23 + e + 23) with e by lia.
  assert (Hn2 : fexp prec emax (Z.pos (digits2_pos m) + e) - e = 0) by lia.
  rewrite Hn2. cbn [shr shr_m].
  unfold emax, prec in *.
  destruct (Z.leb_spec e (128 - 24)) as [_|?]; [reflexivity|lia].
Qed.

Lemma add_zero_l (x : float) : x <> S754_zero true -> add zero x = x.
Proof.
  destruct x as [s|s| |s m e]; try reflexivity.
  destruct s; [congruence|reflexivity].
Qed.

Lemma sub_one_zero : sub one zero = one.
Proof. reflexivity. Qed.

(** What is left of [fresnel] once [r0] is known to be a zero. *)
Lemma fresnel_r0_zero (pow : float -> float -> float) (cosTheta n1 n2 : float) :
  is_zero (div (sub n1 n2) (add n1 n2)) = true ->
  Tracer.fresnel pow cosTheta n1 n2
  = add zero (mul one (pow (sub one cosTheta) (of_Z 5))).
Proof.
  intros Hz. unfold Tracer.fresnel. cbv zeta.
  rewrite (mul_zero_self _ Hz), sub_one_zero. reflexivity.
Qed.

End FloatFacts.

(** ** [fresnel] *)

(** C6, as stated, fails: at equal indices 1.603 the reflectance is 1 for
    [cosTheta = 0] and 1/32 for [cosTheta = 0.5]. *)
Lemma fresnel_equal_indices_nonzero :
  Tracer.fresnel Tracer.pow_ref F32.zero (F32.dec 1603 3) (F32.dec 1603 3) = F32.one
  /\ Tracer.fresnel Tracer.pow_ref (F32.dec 5 1) (F32.dec 1603 3) (F32.dec 1603 3)
     = F32.dec 3125 5
  /\ F32.is_zero (F32.dec 3125 5) = false.
Proof. vm_compute. repeat split; reflexivity. Qed.

(** C6, amended: for a finite index [n] whose double is a non-zero number,
    [fresnel(cosTheta, n, n)] has [r0 = 0] and returns
    [0 + 1 * pow(1 - cosTheta, 5)], the grazing term of Schlick's
    approximation, for every [cosTheta] and every implementation of [pow].
    That is [pow(1 - cosTheta, 5)] itself when [pow] returns a canonical
    number other than the negative zero, and [0] at [cosTheta = 1] when
    [pow(0, 5)] is [0]. *)
Theorem fresnel_equal_indices (pow : float -> float -> float) (cosTheta n : float) :
  F32.is_finite n = true -> F32.is_nonzero (F32.add n n) = true ->
  let grazing := pow (F32.sub F32.one cosTheta) (F32.of_Z 5) in
  Tracer.fresnel pow cosTheta n n = F32.add F32.zero (F32.mul F32.one grazing)
  /\ (valid_binary F32.prec F32.emax grazing = true -> grazing <> S754_zero true ->
      Tracer.fresnel pow cosTheta n n = grazing)
  /\ (pow F32.zero (F32.of_Z 5) = F32.zero ->
      Tracer.fresnel pow F32.one n n = F32.zero).
Proof.
  intros Hfin Hnz grazing.
  assert (Hr0 : F32.is_zero (F32.div (F32.sub n n) (F32.add n n)) = true).
  { rewrite sub_diag by assumption. unfold F32.is_nonzero in Hnz.
    apply andb_prop in Hnz as [H1 H2].
    apply div_zero_l; [now apply negb_true_iff in H1 | now apply negb_true_iff in H2]. }
  split; [|split].
  - apply fresnel_r0_zero. exact Hr0.
  - intros Hvalid Hneg. rewrite fresnel_r0_zero by exact Hr0. fold grazing.
    rewrite mul_one_l by exact Hvalid. apply add_zero_l. exact Hneg.
  - intros Hpow. rewrite fresnel_r0_zero by exact Hr0.
    change (F32.sub F32.one F32.one) with F32.zero. rewrite Hpow. reflexivity.
Qed.

Lemma fresnel_equal_indices_witness :
  Tracer.fresnel Tracer.pow_ref (F32.dec 5 1) (F32.dec 1603 3) (F32.dec 1603 3)
  = Tracer.pow_ref (F32.sub F32.one (F32.dec 5 1)) (F32.of_Z 5)
  /\ Tracer.fresnel Tracer.pow_ref F32.one (F32.dec 1603 3) (F32.dec 1603 3) = F32.zero.
Proof.
  destruct (fresnel_equal_indices Tracer.pow_ref (F32.dec 5 1) (F32.dec 1603 3))
    as (_ & Hexact & _); [vm_compute; reflexivity | vm_compute; reflexivity |].
  destruct (fresnel_equal_indices Tracer.pow_ref F32.one (F32.dec 1603 3))
    as (_ & _ & Hone); [vm_compute; reflexivity | vm_compute; reflexivity |].
  split.
  - apply Hexact; [vm_compute; reflexivity | vm_compute; discriminate].
  - apply Hone. vm_compute. reflexivity.
Defined.

(** C7, as stated, fails: with [n1 = 1] and [n2 = -1] the index sum is zero,
    [r0] is the square of [2 / 0] and the result is a NaN; with
    [n1 = n2 = 0] the quotient [0 / 0] is a NaN already. *)
Lemma fresnel_zero_sum_nan :
  F32.is_zero (F32.add F32.one (F32.neg F32.one)) = true
  /\ Tracer.fresnel Tracer.pow_ref F32.one F32.one (F32.neg F32.one) = S754_nan
  /\ Tracer.fresnel Tracer.pow_ref F32.one F32.zero F32.zero = S754_nan.
Proof. vm_compute. repeat split; reflexivity. Qed.

(** C7, amended: [fresnel] divides by the index sum without a guard; when
    [n1 + n2] is a zero the result is a NaN or positive infinity, for every
    [cosTheta] and every implementation of [pow]. *)
Theorem fresnel_zero_sum (pow : float -> float -> float) (cosTheta n1 n2 : float) :
  F32.is_zero (F32.add n1 n2) = true ->
  Tracer.fresnel pow cosTheta n1 n2 = S754_nan
  \/ Tracer.fresnel pow cosTheta n1 n2 = S754_infinity false.
Proof.
  intros Hz. unfold Tracer.fresnel. cbv zeta.
  rewrite one_eq.
  destruct (F32.add n1 n2) as [s| | |]; try discriminate Hz. clear Hz.
  generalize (pow (F32.sub (S754_finite false 8388608 (-23)) cosTheta) (F32.of_Z 5)).
  intros p.
  destruct (F32.sub n1 n2) as [sd|sd| |sd md ed];
    destruct p as [sp|sp| |sp mp ep]; cbn; auto;
    destruct sp, sd, s; cbn; auto.
Qed.

Lemma fresnel_zero_sum_witness :
  Tracer.fresnel Tracer.pow_ref F32.one F32.one (F32.neg F32.one) = S754_nan
  \/ Tracer.fresnel Tracer.pow_ref F32.one F32.one (F32.neg F32.one)
     = S754_infinity false.
Proof.
  apply (fresnel_zero_sum Tracer.pow_ref F32.one F32.one (F32.neg F32.one)).
  vm_compute. reflexivity.
Defined.

(** ** [intersectSphere] *)

(** C9: negating the radius changes neither the hit flag nor [t]; the radius
    enters the test only through its square. *)
Theorem intersectSphere_neg_radius (rayOrigin rayDir sphereCenter : vec3)
    (sphereRadius : float) :
  Tracer.intersectSphere rayOrigin rayDir sphereCenter (F32.neg sphereRadius)
  = Tracer.intersectSphere rayOrigin rayDir sphereCenter sphereRadius.
Proof.
  unfold Tracer.intersectSphere. rewrite mul_neg_neg. reflexivity.
Qed.

(** ** The kernel [main] of the tracer *)

Lemma to_uint_range (x : float) : 0 <= to_uint x < 2 ^ 32.
Proof. unfold to_uint, wrap_uint. apply Z.mod_pos_bound. lia. Qed.

(** Every record the enumerator emits for a stack of at most [2^24]
    interfaces converts back, in the shader, to bounce indices with the
    second at least two below the first. *)
Lemma generated_bounces_ordered (size : nat) (l : list GhostData) :
  Z.of_nat size <= 2 ^ 24 -> generate_ghosts size = Some l ->
  Forall (fun g => to_uint (bounce2 g) + 2 <= to_uint (bounce1 g)
                   /\ 0 < to_uint (bounce2 g)
                   /\ to_uint (bounce1 g) < Z.of_nat size - 1) l.
Proof.
  intros Hsize Hgen.
  destruct size as [|size]; [discriminate Hgen|].
  rewrite generate_ghosts_pairs in Hgen by lia.
  injection Hgen as <-.
  apply Forall_fmap. eapply Forall_impl; [apply valid_ghost_pairs|].
  intros [b1 b2] (Hsep & Hb1 & Hb2). unfold compose, ghost_record.
  cbn [fst snd bounce1 bounce2].
  rewrite !to_uint_of_Z by lia. lia.
Qed.

(** C3: for every ghost the enumerator emits (stacks of at most [2^24]
    interfaces) the phase-2 loop makes no pass: its condition
    [i < bounce2_idx] is false at [i = bounce1_idx], so the state after
    phase 2 is the state after phase 1, with no second walk, reflection or
    Fresnel factor. *)
Theorem phase2_never_runs (pow : float -> float -> float)
    (ifaces : list LensInterface) (size : nat) (l : list GhostData) :
  Z.of_nat size <= 2 ^ 24 -> generate_ghosts size = Some l ->
  Forall (fun g => forall st : Ray,
            Tracer.phase2 pow ifaces (to_uint (bounce1 g)) (to_uint (bounce2 g)) st = st) l.
Proof.
  intros Hsize Hgen.
  eapply Forall_impl; [apply (generated_bounces_ordered size l Hsize Hgen)|].
  intros g (Hsep & _ & _) st. apply phase2_no_pass. lia.
Qed.

Lemma phase2_never_runs_witness :
  Forall (fun g => forall st : Ray,
            Tracer.phase2 Tracer.pow_ref lens_interfaces
              (to_uint (bounce1 g)) (to_uint (bounce2 g)) st = st) ghost_data.
Proof.
  apply (phase2_never_runs Tracer.pow_ref lens_interfaces 29 ghost_data);
    [vm_compute; discriminate | vm_compute; reflexivity].
Defined.

(** The record ghost 0 gets for the sample [(12, 8)] under axial light
    carries the intensity phase 1 left: one Fresnel factor only. *)
Lemma ghost0_single_fresnel_factor :
  ghost_data !! 0%nat = Some (ghost_record 3 1)
  /\ Tracer.main Tracer.pow_ref axial_light hd_backbuffer lens_interfaces ghost_data
       (UVec3 12 8 0) (cleared_buffer 512) !! 140%nat
     = Some (Tracer.vertex_record hd_backbuffer
               (Tracer.phase1 Tracer.pow_ref lens_interfaces 3
                  (Tracer.initial_ray axial_light 12 8))).
Proof. vm_compute. split; reflexivity. Qed.

(** C4, as stated, fails: for ghost 0 of the Nikon stack (first bounce 3)
    and the sample [(12, 8)] under axial light, the direction after phase 1
    is not the reflection at the interface of index 3. *)
Lemma first_bounce_not_at_bounce_index :
  ~ first_bounce_as_worded Tracer.pow_ref lens_interfaces 3
      (Tracer.initial_ray axial_light 12 8).
Proof.
  intros (iface & hit & Hl & Hw & Hd).
  vm_compute in Hl. injection Hl as <-.
  vm_compute in Hw. injection Hw as <-.
  vm_compute in Hd. discriminate Hd.
Qed.

(** C4, amended: the first reflection happens at the last interface of the
    phase-1 walk, the one of index [bounce1_idx - 1].  When the ray hits
    every interface up to that one and the interface is spherical, the state
    after phase 1 sits at the hit point on it and its direction is the
    incoming direction reflected about the normalized vector from the
    interface's center to the hit point.  (What the block does on a planar
    interface is left out of the statement.) *)
Theorem first_reflection_site (pow : float -> float -> float)
    (ifaces : list LensInterface) (bounce1_idx : Z) (st hit : Ray)
    (iface : LensInterface) :
  1 <= bounce1_idx <= Z.of_nat (length ifaces) -> bounce1_idx < 2 ^ 32 ->
  ifaces !! Z.to_nat (bounce1_idx - 1) = Some iface ->
  F32.gtb (li_is_flat iface) (F32.dec 5 1) = false ->
  Tracer.walk (take (Z.to_nat bounce1_idx) ifaces) st = (hit, true) ->
  current_pos (Tracer.phase1 pow ifaces bounce1_idx st) = current_pos hit
  /\ current_dir (Tracer.phase1 pow ifaces bounce1_idx st)
     = GLSL.reflect (current_dir st)
         (GLSL.normalize (GLSL.vsub (current_pos hit) (li_center iface))).
Proof.
  intros Hb1 Hb Hl _ Hw.
  rewrite phase1_walk by assumption. rewrite Hw, Hl.
  apply walk_dir in Hw as [Hdir _].
  unfold Tracer.reflect_at. cbn [current_pos current_dir]. rewrite Hdir.
  split; reflexivity.
Qed.

Lemma first_reflection_site_witness :
  let st := Tracer.initial_ray axial_light 12 8 in
  exists (iface : LensInterface) (hit : Ray),
    lens_interfaces !! 2%nat = Some iface
    /\ Tracer.walk (take 3 lens_interfaces) st = (hit, true)
    /\ current_pos (Tracer.phase1 Tracer.pow_ref lens_interfaces 3 st) = current_pos hit
    /\ current_dir (Tracer.phase1 Tracer.pow_ref lens_interfaces 3 st)
       = GLSL.reflect (current_dir st)
           (GLSL.normalize (GLSL.vsub (current_pos hit) (li_center iface))).
Proof.
  intros st. eexists _, _.
  split; [vm_compute; reflexivity|].
  split; [vm_compute; reflexivity|].
  apply (first_reflection_site Tracer.pow_ref lens_interfaces 3 st);
    vm_compute; solve [reflexivity | split; discriminate].
Defined.

(** The same block serves the flat interfaces: for a first bounce of 15 the
    reflecting interface is the aperture plane (index 14), the normal used
    lies in the plane, and an axial ray leaves with its direction unchanged,
    where the reflection about the axis-aligned normal [(0, 0, 1)] would
    reverse it. *)
Lemma planar_first_reflection :
  let st := Tracer.initial_ray axial_light 12 8 in
  (li_is_flat <$> lens_interfaces !! 14%nat) = Some F32.one
  /\ current_dir (Tracer.phase1 Tracer.pow_ref lens_interfaces 15 st) = current_dir st
  /\ GLSL.reflect (current_dir st) (Vec3 (F32.of_Z 0) (F32.of_Z 0) (F32.of_Z 1))
     = Vec3 F32.zero F32.zero (F32.neg F32.one).
Proof. vm_compute. repeat split; reflexivity. Qed.

(** C10, as stated, fails: the unit with [thread_id = (0, 16, 0)] belongs to
    the second row of work groups the renderer dispatches.  Its ghost id 0
    is valid, the bounce indices 3 and 1 of ghost 0 are inside the stack of
    29 interfaces and its flat index 256 is inside the buffer, yet [main]
    returns at the guard [local_y >= 16] and writes nothing: the record of
    slot 256 keeps its reserved component 0. *)
Lemma unit_beyond_tile_writes_nothing :
  let tid := UVec3 0 16 0 in
  let buf := cleared_buffer 512 in
  ghost_data !! Z.to_nat (uv_x tid / 16) = Some (ghost_record 3 1)
  /\ to_uint (bounce1 (ghost_record 3 1)) < Tracer.interface_count lens_interfaces
  /\ to_uint (bounce2 (ghost_record 3 1)) < Tracer.interface_count lens_interfaces
  /\ Tracer.vertex_idx (uv_x tid / 16) (uv_x tid mod 16) (uv_y tid) = 256
  /\ 256 < Z.of_nat (length buf)
  /\ Tracer.main Tracer.pow_ref axial_light hd_backbuffer lens_interfaces ghost_data
       tid buf = buf
  /\ (v4_w <$> buf !! 256%nat) = Some F32.zero.
Proof. vm_compute. repeat split; reflexivity. Qed.

(** C10, amended: a unit inside the 16 x 16 tile ([local_y < 16]) whose
    ghost id is valid, whose bounce indices are inside the stack and whose
    flat index is inside the buffer writes one record, at its own slot, and
    leaves every other slot as it was; the reserved component of the record
    is 1.  A ray whose last walk misses an interface (the walk of phase 1
    when the second-bounce index does not exceed the first, as for every
    enumerated ghost; the walk of phase 2 otherwise) gets the projection of
    the last position reached, with intensity 0. *)
Theorem unit_writes_its_record (pow : float -> float -> float)
    (light_dir : vec3) (backbuffer_size : vec2)
    (ifaces : list LensInterface) (ghosts : list GhostData)
    (tid : uvec3) (buf : list vec4) (ghost : GhostData) :
  let ghost_id := uv_x tid / 16 in
  let local_x := uv_x tid mod 16 in
  let local_y := uv_y tid in
  let b1 := to_uint (bounce1 ghost) in
  let b2 := to_uint (bounce2 ghost) in
  let idx := Tracer.vertex_idx ghost_id local_x local_y in
  let st0 := Tracer.initial_ray light_dir local_x local_y in
  let written :=
    Tracer.vertex_record backbuffer_size
      (Tracer.phase2 pow ifaces b1 b2 (Tracer.phase1 pow ifaces b1 st0)) in
  let after := Tracer.main pow light_dir backbuffer_size ifaces ghosts tid buf in
  0 <= uv_x tid -> 0 <= local_y < 16 ->
  ghosts !! Z.to_nat ghost_id = Some ghost ->
  b1 < Tracer.interface_count ifaces -> b2 < Tracer.interface_count ifaces ->
  idx < Z.of_nat (length buf) ->
  after = <[Z.to_nat idx := written]> buf
  /\ after !! Z.to_nat idx = Some written
  /\ (forall j : nat, j <> Z.to_nat idx -> after !! j = buf !! j)
  /\ v4_w written = F32.one
  /\ (forall last : Ray,
        b2 <= b1 ->
        Tracer.walk (take (Z.to_nat b1) ifaces) st0 = (last, false) ->
        written
        = Vec4 (v2_x (Tracer.screen_pos backbuffer_size last))
               (v2_y (Tracer.screen_pos backbuffer_size last)) F32.zero F32.one)
  /\ (forall last : Ray,
        b1 < b2 ->
        Tracer.walk (take (Z.to_nat (b2 - b1)) (drop (Z.to_nat b1) ifaces))
          (Tracer.phase1 pow ifaces b1 st0) = (last, false) ->
        written
        = Vec4 (v2_x (Tracer.screen_pos backbuffer_size last))
               (v2_y (Tracer.screen_pos backbuffer_size last)) F32.zero F32.one).
Proof.
  intros ghost_id local_x local_y b1 b2 idx st0 written after
    Hx Hy Hghost Hb1 Hb2 Hidx.
  assert (Hmain : after = <[Z.to_nat idx := written]> buf).
  { unfold after, Tracer.main. fold ghost_id local_x local_y.
    assert (Hgid : 0 <= ghost_id) by (apply Z.div_pos; lia).
    pose proof (lookup_lt_Some _ _ _ Hghost) as Hlt.
    destruct (Z.geb_spec ghost_id (Z.of_nat (length ghosts))) as [?|_]; [lia|].
    assert (Hlx : 0 <= local_x < 16) by (apply Z.mod_pos_bound; lia).
    destruct (Z.geb_spec local_x 16) as [?|_]; [lia|].
    destruct (Z.geb_spec local_y 16) as [?|_]; [lia|].
    cbn [orb]. rewrite Hghost. fold b1 b2.
    destruct (Z.geb_spec b1 (Tracer.interface_count ifaces)) as [?|_]; [lia|].
    destruct (Z.geb_spec b2 (Tracer.interface_count ifaces)) as [?|_]; [lia|].
    cbn [orb]. fold st0 idx.
    destruct (Z.ltb_spec idx (Z.of_nat (length buf))) as [_|?]; [|lia].
    reflexivity. }
  assert (Hidx0 : 0 <= idx) by (apply Z.mod_pos_bound; lia).
  split; [exact Hmain|]. rewrite Hmain.
  split; [apply list_lookup_insert_eq; lia|].
  split; [intros j Hj; apply list_lookup_insert_ne; congruence|].
  split; [reflexivity|].
  pose proof (to_uint_range (bounce1 ghost)) as Hr1. fold b1 in Hr1.
  pose proof (to_uint_range (bounce2 ghost)) as Hr2. fold b2 in Hr2.
  unfold Tracer.interface_count in Hb1, Hb2.
  split.
  - intros last H21 Hwalk. unfold written.
    rewrite phase2_no_pass by assumption.
    assert (H1 : 1 <= b1).
    { destruct (Z.eq_dec b1 0) as [H0|H0]; [|lia].
      rewrite H0 in Hwalk. rewrite take_0 in Hwalk. discriminate Hwalk. }
    rewrite phase1_walk by lia.
    rewrite Hwalk. reflexivity.
  - intros last H12 Hwalk. unfold written.
    rewrite phase2_walk by lia.
    rewrite Hwalk. reflexivity.
Qed.

Lemma unit_writes_its_record_witness :
  let tid := UVec3 12 8 0 in
  let buf := cleared_buffer 512 in
  let after :=
    Tracer.main Tracer.pow_ref transverse_light hd_backbuffer lens_interfaces
      ghost_data tid buf in
  exists (written : vec4) (last : Ray),
    Tracer.walk (take 3 lens_interfaces) (Tracer.initial_ray transverse_light 12 8)
    = (last, false)
    /\ after = <[140%nat := written]> buf
    /\ written
       = Vec4 (v2_x (Tracer.screen_pos hd_backbuffer last))
              (v2_y (Tracer.screen_pos hd_backbuffer last)) F32.zero F32.one.
Proof.
  intros tid buf after.
  pose proof (unit_writes_its_record Tracer.pow_ref transverse_light hd_backbuffer
                lens_interfaces ghost_data tid buf (ghost_record 3 1)) as H.
  cbv zeta in H.
  destruct H as (Hmain & _ & _ & _ & Hdead & _).
  1: (vm_compute; discriminate).
  1: (split; [vm_compute; discriminate | vm_compute; reflexivity]).
  1-4: (vm_compute; reflexivity).
  eexists _, _. split; [vm_compute; reflexivity|].
  split; [exact Hmain|].
  apply Hdead; vm_compute; solve [reflexivity | discriminate].
Defined.

(** The order of the bounce indices matters for a dead ray: with the
    descriptor (first bounce 1, second bounce 2) the axial ray misses the
    sphere in phase 1, phase 2 then walks on from interface 1 and multiplies
    the zero intensity by the Fresnel term of a degenerate normal; the record
    written carries a NaN. *)
Lemma swapped_bounces_dead_ray :
  (Tracer.walk (take 1 swapped_stack) (Tracer.initial_ray axial_light 8 8)).2 = false
  /\ (v4_z <$> Tracer.main Tracer.pow_ref axial_light hd_backbuffer swapped_stack
                 [swapped_ghost] (UVec3 8 8 0) (cleared_buffer 512) !! 136%nat)
     = Some S754_nan.
Proof. vm_compute. split; reflexivity. Qed.

(** ** The bounds checks of the two shaders *)

Lemma tracer_discards_out_of_range (pow : float -> float -> float)
    (light_dir : vec3) (backbuffer_size : vec2)
    (ifaces : list LensInterface) (ghosts : list GhostData)
    (tid : uvec3) (buf : list vec4) :
  Z.of_nat (length buf)
    <= Tracer.vertex_idx (uv_x tid / 16) (uv_x tid mod 16) (uv_y tid) ->
  Tracer.main pow light_dir backbuffer_size ifaces ghosts tid buf = buf.
Proof.
  intros Hout. unfold Tracer.main.
  destruct (_ >=? _); [reflexivity|].
  destruct (_ || _); [reflexivity|].
  destruct (ghosts !! _) as [ghost|]; [|reflexivity].
  destruct (_ || _); [reflexivity|].
  destruct (Z.ltb_spec (Tracer.vertex_idx (uv_x tid / 16) (uv_x tid mod 16) (uv_y tid))
              (Z.of_nat (length buf))) as [?|_]; [lia|reflexivity].
Qed.

Lemma mapper_culls_out_of_range (ghost_id : float) (R : Z) (buf : list vec4)
    (gl_VertexID local_x local_y : Z) :
  GhostVertex.grid_cell R gl_VertexID = Some (local_x, local_y) ->
  Z.of_nat (length buf) <= GhostVertex.vertex_idx ghost_id R local_x local_y ->
  GhostVertex.main ghost_id R buf gl_VertexID = Some GhostVertex.culled_vertex.
Proof.
  intros Hcell Hout. unfold GhostVertex.main. rewrite Hcell.
  destruct (Z.geb_spec (GhostVertex.vertex_idx ghost_id R local_x local_y)
              (Z.of_nat (length buf))) as [_|?]; [reflexivity|lia].
Qed.

(** Every vertex of a draw call has a grid cell, inside the grid. *)
Lemma grid_cell_range (R gl_VertexID : Z) :
  2 <= R < 2 ^ 31 -> 0 <= gl_VertexID < 2 ^ 31 ->
  exists local_x local_y : Z,
    GhostVertex.grid_cell R gl_VertexID = Some (local_x, local_y)
    /\ 0 <= local_x < R /\ 0 <= local_y < R.
Proof.
  intros HR Hv. unfold GhostVertex.grid_cell, GhostVertex.isub, GhostVertex.iadd.
  rewrite (wrap_int_small (R - 1)) by lia.
  pose proof (Z.rem_bound_pos gl_VertexID 6 ltac:(lia) ltac:(lia)) as Hr.
  assert (Htri : 0 <= Z.quot gl_VertexID 6 /\ 6 * Z.quot gl_VertexID 6 <= gl_VertexID).
  { rewrite Z.quot_div_nonneg by lia. split; [apply Z.div_pos; lia|].
    apply Z.mul_div_le; lia. }
  set (tri := Z.quot gl_VertexID 6) in *.
  pose proof (Z.rem_bound_pos tri (R - 1) ltac:(lia) ltac:(lia)) as Hgx.
  assert (Hgy : 0 <= Z.quot tri (R - 1) <= tri).
  { rewrite Z.quot_div_nonneg by lia. split; [apply Z.div_pos; lia|].
    apply Z.div_le_upper_bound; nia. }
  set (gx := Z.rem tri (R - 1)) in *. set (gy := Z.quot tri (R - 1)) in *.
  assert (Hoff : exists ox oy,
             GhostVertex.read_at GhostVertex.quad_offsets (Z.rem gl_VertexID 6)
             = Some (ox, oy) /\ 0 <= ox <= 1 /\ 0 <= oy <= 1).
  { assert (Hc : Z.rem gl_VertexID 6 = 0 \/ Z.rem gl_VertexID 6 = 1
                 \/ Z.rem gl_VertexID 6 = 2 \/ Z.rem gl_VertexID 6 = 3
                 \/ Z.rem gl_VertexID 6 = 4 \/ Z.rem gl_VertexID 6 = 5) by lia.
    destruct Hc as [-> | [-> | [-> | [-> | [-> | ->]]]]];
      eexists _, _; (split; [reflexivity|lia]). }
  destruct Hoff as (ox & oy & -> & Hox & Hoy).
  rewrite (wrap_int_small (gx + ox)) by lia.
  rewrite (wrap_int_small (gy + oy)) by lia.
  eexists _, _. split; [reflexivity|]. lia.
Qed.

(** With a non-negative ghost id and a grid that fits [int], the shader
    never reads outside the vertex buffer. *)
Lemma mapper_reads_inside (ghost_id : float) (R : Z) (buf : list vec4)
    (gl_VertexID : Z) :
  0 <= to_int ghost_id -> 2 <= R -> (to_int ghost_id + 1) * (R * R) < 2 ^ 31 ->
  0 <= gl_VertexID < 2 ^ 31 ->
  is_Some (GhostVertex.main ghost_id R buf gl_VertexID).
Proof.
  intros Hg HR Hb Hv.
  destruct (grid_cell_range R gl_VertexID) as (lx & ly & Hcell & Hlx & Hly);
    [nia|lia|].
  unfold GhostVertex.main. rewrite Hcell.
  pose proof (mapper_vertex_idx_flat ghost_id R lx ly Hg Hlx Hly Hb) as Hidx.
  assert (Hnn : 0 <= GhostVertex.vertex_idx ghost_id R lx ly) by (rewrite Hidx; nia).
  destruct (Z.geb_spec (GhostVertex.vertex_idx ghost_id R lx ly)
              (Z.of_nat (length buf))) as [_|Hlt]; [eexists; reflexivity|].
  unfold GhostVertex.read_at.
  destruct (Z.ltb_spec (GhostVertex.vertex_idx ghost_id R lx ly) 0) as [?|_]; [lia|].
  destruct (lookup_lt_is_Some_2 buf
              (Z.to_nat (GhostVertex.vertex_idx ghost_id R lx ly))) as [v Hv'];
    [lia|].
  rewrite Hv'. eexists; reflexivity.
Qed.

(** C8, as stated, fails for the mapper: its guard compares two [int]
    values and tests the upper end only.  With the ghost id -1.0 and the
    renderer's tessellation the cell (0, 0) of vertex 0 has the index -1024,
    which lies outside every buffer; the guard lets it pass and the vertex
    is read from outside the buffer instead of being culled. *)
Lemma mapper_negative_index_not_culled :
  GhostVertex.grid_cell patch_tessellation 0 = Some (0, 0)
  /\ GhostVertex.vertex_idx (F32.neg F32.one) patch_tessellation 0 0 = -1024
  /\ GhostVertex.main (F32.neg F32.one) patch_tessellation (cleared_buffer 512) 0
     = None
  /\ GhostVertex.main (F32.neg F32.one) patch_tessellation (cleared_buffer 512) 0
     <> Some GhostVertex.culled_vertex.
Proof.
  split; [vm_compute; reflexivity|]. split; [vm_compute; reflexivity|].
  assert (H : GhostVertex.main (F32.neg F32.one) patch_tessellation
                (cleared_buffer 512) 0 = None) by (vm_compute; reflexivity).
  split; [exact H|]. rewrite H. discriminate.
Qed.

(** C8, amended: a unit whose flat index is at or beyond the length of the
    vertex buffer leaves the buffer as it was; a mapper cell whose index is
    at or beyond the length gets the culled vertex, without a read of the
    buffer; the culled vertex lies outside the clip volume ([z = -10] with
    [w = 1]) and has intensity 0; and for a non-negative ghost id and a grid
    that fits [int] no index is negative, so the mapper never reads outside
    the buffer. *)
Theorem out_of_range_index_guards :
  (forall (pow : float -> float -> float) (light_dir : vec3)
          (backbuffer_size : vec2) (ifaces : list LensInterface)
          (ghosts : list GhostData) (tid : uvec3) (buf : list vec4),
      Z.of_nat (length buf)
        <= Tracer.vertex_idx (uv_x tid / 16) (uv_x tid mod 16) (uv_y tid) ->
      Tracer.main pow light_dir backbuffer_size ifaces ghosts tid buf = buf)
  /\ (forall (ghost_id : float) (R : Z) (buf : list vec4)
             (gl_VertexID local_x local_y : Z),
      GhostVertex.grid_cell R gl_VertexID = Some (local_x, local_y) ->
      Z.of_nat (length buf) <= GhostVertex.vertex_idx ghost_id R local_x local_y ->
      GhostVertex.main ghost_id R buf gl_VertexID = Some GhostVertex.culled_vertex)
  /\ in_clip_volume (gl_Position GhostVertex.culled_vertex) = false
  /\ out_intensity GhostVertex.culled_vertex = F32.zero
  /\ (forall (ghost_id : float) (R : Z) (buf : list vec4) (gl_VertexID : Z),
      0 <= to_int ghost_id -> 2 <= R -> (to_int ghost_id + 1) * (R * R) < 2 ^ 31 ->
      0 <= gl_VertexID < 2 ^ 31 ->
      is_Some (GhostVertex.main ghost_id R buf gl_VertexID)).
Proof.
  split; [exact tracer_discards_out_of_range|].
  split; [exact mapper_culls_out_of_range|].
  split; [reflexivity|]. split; [reflexivity|].
  exact mapper_reads_inside.
Qed.

(** Ghost 2 of the Nikon stack has the flat index 652 for the sample
    [(12, 8)], beyond a buffer of 512 records; the mapper cell of vertex 7 of
    ghost 9 has index 9217. *)
Lemma out_of_range_index_guards_witness :
  Tracer.main Tracer.pow_ref axial_light hd_backbuffer lens_interfaces ghost_data
    (UVec3 44 8 0) (cleared_buffer 512) = cleared_buffer 512
  /\ GhostVertex.main (F32.of_Z 9) patch_tessellation (cleared_buffer 512) 7
     = Some GhostVertex.culled_vertex
  /\ is_Some (GhostVertex.main (F32.of_Z 0) patch_tessellation (cleared_buffer 512) 7).
Proof.
  destruct out_of_range_index_guards as (Htracer & Hmapper & _ & _ & Hinside).
  split; [|split].
  - apply Htracer. vm_compute. discriminate.
  - apply (Hmapper (F32.of_Z 9) patch_tessellation (cleared_buffer 512) 7 2 0).
    + vm_compute. reflexivity.
    + vm_compute. discriminate.
  - apply Hinside.
    + vm_compute. discriminate.
    + vm_compute. discriminate.
    + vm_compute. reflexivity.
    + split; [vm_compute; discriminate | vm_compute; reflexivity].
Defined.

(** ** The interface stack *)

Section InterfaceStack.

Lemma adjacent_all_snoc {A : Type} (R : A -> A -> Prop) (l : list A) (x : A) :
  adjacent_all R l -> (forall a, last l = Some a -> R a x) ->
  adjacent_all R (l ++ [x]).
Proof.
  intros Hl Hlast i a b Ha Hb.
  destruct (Nat.lt_ge_cases (S i) (length l)) as [Hlt|Hge].
  - rewrite lookup_app_l in Ha, Hb by lia. exact (Hl i a b Ha Hb).
  - pose proof (lookup_lt_Some _ _ _ Hb) as Hlen.
    rewrite length_app in Hlen. cbn [length] in Hlen.
    assert (Hi : S i = length l) by lia.
    rewrite lookup_app_l in Ha by lia.
    rewrite lookup_app_r in Hb by lia.
    replace (S i - length l)%nat with 0%nat in Hb by lia.
    injection Hb as <-. apply Hlast.
    rewrite last_lookup. replace (pred (length l)) with i by lia. exact Ha.
Qed.

Lemma adjacent_allb_spec {A : Type} (r : A -> A -> bool) (l : list A) :
  adjacent_allb r l = true -> adjacent_all (fun a b => r a b = true) l.
Proof.
  induction l as [|x l IH]; intros H i a b Ha Hb; [discriminate Ha|].
  destruct l as [|y l]; [destruct i; discriminate Hb|].
  cbn [adjacent_allb] in H. apply andb_prop in H as [Hxy Hrest].
  destruct i as [|i].
  - injection Ha as <-. injection Hb as <-. exact Hxy.
  - exact (IH Hrest i a b Ha Hb).
Qed.

Lemma convert_loop_chain (table : list PatentFormat) (count : nat) :
  forall (total_distance : float) (acc : list LensInterface),
    (count <= length table)%nat ->
    adjacent_all chained_backwards acc ->
    (forall a, last acc = Some a -> v3_x (li_n a) = left_ior table count) ->
    let built := convert_loop table count total_distance acc in
    adjacent_all chained_backwards built
    /\ (forall a, last built = Some a -> v3_x (li_n a) = F32.one).
Proof.
  induction count as [|i IH]; intros total acc Hle Hadj Hlast; cbn [convert_loop].
  - split; [exact Hadj|]. intros a Ha. exact (Hlast a Ha).
  - destruct (table !! i) as [entry|] eqn:He.
    + apply IH; [lia| |].
      * apply adjacent_all_snoc; [exact Hadj|].
        intros a Ha. unfold chained_backwards. rewrite (Hlast a Ha).
        cbn [left_ior convert_entry li_n v3_z]. rewrite He. reflexivity.
      * intros a Ha. rewrite last_snoc in Ha. injection Ha as <-. reflexivity.
    + apply lookup_ge_None in He. lia.
Qed.

End InterfaceStack.

(** C5, as stated, fails on the stack built from the Nikon prescription:
    the exit-side index of interface 0 is 1.0 while the incident-side index
    of interface 1 is 1.80454; and the exit-side index of the last interface
    is 1.603, not the vacuum index. *)
Lemma forward_chain_fails :
  ~ adjacent_all (fun a b => v3_z (li_n a) = v3_x (li_n b)) lens_interfaces
  /\ (v3_z <$> (li_n <$> last lens_interfaces)) = Some (F32.dec 1603 3).
Proof.
  split.
  - intros H.
    assert (H0 : exists a b, lens_interfaces !! 0%nat = Some a
                             /\ lens_interfaces !! 1%nat = Some b
                             /\ v3_z (li_n a) <> v3_x (li_n b)).
    { eexists _, _. split; [vm_compute; reflexivity|].
      split; [vm_compute; reflexivity|]. vm_compute. discriminate. }
    destruct H0 as (a & b & Ha & Hb & Hne). exact (Hne (H 0%nat a b Ha Hb)).
  - vm_compute. reflexivity.
Qed.

(** C5, amended: in the array built from any prescription table, for all
    adjacent positions [i] and [i + 1], the incident-side index of interface
    [i] equals the exit-side index of interface [i + 1] (the table is walked
    backwards, so the chain runs against the array order), and the
    incident-side index of the last interface is the vacuum index 1.0; in
    the array built from the Nikon table the axial positions increase
    strictly from each interface to the next and the exit-side index of the
    first interface is 1.0. *)
Theorem interface_stack_invariant :
  (forall table : list PatentFormat,
      adjacent_all (fun a b => v3_x (li_n a) = v3_z (li_n b)) (convert_patent table))
  /\ (forall (table : list PatentFormat) (a : LensInterface),
      last (convert_patent table) = Some a -> v3_x (li_n a) = F32.one)
  /\ adjacent_all (fun a b => F32.ltb (li_pos a) (li_pos b) = true) lens_interfaces
  /\ (v3_z <$> (li_n <$> head lens_interfaces)) = Some F32.one.
Proof.
  assert (Hgen : forall table : list PatentFormat,
             adjacent_all chained_backwards (convert_patent table)
             /\ (forall a, last (convert_patent table) = Some a
                           -> v3_x (li_n a) = F32.one)).
  { intros table. unfold convert_patent.
    destruct (convert_loop_chain table (length table) F32.zero []) as [H1 H2].
    - lia.
    - intros i a b Ha. discriminate Ha.
    - intros a Ha. discriminate Ha.
    - split; [exact H1|exact H2]. }
  split; [intros table; apply Hgen|].
  split; [intros table; apply Hgen|].
  split; [apply adjacent_allb_spec; vm_compute; reflexivity|].
  vm_compute. reflexivity.
Qed.

Lemma interface_stack_invariant_witness :
  exists a b : LensInterface,
    lens_interfaces !! 0%nat = Some a /\ lens_interfaces !! 1%nat = Some b
    /\ v3_x (li_n a) = v3_z (li_n b)
    /\ F32.ltb (li_pos a) (li_pos b) = true.
Proof.
  destruct interface_stack_invariant as (Hchain & _ & Hpos & _).
  eexists _, _. split; [vm_compute; reflexivity|].
  split; [vm_compute; reflexivity|].
  split.
  - apply (Hchain nikon_lens 0%nat); vm_compute; reflexivity.
  - apply (Hpos 0%nat); vm_compute; reflexivity.
Defined.

(** * Further properties of the renderer *)

(** ** The ghost list *)

Lemma NoDup_ghost_pairs (N : Z) : NoDup (ghost_pairs N).
Proof.
  unfold ghost_pairs.
  apply NoDup_bind.
  - intros b b' p Hb Hb' Hp Hp'.
    apply list_elem_of_fmap in Hp as (x & -> & _).
    apply list_elem_of_fmap in Hp' as (x' & Heq & _).
    inversion Heq. reflexivity.
  - intros b _. apply NoDup_fmap_2; [|apply NoDup_seqZ].
    intros x y Heq. inversion Heq. reflexivity.
  - apply NoDup_seqZ.
Qed.

Lemma ghost_record_inj (b1 b2 b1' b2' : Z) :
  0 <= b1 < 2 ^ 24 -> 0 <= b2 < 2 ^ 24 -> 0 <= b1' < 2 ^ 24 -> 0 <= b2' < 2 ^ 24 ->
  ghost_record b1 b2 = ghost_record b1' b2' -> b1 = b1' /\ b2 = b2'.
Proof.
  intros H1 H2 H1' H2' Heq.
  assert (E1 : to_uint (bounce1 (ghost_record b1 b2))
               = to_uint (bounce1 (ghost_record b1' b2')))
    by (rewrite Heq; reflexivity).
  assert (E2 : to_uint (bounce2 (ghost_record b1 b2))
               = to_uint (bounce2 (ghost_record b1' b2')))
    by (rewrite Heq; reflexivity).
  cbn [ghost_record bounce1 bounce2] in E1, E2.
  rewrite !to_uint_of_Z in E1, E2 by assumption. split; assumption.
Qed.

(** X1: the ghost list built for a stack of up to 2^24 interfaces holds no
    record twice; a pair of indices, as the tracer reads them back from a
    record, is in the list exactly when [1 <= bounce2],
    [bounce2 + 2 <= bounce1] and [bounce1 <= size - 2]; and a stack of one
    to four interfaces has no ghost at all. *)
Theorem ghost_enumeration_complete (size : nat) (l : list GhostData) :
  Z.of_nat size <= 2 ^ 24 -> generate_ghosts size = Some l ->
  NoDup l
  /\ (forall b1 b2 : Z,
        (exists g, g ∈ l /\ to_uint (bounce1 g) = b1 /\ to_uint (bounce2 g) = b2)
        <-> 1 <= b2 /\ b2 + 2 <= b1 <= Z.of_nat size - 2)
  /\ ((size <= 4)%nat -> l = []).
Proof.
  intros Hsize Hgen.
  destruct size as [|size]; [discriminate Hgen|].
  rewrite generate_ghosts_pairs in Hgen by lia. injection Hgen as <-.
  set (N := Z.of_nat (S size)) in *.
  assert (Hrange : forall p, p ∈ ghost_pairs N -> 0 <= p.1 < 2 ^ 24 /\ 0 <= p.2 < 2 ^ 24).
  { intros [b1 b2] Hp. apply elem_of_ghost_pairs in Hp. cbn. lia. }
  split; [|split].
  - apply NoDup_fmap_2_strong; [|apply NoDup_ghost_pairs].
    intros [a1 a2] [c1 c2] Ha Hc Heq. cbn [fst snd] in Heq.
    destruct (Hrange _ Ha), (Hrange _ Hc). cbn [fst snd] in *.
    apply ghost_record_inj in Heq as [-> ->]; [reflexivity|lia..].
  - intros b1 b2. split.
    + intros (g & Hg & E1 & E2).
      apply list_elem_of_fmap in Hg as ([a1 a2] & -> & Ha).
      pose proof (Hrange _ Ha) as [Hr1 Hr2]. cbn [fst snd] in *.
      cbn [ghost_record bounce1 bounce2] in E1, E2.
      rewrite to_uint_of_Z in E1, E2 by lia. subst.
      apply elem_of_ghost_pairs in Ha. exact Ha.
    + intros Hb. exists (ghost_record b1 b2). split.
      * apply list_elem_of_fmap. exists (b1, b2). split; [reflexivity|].
        apply elem_of_ghost_pairs. exact Hb.
      * cbn [ghost_record bounce1 bounce2]. rewrite !to_uint_of_Z by lia.
        split; reflexivity.
  - intros Hsmall.
    destruct (ghost_pairs N) as [|[b1 b2] rest] eqn:Hp; [reflexivity|].
    assert (Hin : (b1, b2) ∈ ghost_pairs N) by (rewrite Hp; left).
    apply elem_of_ghost_pairs in Hin. lia.
Qed.

Lemma ghost_enumeration_complete_witness :
  NoDup ghost_data
  /\ (forall b1 b2 : Z,
        (exists g, g ∈ ghost_data /\ to_uint (bounce1 g) = b1 /\ to_uint (bounce2 g) = b2)
        <-> 1 <= b2 /\ b2 + 2 <= b1 <= Z.of_nat 29 - 2)
  /\ ((29 <= 4)%nat -> ghost_data = []).
Proof.
  apply (ghost_enumeration_complete 29 ghost_data);
    [vm_compute; discriminate | vm_compute; reflexivity].
Defined.

(** X2: an interface index below 2^24 survives the trip through the
    [float] fields of a ghost record: the tracer's [uint(ghost.bounce1)] and
    [uint(ghost.bounce2)] give back the loop counters the host stored.  The
    bound is that of the [float] format: 2^24 + 1 comes back as 2^24. *)
Theorem bounce_index_round_trip :
  (forall b1 b2 : Z,
      0 <= b1 < 2 ^ 24 -> 0 <= b2 < 2 ^ 24 ->
      to_uint (bounce1 (ghost_record b1 b2)) = b1
      /\ to_uint (bounce2 (ghost_record b1 b2)) = b2)
  /\ to_uint (bounce1 (ghost_record (2 ^ 24 + 1) 1)) = 2 ^ 24.
Proof.
  split.
  - intros b1 b2 H1 H2. cbn [ghost_record bounce1 bounce2].
    rewrite !to_uint_of_Z by assumption. split; reflexivity.
  - vm_compute. reflexivity.
Qed.

Lemma bounce_index_round_trip_witness :
  to_uint (bounce1 (ghost_record 27 25)) = 27
  /\ to_uint (bounce2 (ghost_record 27 25)) = 25.
Proof.
  destruct bounce_index_round_trip as [Hrt _]. apply Hrt; lia.
Defined.

(** ** The conversion of the prescription table *)

Lemma convert_loop_length (table : list PatentFormat) (count : nat) :
  forall (total : float) (acc : list LensInterface),
    (count <= length table)%nat ->
    length (convert_loop table count total acc) = (length acc + count)%nat.
Proof.
  induction count as [|i IH]; intros total acc Hle; cbn [convert_loop]; [lia|].
  destruct (table !! i) as [entry|] eqn:He.
  - rewrite IH by lia. rewrite length_app. cbn [length]. lia.
  - apply lookup_ge_None in He. lia.
Qed.

Lemma convert_loop_lookup_acc (table : list PatentFormat) (count : nat) :
  forall (total : float) (acc : list LensInterface) (k : nat),
    (k < length acc)%nat ->
    convert_loop table count total acc !! k = acc !! k.
Proof.
  induction count as [|i IH]; intros total acc k Hk; cbn [convert_loop]; [reflexivity|].
  destruct (table !! i) as [entry|]; [|reflexivity].
  rewrite IH by (rewrite length_app; cbn [length]; lia).
  apply lookup_app_l. exact Hk.
Qed.

(** The interface the loop appends at step [j] is the conversion of table
    entry [count - 1 - j], at the distance accumulated so far. *)
Lemma convert_loop_lookup_new (table : list PatentFormat) (count : nat) :
  forall (total : float) (acc : list LensInterface) (j : nat),
    (count <= length table)%nat -> (j < count)%nat ->
    exists (entry : PatentFormat) (t : float),
      table !! (count - 1 - j)%nat = Some entry
      /\ convert_loop table count total acc !! (length acc + j)%nat
         = Some (convert_entry table (count - 1 - j) entry t)
      /\ (j = 0%nat -> t = F32.add total (pf_d entry))
      /\ (forall j', j = S j' ->
            exists prev,
              convert_loop table count total acc !! (length acc + j')%nat = Some prev
              /\ t = F32.add (li_pos prev) (pf_d entry)).
Proof.
  induction count as [|i IH]; intros total acc j Hle Hj; [lia|].
  cbn [convert_loop].
  destruct (table !! i) as [entry|] eqn:He; [|apply lookup_ge_None in He; lia].
  destruct j as [|j].
  - exists entry, (F32.add total (pf_d entry)).
    replace (S i - 1 - 0)%nat with i by lia.
    split; [exact He|]. split; [|split; [reflexivity|intros j' Hj'; discriminate Hj']].
    rewrite convert_loop_lookup_acc by (rewrite length_app; cbn [length]; lia).
    rewrite Nat.add_0_r. rewrite lookup_app_r by lia.
    rewrite Nat.sub_diag. reflexivity.
  - destruct (IH (F32.add total (pf_d entry))
                (acc ++ [convert_entry table i entry (F32.add total (pf_d entry))]) j)
      as (entry' & t & Hl & Hres & H0 & HS); [lia|lia|].
    rewrite length_app in Hres. cbn [length] in Hres.
    replace (length acc + 1 + j)%nat with (length acc + S j)%nat in Hres by lia.
    replace (S i - 1 - S j)%nat with (i - 1 - j)%nat by lia.
    exists entry', t. split; [exact Hl|]. split; [exact Hres|].
    split; [intros Hj0; discriminate Hj0|].
    intros j' Hj'. injection Hj' as <-.
    destruct j as [|j''].
    + exists (convert_entry table i entry (F32.add total (pf_d entry))).
      split.
      * rewrite convert_loop_lookup_acc by (rewrite length_app; cbn [length]; lia).
        rewrite Nat.add_0_r. rewrite lookup_app_r by lia.
        rewrite Nat.sub_diag. reflexivity.
      * rewrite (H0 eq_refl). reflexivity.
    + destruct (HS j'' eq_refl) as (prev & Hprev & Ht).
      rewrite length_app in Hprev. cbn [length] in Hprev.
      replace (length acc + 1 + j'')%nat with (length acc + S j'')%nat in Hprev by lia.
      exists prev. split; assumption.
Qed.

(** X3: the conversion keeps the number of entries and reverses their
    order: interface [k] of the stack is built from table entry
    [size - 1 - k].  It takes the radius, the aperture height, the coating
    thickness and the width of that entry unchanged, has the entry's
    index on its exit side and 1.0 as coating index, sits on the axis with
    its centre one radius before its vertex, and the tracer's test
    [is_flat > 0.5] gives back the entry's flag. *)
Theorem convert_patent_entries (table : list PatentFormat) :
  length (convert_patent table) = length table
  /\ forall k : nat,
       (k < length table)%nat ->
       exists (entry : PatentFormat) (iface : LensInterface),
         table !! (length table - 1 - k)%nat = Some entry
         /\ convert_patent table !! k = Some iface
         /\ li_radius iface = pf_r entry
         /\ li_sa iface = pf_h entry
         /\ li_d1 iface = pf_c entry
         /\ li_w iface = pf_w entry
         /\ li_n iface
            = Vec3 (left_ior table (length table - 1 - k)) F32.one (pf_n entry)
         /\ li_center iface
            = Vec3 F32.zero F32.zero (F32.sub (li_pos iface) (li_radius iface))
         /\ F32.gtb (li_is_flat iface) (F32.dec 5 1) = pf_f entry.
Proof.
  unfold convert_patent. split.
  - rewrite convert_loop_length by lia. reflexivity.
  - intros k Hk.
    destruct (convert_loop_lookup_new table (length table) F32.zero [] k)
      as (entry & t & He & Hres & _); [lia|exact Hk|].
    cbn [length Nat.add] in Hres.
    exists entry, (convert_entry table (length table - 1 - k) entry t).
    split; [exact He|]. split; [exact Hres|].
    cbn [convert_entry li_radius li_sa li_d1 li_w li_n li_center li_pos li_is_flat].
    repeat (split; [reflexivity|]).
    destruct (pf_f entry); vm_compute; reflexivity.
Qed.

Lemma convert_patent_entries_witness :
  exists (entry : PatentFormat) (iface : LensInterface),
    nikon_lens !! (length nikon_lens - 1 - 3)%nat = Some entry
    /\ lens_interfaces !! 3%nat = Some iface
    /\ li_radius iface = pf_r entry
    /\ li_sa iface = pf_h entry
    /\ li_d1 iface = pf_c entry
    /\ li_w iface = pf_w entry
    /\ li_n iface
       = Vec3 (left_ior nikon_lens (length nikon_lens - 1 - 3)) F32.one (pf_n entry)
    /\ li_center iface
       = Vec3 F32.zero F32.zero (F32.sub (li_pos iface) (li_radius iface))
    /\ F32.gtb (li_is_flat iface) (F32.dec 5 1) = pf_f entry.
Proof.
  destruct (convert_patent_entries nikon_lens) as [_ H].
  apply (H 3%nat). vm_compute. lia.
Defined.

(** X4: the axial position of an interface is a running sum taken from the
    far end of the table: the first interface of the stack sits at
    [0 + d] of the last table entry, and interface [k + 1] sits at the
    position of interface [k] plus the [d] of table entry [size - 2 - k].
    An empty table gives an empty stack. *)
Theorem convert_patent_positions (table : list PatentFormat) :
  (forall (entry : PatentFormat) (iface : LensInterface),
      last table = Some entry -> convert_patent table !! 0%nat = Some iface ->
      li_pos iface = F32.add F32.zero (pf_d entry))
  /\ (forall (k : nat) (entry : PatentFormat) (prev iface : LensInterface),
      (S k < length table)%nat ->
      table !! (length table - 2 - k)%nat = Some entry ->
      convert_patent table !! k = Some prev ->
      convert_patent table !! S k = Some iface ->
      li_pos iface = F32.add (li_pos prev) (pf_d entry))
  /\ (table = [] -> convert_patent table = []).
Proof.
  unfold convert_patent. split; [|split].
  - intros entry iface Hlast Hhead.
    destruct table as [|e0 table']; [discriminate Hlast|].
    destruct (convert_loop_lookup_new (e0 :: table') (length (e0 :: table')) F32.zero [] 0)
      as (entry' & t & He & Hres & H0 & _); [lia|cbn [length]; lia|].
    change (length (@nil LensInterface) + 0)%nat with 0%nat in Hres.
    rewrite Hhead in Hres. injection Hres as ->.
    rewrite last_lookup in Hlast.
    replace (length (e0 :: table') - 1 - 0)%nat
      with (Nat.pred (length (e0 :: table'))) in He by (cbn [length]; lia).
    rewrite Hlast in He. injection He as <-.
    cbn [convert_entry li_pos]. apply H0. reflexivity.
  - intros k entry prev iface Hk He Hprev Hiface.
    destruct (convert_loop_lookup_new table (length table) F32.zero [] (S k))
      as (entry' & t & He' & Hres & _ & HS); [lia|exact Hk|].
    cbn [length Nat.add] in Hres.
    replace (length table - 1 - S k)%nat with (length table - 2 - k)%nat in He' by lia.
    rewrite He in He'. injection He' as <-.
    rewrite Hiface in Hres. injection Hres as ->.
    destruct (HS k eq_refl) as (prev' & Hprev' & Ht).
    cbn [length Nat.add] in Hprev'. rewrite Hprev in Hprev'. injection Hprev' as <-.
    cbn [convert_entry li_pos]. exact Ht.
  - intros ->. reflexivity.
Qed.

Lemma convert_patent_positions_witness :
  exists (entry : PatentFormat) (prev iface : LensInterface),
    nikon_lens !! (length nikon_lens - 2 - 5)%nat = Some entry
    /\ lens_interfaces !! 5%nat = Some prev
    /\ lens_interfaces !! 6%nat = Some iface
    /\ li_pos iface = F32.add (li_pos prev) (pf_d entry).
Proof.
  destruct (convert_patent_positions nikon_lens) as (_ & Hstep & _).
  eexists _, _, _.
  split; [vm_compute; reflexivity|].
  split; [vm_compute; reflexivity|].
  split; [vm_compute; reflexivity|].
  apply (Hstep 5%nat); [vm_compute; lia | vm_compute; reflexivity
                       | vm_compute; reflexivity | vm_compute; reflexivity].
Defined.

(** ** The kernel as a set of writes *)

(** X5: in a dispatch over a ghost list of at most 2^24 ghosts
    ([num_ghosts * 256 <= 2^32]) the guards of the kernel keep the flat
    index from wrapping around: for an invocation that passes
    [ghost_id < num_ghosts] and [local_y < 16] the index is the plain number
    [ghost_id * 256 + local_y * 16 + local_x], it lies in the 256 slots of
    its ghost and below [num_ghosts * 256], and two such invocations with
    the same index have the same [x] and [y] thread coordinates.  The bound
    on the list is needed: ghost 16777216 shares slot 83 with ghost 0. *)
Theorem tracer_vertex_idx_injective (num_ghosts : Z) (t1 t2 : uvec3) :
  is_uvec3 t1 -> is_uvec3 t2 -> num_ghosts * 256 <= 2 ^ 32 ->
  uv_x t1 / 16 < num_ghosts -> uv_y t1 < 16 ->
  uv_x t2 / 16 < num_ghosts -> uv_y t2 < 16 ->
  let idx t := Tracer.vertex_idx (uv_x t / 16) (uv_x t mod 16) (uv_y t) in
  idx t1 = uv_x t1 / 16 * 256 + uv_y t1 * 16 + uv_x t1 mod 16
  /\ uv_x t1 / 16 * 256 <= idx t1 < (uv_x t1 / 16 + 1) * 256
  /\ idx t1 < num_ghosts * 256
  /\ (idx t1 = idx t2 -> uv_x t1 = uv_x t2 /\ uv_y t1 = uv_y t2)
  /\ Tracer.vertex_idx 16777216 3 5 = Tracer.vertex_idx 0 3 5.
Proof.
  intros (Hx1 & Hy1 & _) (Hx2 & Hy2 & _) HG Hg1 Hl1 Hg2 Hl2 idx. unfold idx.
  assert (Hq1 : 0 <= uv_x t1 / 16) by (apply Z.div_pos; lia).
  assert (Hq2 : 0 <= uv_x t2 / 16) by (apply Z.div_pos; lia).
  pose proof (Z.mod_pos_bound (uv_x t1) 16 ltac:(lia)) as Hm1.
  pose proof (Z.mod_pos_bound (uv_x t2) 16 ltac:(lia)) as Hm2.
  rewrite !tracer_vertex_idx_flat by lia. change (16 ^ 2) with 256.
  split; [reflexivity|]. split; [lia|]. split; [lia|]. split.
  - intros Heq.
    assert (Hg : uv_x t1 / 16 = uv_x t2 / 16) by lia.
    assert (Hm : uv_x t1 mod 16 = uv_x t2 mod 16) by lia.
    split; [|lia].
    rewrite (Z.div_mod (uv_x t1) 16), (Z.div_mod (uv_x t2) 16) by lia.
    rewrite Hg, Hm. reflexivity.
  - vm_compute. reflexivity.
Qed.

(** Two invocations of the renderer's dispatch over its 325 ghosts: ghost
    0, sample (12, 8) and ghost 2, sample (12, 3) write different slots. *)
Lemma tracer_vertex_idx_injective_witness :
  Tracer.vertex_idx (12 / 16) (12 mod 16) 8 = 12 / 16 * 256 + 8 * 16 + 12 mod 16
  /\ Tracer.vertex_idx (12 / 16) (12 mod 16) 8 < num_ghosts * 256
  /\ Tracer.vertex_idx (12 / 16) (12 mod 16) 8
     <> Tracer.vertex_idx (44 / 16) (44 mod 16) 3.
Proof.
  destruct (tracer_vertex_idx_injective num_ghosts (UVec3 12 8 0) (UVec3 44 3 0))
    as (Hflat & _ & Hbelow & Hinj & _).
  - unfold is_uvec3. cbn. lia.
  - unfold is_uvec3. cbn. lia.
  - vm_compute. discriminate.
  - vm_compute. reflexivity.
  - vm_compute. reflexivity.
  - vm_compute. reflexivity.
  - vm_compute. reflexivity.
  - cbn [uv_x uv_y] in Hflat, Hbelow, Hinj.
    split; [exact Hflat|]. split; [exact Hbelow|].
    intros Heq. destruct (Hinj Heq) as [Hx _]. discriminate Hx.
Defined.

Section Units.

Variable pow : float -> float -> float.
Variable light_dir : vec3.
Variable backbuffer_size : vec2.
Variable ifaces : list LensInterface.
Variable ghosts : list GhostData.

Local Abbreviation kernel := (Tracer.main pow light_dir backbuffer_size ifaces ghosts).
Local Abbreviation write_of := (unit_write pow light_dir backbuffer_size ifaces ghosts).
Local Abbreviation record_of := (slot_record pow light_dir backbuffer_size ifaces ghosts).
Local Abbreviation run := (run_units pow light_dir backbuffer_size ifaces ghosts).
Local Abbreviation frame := (trace_frame pow light_dir backbuffer_size ifaces ghosts).

(** An invocation is the write [unit_write] describes. *)
Lemma main_unit_write (tid : uvec3) (buf : list vec4) :
  kernel tid buf
  = match write_of tid (length buf) with
    | Some (i, v) => <[i := v]> buf
    | None => buf
    end.
Proof.
  unfold Tracer.main, unit_write, unit_record.
  destruct (_ >=? _); [reflexivity|].
  destruct (_ || _); [reflexivity|].
  destruct (ghosts !! _) as [ghost|]; [|reflexivity].
  destruct (_ || _); [reflexivity|].
  destruct (_ <? _); reflexivity.
Qed.

Lemma main_length (tid : uvec3) (buf : list vec4) :
  length (kernel tid buf) = length buf.
Proof.
  rewrite main_unit_write. destruct (write_of tid (length buf)) as [[i v]|];
    [apply length_insert|reflexivity].
Qed.

Lemma slot_decompose (g x y : Z) :
  0 <= g -> 0 <= x < 16 -> 0 <= y < 16 ->
  (g * 256 + y * 16 + x) / 256 = g
  /\ (g * 256 + y * 16 + x) mod 16 = x
  /\ ((g * 256 + y * 16 + x) / 16) mod 16 = y.
Proof. intros Hg Hx Hy. Z.to_euclidean_division_equations. lia. Qed.

(** A write goes to the slot of its unit, inside the buffer, and carries the
    record of that slot. *)
Lemma unit_write_slot (tid : uvec3) (len i : nat) (v : vec4) :
  is_uvec3 tid -> Z.of_nat (length ghosts) * 256 <= 2 ^ 32 ->
  write_of tid len = Some (i, v) ->
  Z.of_nat i = (uv_x tid / 16) * 256 + uv_y tid * 16 + uv_x tid mod 16
  /\ (i < len)%nat
  /\ uv_y tid < 16
  /\ uv_x tid / 16 < Z.of_nat (length ghosts)
  /\ record_of (Z.of_nat i) = Some v.
Proof.
  intros (Hx & Hy0 & _) Hg. unfold unit_write, slot_record.
  destruct (Z.geb_spec (uv_x tid / 16) (Z.of_nat (length ghosts))) as [?|Hgid];
    [discriminate|].
  assert (Hlx : 0 <= uv_x tid mod 16 < 16) by (apply Z.mod_pos_bound; lia).
  assert (Hgid0 : 0 <= uv_x tid / 16) by (apply Z.div_pos; lia).
  destruct (Z.geb_spec (uv_x tid mod 16) 16) as [?|_]; [lia|].
  destruct (Z.geb_spec (uv_y tid) 16) as [?|Hy]; [discriminate|].
  cbn [orb].
  destruct (ghosts !! Z.to_nat (uv_x tid / 16)) as [ghost|] eqn:Hghost; [|discriminate].
  destruct (_ || _) eqn:Hb; [discriminate|].
  rewrite tracer_vertex_idx_flat by lia.
  set (s := uv_x tid / 16 * 16 ^ 2 + uv_y tid * 16 + uv_x tid mod 16).
  destruct (Z.ltb_spec s (Z.of_nat len)) as [Hlt|?]; [|discriminate].
  intros H. injection H as <- <-.
  assert (Hs : 0 <= s) by (unfold s; lia).
  rewrite Z2Nat.id by exact Hs.
  destruct (slot_decompose (uv_x tid / 16) (uv_x tid mod 16) (uv_y tid))
    as (E1 & E2 & E3); [lia..|].
  change (16 ^ 2) with 256 in s. fold s in E1, E2, E3.
  rewrite E1, E2, E3, Hghost, Hb.
  repeat split; lia.
Qed.

(** Two invocations commute. *)
Lemma main_commute (t1 t2 : uvec3) (buf : list vec4) :
  is_uvec3 t1 -> is_uvec3 t2 -> Z.of_nat (length ghosts) * 256 <= 2 ^ 32 ->
  kernel t1 (kernel t2 buf) = kernel t2 (kernel t1 buf).
Proof.
  intros H1 H2 Hg. rewrite !main_unit_write.
  destruct (write_of t1 (length buf)) as [[i1 v1]|] eqn:W1;
    destruct (write_of t2 (length buf)) as [[i2 v2]|] eqn:W2;
    rewrite ?length_insert, ?W1, ?W2; try reflexivity.
  destruct (decide (i1 = i2)) as [->|Hne].
  - destruct (unit_write_slot _ _ _ _ H1 Hg W1) as (_ & _ & _ & _ & R1).
    destruct (unit_write_slot _ _ _ _ H2 Hg W2) as (_ & _ & _ & _ & R2).
    rewrite R1 in R2. injection R2 as ->. reflexivity.
  - apply list_insert_insert_ne. exact Hne.
Qed.

Lemma run_units_cons (t : uvec3) (threads : list uvec3) (buf : list vec4) :
  run (t :: threads) buf = run threads (kernel t buf).
Proof. reflexivity. Qed.

Lemma run_units_length (threads : list uvec3) (buf : list vec4) :
  length (run threads buf) = length buf.
Proof.
  revert buf. induction threads as [|t threads IH]; intros buf; [reflexivity|].
  rewrite run_units_cons, IH. apply main_length.
Qed.

(** X6: the buffer a dispatch leaves behind does not depend on the order in
    which its invocations run: any two orders of the same invocations give
    the same buffer. *)
Theorem run_units_order_independent (threads threads' : list uvec3)
    (buf : list vec4) :
  threads ≡ₚ threads' -> Forall is_uvec3 threads ->
  Z.of_nat (length ghosts) * 256 <= 2 ^ 32 ->
  run threads buf = run threads' buf.
Proof.
  intros Hperm. revert buf.
  induction Hperm as [|t l l' _ IH|t1 t2 l|l l' l'' H1 IH1 H2 IH2];
    intros buf Hall Hg.
  - reflexivity.
  - rewrite !run_units_cons. apply Forall_cons in Hall as [_ Hall].
    apply IH; assumption.
  - rewrite !run_units_cons.
    apply Forall_cons in Hall as [Ht2 Hall]. apply Forall_cons in Hall as [Ht1 _].
    rewrite (main_commute t1 t2) by assumption. reflexivity.
  - rewrite IH1 by assumption. apply IH2; [|exact Hg].
    rewrite <- H1. exact Hall.
Qed.

(** A slot after a run of invocations. *)
Lemma run_units_lookup (threads : list uvec3) :
  forall (buf : list vec4) (s : nat),
    Forall is_uvec3 threads -> Z.of_nat (length ghosts) * 256 <= 2 ^ 32 ->
    run threads buf !! s
    = if bool_decide (Exists (fun t => fst <$> write_of t (length buf) = Some s) threads)
      then record_of (Z.of_nat s)
      else buf !! s.
Proof.
  induction threads as [|t threads IH]; intros buf s Hall Hg.
  - unfold run_units. cbn [foldl].
    rewrite bool_decide_eq_false_2; [reflexivity|]. intros H. inversion H.
  - rewrite run_units_cons.
    apply Forall_cons in Hall as [Ht Hall].
    rewrite IH by assumption. rewrite main_length.
    case_bool_decide as Hex.
    + rewrite bool_decide_eq_true_2; [reflexivity|]. right. exact Hex.
    + rewrite main_unit_write.
      destruct (write_of t (length buf)) as [[i v]|] eqn:W.
      * destruct (decide (i = s)) as [->|Hne].
        -- rewrite bool_decide_eq_true_2 by (left; rewrite W; reflexivity).
           destruct (unit_write_slot _ _ _ _ Ht Hg W) as (_ & Hlt & _ & _ & R).
           rewrite list_lookup_insert_eq by exact Hlt. symmetry. exact R.
        -- rewrite list_lookup_insert_ne by exact Hne.
           rewrite bool_decide_eq_false_2; [reflexivity|].
           intros Hex'. apply Exists_cons in Hex' as [Hv'|Hex'];
             [rewrite W in Hv'; cbn in Hv'; congruence|contradiction].
      * rewrite bool_decide_eq_false_2; [reflexivity|].
        intros Hex'. apply Exists_cons in Hex' as [Hv'|Hex'];
          [rewrite W in Hv'; cbn in Hv'; congruence|contradiction].
Qed.

Lemma dispatch_threads_spec (nx ny : Z) (t : uvec3) :
  t ∈ dispatch_threads nx ny
  <-> 0 <= uv_x t < nx * 16 /\ 0 <= uv_y t < ny * 16 /\ uv_z t = 0.
Proof.
  unfold dispatch_threads. rewrite list_elem_of_bind. split.
  - intros (x & Hin & Hx). apply list_elem_of_fmap in Hin as (y & -> & Hy).
    apply elem_of_seqZ in Hx, Hy. cbn. lia.
  - intros (Hx & Hy & Hz). exists (uv_x t). split; [|apply elem_of_seqZ; lia].
    apply list_elem_of_fmap. exists (uv_y t). split; [|apply elem_of_seqZ; lia].
    destruct t as [x y z]. cbn in *. subst. reflexivity.
Qed.

(** The unit that owns a slot writes it. *)
Lemma slot_owner_writes (s len : nat) (v : vec4) :
  (s < len)%nat -> Z.of_nat (length ghosts) * 256 <= 2 ^ 32 ->
  record_of (Z.of_nat s) = Some v ->
  let owner :=
    UVec3 (16 * (Z.of_nat s / 256) + Z.of_nat s mod 16) ((Z.of_nat s / 16) mod 16) 0 in
  write_of owner len = Some (s, v)
  /\ Z.of_nat s / 256 < Z.of_nat (length ghosts).
Proof.
  intros Hlt Hg Hrec owner. unfold slot_record in Hrec.
  destruct (ghosts !! Z.to_nat (Z.of_nat s / 256)) as [ghost|] eqn:Hghost; [|discriminate].
  destruct (_ || _) eqn:Hb; [discriminate|]. injection Hrec as <-.
  pose proof (lookup_lt_Some _ _ _ Hghost) as Hgl.
  assert (Hg0 : 0 <= Z.of_nat s / 256) by (apply Z.div_pos; lia).
  assert (Hlx : 0 <= Z.of_nat s mod 16 < 16) by (apply Z.mod_pos_bound; lia).
  assert (Hly : 0 <= (Z.of_nat s / 16) mod 16 < 16) by (apply Z.mod_pos_bound; lia).
  assert (Ex : uv_x owner / 16 = Z.of_nat s / 256
               /\ uv_x owner mod 16 = Z.of_nat s mod 16).
  { unfold owner. cbn [uv_x]. Z.to_euclidean_division_equations. lia. }
  destruct Ex as [Ex1 Ex2].
  split; [|lia].
  unfold unit_write. rewrite Ex1, Ex2. cbn [uv_y owner].
  destruct (Z.geb_spec (Z.of_nat s / 256) (Z.of_nat (length ghosts))) as [?|_]; [lia|].
  destruct (Z.geb_spec (Z.of_nat s mod 16) 16) as [?|_]; [lia|].
  destruct (Z.geb_spec ((Z.of_nat s / 16) mod 16) 16) as [?|_]; [lia|].
  cbn [orb]. rewrite Hghost, Hb.
  rewrite tracer_vertex_idx_flat by lia.
  assert (Es : Z.of_nat s / 256 * 16 ^ 2 + (Z.of_nat s / 16) mod 16 * 16 + Z.of_nat s mod 16
               = Z.of_nat s).
  { change (16 ^ 2) with 256. Z.to_euclidean_division_equations. lia. }
  rewrite Es. destruct (Z.ltb_spec (Z.of_nat s) (Z.of_nat len)) as [_|?]; [|lia].
  rewrite Nat2Z.id. reflexivity.
Qed.

(** A slot after step 1 of a frame. *)
Lemma trace_frame_lookup (tessellation : Z) (buf : list vec4) (s : nat) :
  1 <= tessellation ->
  Z.of_nat (length ghosts) * work_groups tessellation * 16 <= 2 ^ 32 ->
  Z.of_nat (length ghosts) * 256 <= 2 ^ 32 ->
  (s < length buf)%nat ->
  frame tessellation buf !! s
  = match record_of (Z.of_nat s) with
    | Some v => Some v
    | None => buf !! s
    end.
Proof.
  intros Htess Hbound Hg Hs. unfold trace_frame.
  assert (Hwg : 1 <= work_groups tessellation).
  { unfold work_groups. Z.to_euclidean_division_equations. lia. }
  assert (Hrange : forall t,
    0 <= uv_x t < Z.of_nat (length ghosts) * work_groups tessellation * 16
    /\ 0 <= uv_y t < work_groups tessellation * 16 /\ uv_z t = 0 -> is_uvec3 t).
  { intros t (Hx & Hy & Hz). unfold is_uvec3.
    assert (1 <= Z.of_nat (length ghosts)) by nia.
    assert (work_groups tessellation * 16
            <= Z.of_nat (length ghosts) * work_groups tessellation * 16) by nia.
    lia. }
  rewrite run_units_lookup; [| |exact Hg].
  - case_bool_decide as Hex.
    + apply Exists_exists in Hex as (t & Hin & Hw).
      destruct (write_of t (length buf)) as [[i v]|] eqn:W; [|discriminate Hw].
      cbn in Hw. injection Hw as ->.
      apply dispatch_threads_spec in Hin.
      assert (Ht : is_uvec3 t) by (apply Hrange, Hin).
      destruct (unit_write_slot _ _ _ _ Ht Hg W) as (_ & _ & _ & _ & R).
      rewrite R. reflexivity.
    + destruct (record_of (Z.of_nat s)) as [v|] eqn:R; [|reflexivity].
      exfalso. apply Hex. apply Exists_exists.
      destruct (slot_owner_writes s (length buf) v Hs Hg R) as [W Hlt].
      eexists. split; [|rewrite W; reflexivity].
      apply dispatch_threads_spec. cbn [uv_x uv_y uv_z].
      assert (0 <= Z.of_nat s / 256) by (apply Z.div_pos; lia).
      pose proof (Z.mod_pos_bound (Z.of_nat s) 16 ltac:(lia)).
      pose proof (Z.mod_pos_bound (Z.of_nat s / 16) 16 ltac:(lia)).
      repeat split; try lia; nia.
  - apply Forall_forall. intros t Hin. apply dispatch_threads_spec in Hin.
    apply Hrange, Hin.
Qed.

Lemma trace_frame_length (tessellation : Z) (buf : list vec4) :
  length (frame tessellation buf) = length buf.
Proof. unfold trace_frame. apply run_units_length. Qed.

(** X7: what step 1 of a frame leaves in the vertex buffer, for any
    tessellation setting of at least 1: the buffer keeps its length, and
    slot [s] holds the record of ghost [s / 256] for the sample
    [(s mod 16, (s / 16) mod 16)] when that ghost exists and its bounce
    indices are inside the stack, and is left as it was otherwise.  The
    tessellation setting has no part in it: the dispatch covers the
    16 x 16 tile of every ghost and nothing else is written. *)
Theorem trace_frame_slot (tessellation : Z) (buf : list vec4) (s : nat) :
  1 <= tessellation ->
  Z.of_nat (length ghosts) * work_groups tessellation * 16 <= 2 ^ 32 ->
  Z.of_nat (length ghosts) * 256 <= 2 ^ 32 ->
  (s < length buf)%nat ->
  length (frame tessellation buf) = length buf
  /\ frame tessellation buf !! s
     = match record_of (Z.of_nat s) with
       | Some v => Some v
       | None => buf !! s
       end.
Proof.
  intros Htess Hbound Hg Hs.
  split; [apply trace_frame_length|apply trace_frame_lookup; assumption].
Qed.

End Units.

Lemma run_units_order_independent_witness :
  run_units Tracer.pow_ref axial_light hd_backbuffer lens_interfaces ghost_data
    [UVec3 12 8 0; UVec3 44 3 0] (cleared_buffer 1024)
  = run_units Tracer.pow_ref axial_light hd_backbuffer lens_interfaces ghost_data
      [UVec3 44 3 0; UVec3 12 8 0] (cleared_buffer 1024).
Proof.
  apply (run_units_order_independent Tracer.pow_ref axial_light hd_backbuffer
           lens_interfaces ghost_data).
  - apply perm_swap.
  - repeat constructor; cbn; lia.
  - vm_compute. discriminate.
Defined.

Lemma trace_frame_slot_witness :
  length (trace_frame Tracer.pow_ref axial_light hd_backbuffer lens_interfaces
            ghost_data patch_tessellation (cleared_buffer 1024))
  = length (cleared_buffer 1024)
  /\ trace_frame Tracer.pow_ref axial_light hd_backbuffer lens_interfaces ghost_data
       patch_tessellation (cleared_buffer 1024) !! 652%nat
     = match slot_record Tracer.pow_ref axial_light hd_backbuffer lens_interfaces
               ghost_data (Z.of_nat 652) with
       | Some v => Some v
       | None => cleared_buffer 1024 !! 652%nat
       end.
Proof.
  apply (trace_frame_slot Tracer.pow_ref axial_light hd_backbuffer lens_interfaces
           ghost_data patch_tessellation (cleared_buffer 1024) 652).
  - vm_compute. discriminate.
  - vm_compute. discriminate.
  - vm_compute. discriminate.
  - vm_compute. lia.
Defined.

(** ** The geometry mapper *)

(** The cell of vertex [k] of quad [q], for a quad of the draw range. *)
Lemma grid_cell_quad (R q : Z) (k : nat) (ox oy : Z) :
  2 <= R < 2 ^ 31 -> 0 <= q < (R - 1) * (R - 1) -> 6 * q + 5 < 2 ^ 31 ->
  GhostVertex.quad_offsets !! k = Some (ox, oy) ->
  GhostVertex.grid_cell R (6 * q + Z.of_nat k)
  = Some (q mod (R - 1) + ox, q / (R - 1) + oy)
  /\ 0 <= q mod (R - 1) + ox < R /\ 0 <= q / (R - 1) + oy < R.
Proof.
  intros HR Hq Hv Hoff.
  assert (Hk : (k < 6)%nat) by (apply lookup_lt_Some in Hoff; exact Hoff).
  assert (Ho : 0 <= ox <= 1 /\ 0 <= oy <= 1).
  { do 6 (destruct k as [|k]; [injection Hoff as <- <-; lia|]). lia. }
  unfold GhostVertex.grid_cell, GhostVertex.isub, GhostVertex.iadd.
  rewrite (wrap_int_small (R - 1)) by lia.
  rewrite Z.quot_div_nonneg, Z.rem_mod_nonneg by lia.
  assert (Eq : (6 * q + Z.of_nat k) / 6 = q)
    by (Z.to_euclidean_division_equations; lia).
  assert (Ek : (6 * q + Z.of_nat k) mod 6 = Z.of_nat k)
    by (Z.to_euclidean_division_equations; lia).
  rewrite Eq, Ek.
  rewrite Z.quot_div_nonneg, Z.rem_mod_nonneg by lia.
  unfold GhostVertex.read_at.
  destruct (Z.ltb_spec (Z.of_nat k) 0) as [?|_]; [lia|].
  rewrite Nat2Z.id, Hoff.
  pose proof (Z.mod_pos_bound q (R - 1) ltac:(lia)) as Hx.
  assert (Hy : 0 <= q / (R - 1) < R - 1).
  { split; [apply Z.div_pos; lia|apply Z.div_lt_upper_bound; lia]. }
  rewrite (wrap_int_small (q mod (R - 1) + ox)) by lia.
  rewrite (wrap_int_small (q / (R - 1) + oy)) by lia.
  rewrite !Z.min_l by lia.
  split; [reflexivity|lia].
Qed.

(** X8: inside the vertex range of a draw call the grid cell of a vertex
    has a closed form: vertex [k] of quad [q] maps to column
    [q mod (R - 1)] and row [q / (R - 1)], moved by entry [k] of the offset
    pattern.  The cell lies inside the [R x R] grid, so the clamp
    [min(local, R - 1)] changes nothing there. *)
Theorem grid_cell_closed_form (R q : Z) (k : nat) (ox oy : Z) :
  2 <= R < 2 ^ 31 -> 0 <= q < (R - 1) * (R - 1) -> 6 * q + 5 < 2 ^ 31 ->
  GhostVertex.quad_offsets !! k = Some (ox, oy) ->
  0 <= 6 * q + Z.of_nat k < vertices_per_ghost R
  /\ GhostVertex.grid_cell R (6 * q + Z.of_nat k)
     = Some (q mod (R - 1) + ox, q / (R - 1) + oy)
  /\ 0 <= q mod (R - 1) + ox < R /\ 0 <= q / (R - 1) + oy < R.
Proof.
  intros HR Hq Hv Hoff. split.
  - apply lookup_lt_Some in Hoff. cbn [length GhostVertex.quad_offsets] in Hoff.
    unfold vertices_per_ghost. lia.
  - apply grid_cell_quad; assumption.
Qed.

Lemma grid_cell_closed_form_witness :
  0 <= 6 * 40 + Z.of_nat 4 < vertices_per_ghost patch_tessellation
  /\ GhostVertex.grid_cell patch_tessellation (6 * 40 + Z.of_nat 4)
     = Some (40 mod (patch_tessellation - 1) + 1, 40 / (patch_tessellation - 1) + 1)
  /\ 0 <= 40 mod (patch_tessellation - 1) + 1 < patch_tessellation
  /\ 0 <= 40 / (patch_tessellation - 1) + 1 < patch_tessellation.
Proof.
  apply (grid_cell_closed_form patch_tessellation 40 4 1 1).
  - vm_compute. split; [discriminate|reflexivity].
  - vm_compute. split; [discriminate|reflexivity].
  - vm_compute. reflexivity.
  - reflexivity.
Defined.

(** X9: a draw call reaches every cell of the grid: each cell [(x, y)] of
    the [R x R] grid is the grid cell of a vertex id below
    [vertices_per_ghost R]. *)
Theorem grid_cell_covers (R x y : Z) :
  2 <= R -> 6 * ((R - 1) * (R - 1)) < 2 ^ 31 ->
  0 <= x < R -> 0 <= y < R ->
  exists gl_VertexID : Z,
    0 <= gl_VertexID < vertices_per_ghost R
    /\ GhostVertex.grid_cell R gl_VertexID = Some (x, y).
Proof.
  intros HR Hfit Hx Hy.
  assert (HR31 : 2 <= R < 2 ^ 31) by nia.
  set (gx := Z.min x (R - 2)). set (gy := Z.min y (R - 2)).
  set (q := gy * (R - 1) + gx).
  assert (Hgx : 0 <= gx < R - 1) by (unfold gx; lia).
  assert (Hgy : 0 <= gy < R - 1) by (unfold gy; lia).
  assert (Hq : 0 <= q < (R - 1) * (R - 1)) by (unfold q; nia).
  assert (Emod : q mod (R - 1) = gx).
  { unfold q. rewrite Z.add_comm, Z.mod_add by lia. apply Z.mod_small. lia. }
  assert (Ediv : q / (R - 1) = gy).
  { unfold q. rewrite Z.add_comm, Z.div_add by lia.
    rewrite Z.div_small by lia. lia. }
  assert (Hpick : exists k : nat,
             GhostVertex.quad_offsets !! k = Some (x - gx, y - gy)).
  { assert (Hox : x - gx = 0 \/ x - gx = 1) by (unfold gx; lia).
    assert (Hoy : y - gy = 0 \/ y - gy = 1) by (unfold gy; lia).
    destruct Hox as [-> | ->], Hoy as [-> | ->].
    - exists 0%nat. reflexivity.
    - exists 2%nat. reflexivity.
    - exists 1%nat. reflexivity.
    - exists 4%nat. reflexivity. }
  destruct Hpick as (k & Hoff).
  destruct (grid_cell_quad R q k _ _ HR31 Hq ltac:(lia) Hoff) as (Hcell & _).
  exists (6 * q + Z.of_nat k). split.
  - apply lookup_lt_Some in Hoff. cbn [length GhostVertex.quad_offsets] in Hoff.
    unfold vertices_per_ghost. lia.
  - rewrite Hcell, Emod, Ediv. f_equal. f_equal; lia.
Qed.

Lemma grid_cell_covers_witness :
  exists gl_VertexID : Z,
    0 <= gl_VertexID < vertices_per_ghost patch_tessellation
    /\ GhostVertex.grid_cell patch_tessellation gl_VertexID = Some (31, 31).
Proof.
  apply (grid_cell_covers patch_tessellation 31 31).
  - vm_compute. discriminate.
  - vm_compute. reflexivity.
  - vm_compute. split; [discriminate|reflexivity].
  - vm_compute. split; [discriminate|reflexivity].
Defined.

(** The mapper on a cell whose slot holds a record. *)
Lemma mapper_shows_slot (g R : Z) (buf : list vec4) (gl_VertexID x y : Z)
    (v : vec4) :
  0 <= g < 2 ^ 24 -> 0 <= x < R -> 0 <= y < R -> (g + 1) * (R * R) < 2 ^ 31 ->
  GhostVertex.grid_cell R gl_VertexID = Some (x, y) ->
  buf !! Z.to_nat (g * R ^ 2 + y * R + x) = Some v ->
  exists out : VertexOutput,
    GhostVertex.main (F32.of_Z g) R buf gl_VertexID = Some out /\ shown v out.
Proof.
  intros Hg Hx Hy Hfit Hcell Hv.
  assert (Hrt : to_int (F32.of_Z g) = g) by (apply to_int_of_Z; lia).
  unfold GhostVertex.main. rewrite Hcell.
  rewrite mapper_vertex_idx_flat by (rewrite ?Hrt; lia).
  rewrite Hrt.
  pose proof (lookup_lt_Some _ _ _ Hv) as Hlen.
  assert (Hs : 0 <= g * R ^ 2 + y * R + x) by nia.
  destruct (Z.geb_spec (g * R ^ 2 + y * R + x) (Z.of_nat (length buf))) as [?|_];
    [lia|].
  unfold GhostVertex.read_at.
  destruct (Z.ltb_spec (g * R ^ 2 + y * R + x) 0) as [?|_]; [lia|].
  rewrite Hv. eexists. split; [reflexivity|]. split; reflexivity.
Qed.

(** X10: what the mapper emits for a vertex of ghost [g] whose grid cell is
    [(x, y)]: it reads slot [g * R^2 + y * R + x] of the vertex buffer and,
    when the buffer has that slot, passes on the first two components of
    the record as clip position [(x, y, 0, 1)] and the third as intensity;
    when the buffer is too short for the slot it emits the culled vertex. *)
Theorem mapper_reads_cell_slot (g R : Z) (buf : list vec4)
    (gl_VertexID x y : Z) :
  0 <= g < 2 ^ 24 -> 0 <= x < R -> 0 <= y < R -> (g + 1) * (R * R) < 2 ^ 31 ->
  GhostVertex.grid_cell R gl_VertexID = Some (x, y) ->
  match buf !! Z.to_nat (g * R ^ 2 + y * R + x) with
  | Some v =>
      exists out : VertexOutput,
        GhostVertex.main (F32.of_Z g) R buf gl_VertexID = Some out /\ shown v out
  | None =>
      GhostVertex.main (F32.of_Z g) R buf gl_VertexID
      = Some GhostVertex.culled_vertex
  end.
Proof.
  intros Hg Hx Hy Hfit Hcell.
  destruct (buf !! Z.to_nat (g * R ^ 2 + y * R + x)) as [v|] eqn:Hv.
  - apply (mapper_shows_slot g R buf gl_VertexID x y v); assumption.
  - apply (mapper_culls_out_of_range _ _ _ _ x y Hcell).
    assert (Hrt : to_int (F32.of_Z g) = g) by (apply to_int_of_Z; lia).
    rewrite mapper_vertex_idx_flat by (rewrite ?Hrt; lia).
    rewrite Hrt. apply lookup_ge_None in Hv. nia.
Qed.

Lemma mapper_reads_cell_slot_witness :
  match cleared_buffer 2048 !! Z.to_nat (1 * patch_tessellation ^ 2 + 2 * patch_tessellation + 10) with
  | Some v =>
      exists out : VertexOutput,
        GhostVertex.main (F32.of_Z 1) patch_tessellation (cleared_buffer 2048) 244
        = Some out /\ shown v out
  | None =>
      GhostVertex.main (F32.of_Z 1) patch_tessellation (cleared_buffer 2048) 244
      = Some GhostVertex.culled_vertex
  end.
Proof.
  apply (mapper_reads_cell_slot 1 patch_tessellation (cleared_buffer 2048) 244 10 2).
  - lia.
  - vm_compute. split; [discriminate|reflexivity].
  - vm_compute. split; [discriminate|reflexivity].
  - vm_compute. reflexivity.
  - vm_compute. reflexivity.
Defined.

(** ** Tracer and mapper together *)

Section FrameAndMap.

Variable pow : float -> float -> float.
Variable light_dir : vec3.
Variable backbuffer_size : vec2.
Variable ifaces : list LensInterface.
Variable ghosts : list GhostData.

Local Abbreviation record_of := (slot_record pow light_dir backbuffer_size ifaces ghosts).
Local Abbreviation record_for := (unit_record pow light_dir backbuffer_size ifaces).
Local Abbreviation frame := (trace_frame pow light_dir backbuffer_size ifaces ghosts).

(** The mapper on the buffer a frame leaves behind. *)
Lemma map_after_frame (R g : Z) (buf : list vec4) (gl_VertexID x y : Z) :
  2 <= R ->
  Z.of_nat (length ghosts) * work_groups R * 16 <= 2 ^ 32 ->
  Z.of_nat (length ghosts) * 256 <= 2 ^ 32 ->
  0 <= g < 2 ^ 24 -> 0 <= x < R -> 0 <= y < R -> (g + 1) * (R * R) < 2 ^ 31 ->
  GhostVertex.grid_cell R gl_VertexID = Some (x, y) ->
  g * R ^ 2 + y * R + x < Z.of_nat (length buf) ->
  exists (out : VertexOutput) (v : vec4),
    GhostVertex.main (F32.of_Z g) R (frame R buf) gl_VertexID = Some out
    /\ shown v out
    /\ Some v = match record_of (g * R ^ 2 + y * R + x) with
                | Some r => Some r
                | None => buf !! Z.to_nat (g * R ^ 2 + y * R + x)
                end.
Proof.
  intros HR Hd Hg256 Hg Hx Hy Hfit Hcell Hlen.
  set (s := g * R ^ 2 + y * R + x) in *.
  assert (Hs : 0 <= s) by (unfold s; nia).
  assert (Hlook : frame R buf !! Z.to_nat s
                  = match record_of s with
                    | Some r => Some r
                    | None => buf !! Z.to_nat s
                    end).
  { rewrite trace_frame_lookup by lia. rewrite Z2Nat.id by exact Hs. reflexivity. }
  destruct (lookup_lt_is_Some_2 (frame R buf) (Z.to_nat s)) as [v Hv].
  { rewrite trace_frame_length. lia. }
  destruct (mapper_shows_slot g R (frame R buf) gl_VertexID x y v)
    as (out & Hout & Hshown); try assumption.
  exists out, v. split; [exact Hout|]. split; [exact Hshown|].
  rewrite <- Hlook, Hv. reflexivity.
Qed.

(** X11: tracer and mapper composed as [renderLensFlare] composes them,
    with one tessellation setting [R] for the dispatch and the draw: the
    vertex the mapper emits for cell [(x, y)] of ghost [g] shows the record
    of slot [s = g * R^2 + y * R + x], which after the dispatch is the
    tracer's record of ghost [s / 256] for the sample
    [(s mod 16, (s / 16) mod 16)], or what the buffer held before when that
    ghost does not exist. *)
Theorem frame_then_map (R g : Z) (buf : list vec4) (gl_VertexID x y : Z) :
  2 <= R ->
  Z.of_nat (length ghosts) * work_groups R * 16 <= 2 ^ 32 ->
  Z.of_nat (length ghosts) * 256 <= 2 ^ 32 ->
  0 <= g < 2 ^ 24 -> 0 <= x < R -> 0 <= y < R -> (g + 1) * (R * R) < 2 ^ 31 ->
  GhostVertex.grid_cell R gl_VertexID = Some (x, y) ->
  g * R ^ 2 + y * R + x < Z.of_nat (length buf) ->
  exists (out : VertexOutput) (v : vec4),
    GhostVertex.main (F32.of_Z g) R (frame R buf) gl_VertexID = Some out
    /\ shown v out
    /\ Some v = match record_of (g * R ^ 2 + y * R + x) with
                | Some r => Some r
                | None => buf !! Z.to_nat (g * R ^ 2 + y * R + x)
                end.
Proof. apply map_after_frame. Qed.

(** X12: with a tessellation of 16, the size of the tracer's tile, the two
    stages agree: the vertex the mapper emits for cell [(x, y)] of ghost
    [g] shows the record the tracer computed for ghost [g] and the sample
    [(x, y)]. *)
Theorem frame_then_map_tile (g : Z) (ghost : GhostData) (buf : list vec4)
    (gl_VertexID x y : Z) :
  Z.of_nat (length ghosts) * 256 <= 2 ^ 32 ->
  0 <= g -> (g + 1) * 256 < 2 ^ 31 -> ghosts !! Z.to_nat g = Some ghost ->
  to_uint (bounce1 ghost) < Tracer.interface_count ifaces ->
  to_uint (bounce2 ghost) < Tracer.interface_count ifaces ->
  GhostVertex.grid_cell 16 gl_VertexID = Some (x, y) ->
  0 <= x < 16 -> 0 <= y < 16 ->
  g * 256 + y * 16 + x < Z.of_nat (length buf) ->
  exists out : VertexOutput,
    GhostVertex.main (F32.of_Z g) 16 (frame 16 buf) gl_VertexID = Some out
    /\ shown (record_for ghost x y) out.
Proof.
  intros Hg256 Hg Hint Hghost Hb1 Hb2 Hcell Hx Hy Hlen.
  pose proof (lookup_lt_Some _ _ _ Hghost) as Hgl.
  destruct (map_after_frame 16 g buf gl_VertexID x y)
    as (out & v & Hout & Hshown & Hv);
    [lia | change (work_groups 16) with 1; lia | lia | lia | lia | lia | lia
    | exact Hcell | change (16 ^ 2) with 256; lia |].
  exists out. split; [exact Hout|].
  change (16 ^ 2) with 256 in Hv. unfold slot_record in Hv.
  destruct (slot_decompose g x y) as (E1 & E2 & E3); [lia..|].
  rewrite E1, E2, E3, Hghost in Hv.
  destruct (Z.geb_spec (to_uint (bounce1 ghost)) (Tracer.interface_count ifaces))
    as [?|_]; [lia|].
  destruct (Z.geb_spec (to_uint (bounce2 ghost)) (Tracer.interface_count ifaces))
    as [?|_]; [lia|].
  cbn [orb] in Hv. injection Hv as ->. exact Hshown.
Qed.

(** X26: what the renderer shows with its own setting
    [patch_tessellation = 32]: the vertex the mapper emits for cell
    [(x, y)] of the drawn ghost [g] carries the record the tracer computed
    for ghost [4 * g + y / 8] and the sample
    [(x mod 16, (2 * y + x / 16) mod 16)].  Each draw call thus shows
    four ghosts of the list, eight grid rows each. *)
Theorem configured_frame_shows (g : Z) (ghost : GhostData) (buf : list vec4)
    (gl_VertexID x y : Z) :
  Z.of_nat (length ghosts) * 256 <= 2 ^ 28 ->
  0 <= g -> (g + 1) * 1024 < 2 ^ 31 ->
  0 <= x < 32 -> 0 <= y < 32 ->
  ghosts !! Z.to_nat (4 * g + y / 8) = Some ghost ->
  to_uint (bounce1 ghost) < Tracer.interface_count ifaces ->
  to_uint (bounce2 ghost) < Tracer.interface_count ifaces ->
  GhostVertex.grid_cell patch_tessellation gl_VertexID = Some (x, y) ->
  g * 1024 + y * 32 + x < Z.of_nat (length buf) ->
  exists out : VertexOutput,
    GhostVertex.main (F32.of_Z g) patch_tessellation
      (frame patch_tessellation buf) gl_VertexID = Some out
    /\ shown (record_for ghost (x mod 16) ((2 * y + x / 16) mod 16)) out.
Proof.
  intros Hg256 Hg Hint Hx Hy Hghost Hb1 Hb2 Hcell Hlen.
  unfold patch_tessellation in *.
  destruct (map_after_frame 32 g buf gl_VertexID x y)
    as (out & v & Hout & Hshown & Hv);
    [lia | change (work_groups 32) with 2; lia | lia | lia | lia | lia | lia
    | exact Hcell | change (32 ^ 2) with 1024; lia |].
  exists out. split; [exact Hout|].
  change (32 ^ 2) with 1024 in Hv. unfold slot_record in Hv.
  assert (E1 : (g * 1024 + y * 32 + x) / 256 = 4 * g + y / 8)
    by (Z.to_euclidean_division_equations; lia).
  assert (E2 : (g * 1024 + y * 32 + x) mod 16 = x mod 16)
    by (Z.to_euclidean_division_equations; lia).
  assert (E3 : ((g * 1024 + y * 32 + x) / 16) mod 16 = (2 * y + x / 16) mod 16)
    by (Z.to_euclidean_division_equations; lia).
  rewrite E1, E2, E3, Hghost in Hv.
  destruct (Z.geb_spec (to_uint (bounce1 ghost)) (Tracer.interface_count ifaces))
    as [?|_]; [lia|].
  destruct (Z.geb_spec (to_uint (bounce2 ghost)) (Tracer.interface_count ifaces))
    as [?|_]; [lia|].
  cbn [orb] in Hv. injection Hv as ->. exact Hshown.
Qed.

End FrameAndMap.

Lemma frame_then_map_witness :
  exists (out : VertexOutput) (v : vec4),
    GhostVertex.main (F32.of_Z 1) patch_tessellation
      (trace_frame Tracer.pow_ref axial_light hd_backbuffer lens_interfaces ghost_data
         patch_tessellation (cleared_buffer 2048)) 244 = Some out
    /\ shown v out
    /\ Some v
       = match slot_record Tracer.pow_ref axial_light hd_backbuffer lens_interfaces
                 ghost_data (1 * patch_tessellation ^ 2 + 2 * patch_tessellation + 10) with
         | Some r => Some r
         | None =>
             cleared_buffer 2048
               !! Z.to_nat (1 * patch_tessellation ^ 2 + 2 * patch_tessellation + 10)
         end.
Proof.
  apply (frame_then_map Tracer.pow_ref axial_light hd_backbuffer lens_interfaces
           ghost_data patch_tessellation 1 (cleared_buffer 2048) 244 10 2).
  - vm_compute. discriminate.
  - vm_compute. discriminate.
  - vm_compute. discriminate.
  - lia.
  - vm_compute. split; [discriminate|reflexivity].
  - vm_compute. split; [discriminate|reflexivity].
  - vm_compute. reflexivity.
  - vm_compute. reflexivity.
  - vm_compute. reflexivity.
Defined.

Lemma frame_then_map_tile_witness :
  exists (ghost : GhostData) (out : VertexOutput),
    ghost_data !! Z.to_nat 1 = Some ghost
    /\ GhostVertex.main (F32.of_Z 1) 16
         (trace_frame Tracer.pow_ref axial_light hd_backbuffer lens_interfaces
            ghost_data 16 (cleared_buffer 512)) 7 = Some out
    /\ shown (unit_record Tracer.pow_ref axial_light hd_backbuffer lens_interfaces
                ghost 2 0) out.
Proof.
  assert (H : ghost_data !! Z.to_nat 1 = Some (ghost_record 4 1))
    by (vm_compute; reflexivity).
  destruct (frame_then_map_tile Tracer.pow_ref axial_light hd_backbuffer
              lens_interfaces ghost_data 1 (ghost_record 4 1) (cleared_buffer 512)
              7 2 0) as (out & Hout & Hshown).
  - vm_compute. discriminate.
  - lia.
  - lia.
  - exact H.
  - vm_compute. reflexivity.
  - vm_compute. reflexivity.
  - vm_compute. reflexivity.
  - lia.
  - lia.
  - vm_compute. reflexivity.
  - exists (ghost_record 4 1), out.
    split; [exact H|]. split; [exact Hout|exact Hshown].
Defined.

Lemma configured_frame_shows_witness :
  exists (ghost : GhostData) (out : VertexOutput),
    ghost_data !! Z.to_nat (4 * 1 + 2 / 8) = Some ghost
    /\ GhostVertex.main (F32.of_Z 1) patch_tessellation
         (trace_frame Tracer.pow_ref axial_light hd_backbuffer lens_interfaces
            ghost_data patch_tessellation (cleared_buffer 2048)) 244 = Some out
    /\ shown (unit_record Tracer.pow_ref axial_light hd_backbuffer lens_interfaces
                ghost (10 mod 16) ((2 * 2 + 10 / 16) mod 16)) out.
Proof.
  assert (H : ghost_data !! Z.to_nat (4 * 1 + 2 / 8) = Some (ghost_record 7 1))
    by (vm_compute; reflexivity).
  destruct (configured_frame_shows Tracer.pow_ref axial_light hd_backbuffer
              lens_interfaces ghost_data 1 (ghost_record 7 1) (cleared_buffer 2048)
              244 10 2) as (out & Hout & Hshown).
  - vm_compute. discriminate.
  - lia.
  - lia.
  - lia.
  - lia.
  - exact H.
  - vm_compute. reflexivity.
  - vm_compute. reflexivity.
  - vm_compute. reflexivity.
  - vm_compute. reflexivity.
  - exists (ghost_record 7 1), out.
    split; [exact H|]. split; [exact Hout|exact Hshown].
Defined.

(** ** The buffer allocation and the draw calls *)

Lemma draw_loop_seqZ (fuel : nat) (ghost_id num_ghosts : Z) (drawn : list Z) :
  0 <= ghost_id -> Z.min num_ghosts 10 - ghost_id <= Z.of_nat fuel ->
  draw_loop fuel ghost_id num_ghosts drawn
  = drawn ++ seqZ ghost_id (Z.min num_ghosts 10 - ghost_id).
Proof.
  revert ghost_id drawn. induction fuel as [|fuel IH]; intros ghost_id drawn Hg Hf.
  - cbn [draw_loop]. rewrite seqZ_nil by lia. rewrite app_nil_r. reflexivity.
  - cbn [draw_loop].
    destruct (Z.ltb_spec ghost_id num_ghosts) as [H1|H1];
      destruct (Z.ltb_spec ghost_id 10) as [H2|H2]; cbn [andb].
    + rewrite IH by lia. rewrite <- app_assoc. f_equal.
      rewrite (seqZ_cons ghost_id) by lia. cbn [app]. f_equal. f_equal; lia.
    + rewrite seqZ_nil by lia. rewrite app_nil_r. reflexivity.
    + rewrite seqZ_nil by lia. rewrite app_nil_r. reflexivity.
    + rewrite seqZ_nil by lia. rewrite app_nil_r. reflexivity.
Qed.

Lemma drawn_ghosts_seqZ (num_ghosts : Z) :
  drawn_ghosts num_ghosts = seqZ 0 (Z.min num_ghosts 10).
Proof.
  unfold drawn_ghosts. rewrite draw_loop_seqZ by lia.
  cbn [app]. f_equal. lia.
Qed.

(** X13: step 2 of a frame on a buffer of the allocated size
    ([num_ghosts * R * R * 4] records, a number that fits [int]): the loop
    issues a draw call for the
    ghosts [0 .. min(num_ghosts, 10) - 1] and no other, each call runs the
    mapper on [(R - 1)^2 * 6] vertices, and no vertex of any of them is
    culled or read from outside the buffer: each shows a record of the
    buffer. *)
Theorem render_ghosts_never_culls (num_ghosts R : Z) (buf : list vec4) :
  0 <= num_ghosts -> 2 <= R -> allocated_records num_ghosts R < 2 ^ 31 ->
  6 * ((R - 1) * (R - 1)) < 2 ^ 31 ->
  Z.of_nat (length buf) = allocated_records num_ghosts R ->
  drawn_ghosts num_ghosts = seqZ 0 (Z.min num_ghosts 10)
  /\ Z.of_nat (length (render_ghosts num_ghosts R buf)) = Z.min num_ghosts 10
  /\ Forall (fun call =>
               Z.of_nat (length call) = vertices_per_ghost R
               /\ Forall (fun o => exists (out : VertexOutput) (v : vec4),
                                     o = Some out /\ v ∈ buf /\ shown v out) call)
       (render_ghosts num_ghosts R buf).
Proof.
  intros HG HR Halloc Hv Hlen.
  assert (Hfit : num_ghosts * (R * R) < 2 ^ 31)
    by (unfold allocated_records in Halloc; nia).
  split; [apply drawn_ghosts_seqZ|].
  unfold render_ghosts. rewrite drawn_ghosts_seqZ. split.
  - rewrite length_fmap, length_seqZ. lia.
  - apply Forall_fmap, Forall_forall. intros g Hgin. apply elem_of_seqZ in Hgin.
    unfold compose, draw_call. split.
    + rewrite length_fmap, length_seqZ. unfold vertices_per_ghost. nia.
    + apply Forall_fmap, Forall_forall. intros vid Hvid. apply elem_of_seqZ in Hvid.
      unfold compose. unfold vertices_per_ghost in Hvid.
      destruct (grid_cell_range R vid) as (x & y & Hcell & Hx & Hy); [nia|lia|].
      assert (Hs : 0 <= g * R ^ 2 + y * R + x < num_ghosts * (R * R)) by nia.
      destruct (lookup_lt_is_Some_2 buf (Z.to_nat (g * R ^ 2 + y * R + x)))
        as [v Hlook].
      { unfold allocated_records in Hlen. nia. }
      destruct (mapper_shows_slot g R buf vid x y v) as (out & Hout & Hshown);
        try assumption; try nia.
      exists out, v. split; [exact Hout|]. split; [|exact Hshown].
      apply list_elem_of_lookup. eexists. exact Hlook.
Qed.

Lemma render_ghosts_never_culls_witness :
  drawn_ghosts 2 = seqZ 0 (Z.min 2 10)
  /\ Z.of_nat (length (render_ghosts 2 3 (cleared_buffer 72))) = Z.min 2 10
  /\ Forall (fun call =>
               Z.of_nat (length call) = vertices_per_ghost 3
               /\ Forall (fun o => exists (out : VertexOutput) (v : vec4),
                                     o = Some out /\ v ∈ cleared_buffer 72
                                     /\ shown v out) call)
       (render_ghosts 2 3 (cleared_buffer 72)).
Proof.
  apply (render_ghosts_never_culls 2 3 (cleared_buffer 72)).
  - lia.
  - lia.
  - vm_compute. reflexivity.
  - vm_compute. reflexivity.
  - vm_compute. reflexivity.
Defined.

(** X14: the allocation holds every slot the tracer writes exactly when the
    tessellation setting is at least 8: for a non-empty ghost list and
    [R >= 0], the flat index of every unit that passes the guards is below
    [allocated_records num_ghosts R] if and only if [8 <= R] (for an
    allocation that fits [int]). *)
Theorem allocation_holds_tracer_writes (num_ghosts R : Z) :
  1 <= num_ghosts -> num_ghosts * 256 <= 2 ^ 32 -> 0 <= R ->
  allocated_records num_ghosts R < 2 ^ 31 ->
  (forall g x y : Z,
      0 <= g < num_ghosts -> 0 <= x < 16 -> 0 <= y < 16 ->
      Tracer.vertex_idx g x y < allocated_records num_ghosts R)
  <-> 8 <= R.
Proof.
  intros HG Hfit HR _. unfold allocated_records. split.
  - intros H. specialize (H (num_ghosts - 1) 15 15 ltac:(lia) ltac:(lia) ltac:(lia)).
    rewrite tracer_vertex_idx_flat in H by lia. change (16 ^ 2) with 256 in H.
    destruct (Z.le_gt_cases 8 R) as [?|Hlt]; [assumption|].
    exfalso. assert (R * R <= 49) by nia. nia.
  - intros H8 g x y Hg Hx Hy.
    rewrite tracer_vertex_idx_flat by lia. change (16 ^ 2) with 256.
    assert (64 <= R * R) by nia. nia.
Qed.

Lemma allocation_holds_tracer_writes_witness :
  (forall g x y : Z,
      0 <= g < num_ghosts -> 0 <= x < 16 -> 0 <= y < 16 ->
      Tracer.vertex_idx g x y < allocated_records num_ghosts patch_tessellation)
  <-> 8 <= patch_tessellation.
Proof.
  apply (allocation_holds_tracer_writes num_ghosts patch_tessellation).
  - vm_compute. discriminate.
  - vm_compute. discriminate.
  - vm_compute. discriminate.
  - vm_compute. reflexivity.
Defined.

(** ** What the traced path depends on *)

Section Geometry.

Variables pow pow' : float -> float -> float.
Variables ifaces ifaces' : list LensInterface.
Hypothesis Hsame : Forall2 same_surface ifaces ifaces'.

Lemma intersect_same_surface (a b : LensInterface) (st st' : Ray) :
  same_surface a b -> same_path st st' ->
  Tracer.intersect a st = Tracer.intersect b st'.
Proof.
  intros (Hc & Hr & Hf) (Hp & Hd). unfold Tracer.intersect.
  rewrite Hc, Hr, Hf, Hp, Hd. reflexivity.
Qed.

Lemma reflect_at_same_path (a b : LensInterface) (st st' : Ray) :
  same_surface a b -> same_path st st' ->
  same_path (Tracer.reflect_at pow a st) (Tracer.reflect_at pow' b st').
Proof.
  intros (Hc & _ & _) (Hp & Hd). unfold Tracer.reflect_at, same_path.
  cbn [current_pos current_dir]. rewrite Hc, Hp, Hd. split; reflexivity.
Qed.

Lemma trace_loop_same_path (fuel : nat) :
  forall (i bounce_idx : Z) (st st' : Ray),
    same_path st st' ->
    same_path (Tracer.trace_loop pow ifaces fuel i bounce_idx st)
      (Tracer.trace_loop pow' ifaces' fuel i bounce_idx st').
Proof.
  induction fuel as [|fuel IH]; intros i bounce_idx st st' Hst; [exact Hst|].
  cbn [Tracer.trace_loop]. unfold Tracer.interface_count.
  rewrite <- (Forall2_length _ _ _ Hsame).
  destruct ((i <? bounce_idx) && (i <? Z.of_nat (length ifaces))); [|exact Hst].
  destruct (ifaces !! Z.to_nat i) as [a|] eqn:Ha.
  - destruct (Forall2_lookup_l _ _ _ _ _ Hsame Ha) as (b & Hb & Hab).
    rewrite Hb. rewrite (intersect_same_surface a b st st' Hab Hst).
    destruct Hst as [Hp Hd].
    destruct (Tracer.intersect b st') as [[|] [t|]];
      try (split; cbn [current_pos current_dir]; assumption).
    apply IH. destruct (i =? wrap_uint (bounce_idx - 1)).
    + apply reflect_at_same_path; [exact Hab|].
      split; cbn [current_pos current_dir]; rewrite ?Hp, ?Hd; reflexivity.
    + split; cbn [current_pos current_dir]; rewrite ?Hp, ?Hd; reflexivity.
  - assert (Hb : ifaces' !! Z.to_nat i = None).
    { apply lookup_ge_None. apply lookup_ge_None in Ha.
      rewrite <- (Forall2_length _ _ _ Hsame). exact Ha. }
    rewrite Hb. exact Hst.
Qed.

(** X15: the tracer does not refract: the path of a ray through the stack
    depends on the surfaces (centre, radius and flatness flag) only.  Two
    stacks with the same surfaces give every ghost vertex the same screen
    position, whatever their refractive indices, coatings, aperture
    heights and widths and whatever [pow] computes; these enter the
    intensity alone. *)
Theorem ghost_position_ignores_indices (light_dir : vec3)
    (backbuffer_size : vec2) (ghost : GhostData) (local_x local_y : Z) :
  v4_x (unit_record pow light_dir backbuffer_size ifaces ghost local_x local_y)
  = v4_x (unit_record pow' light_dir backbuffer_size ifaces' ghost local_x local_y)
  /\ v4_y (unit_record pow light_dir backbuffer_size ifaces ghost local_x local_y)
     = v4_y (unit_record pow' light_dir backbuffer_size ifaces' ghost local_x local_y).
Proof.
  unfold unit_record, Tracer.phase1, Tracer.phase2.
  set (st := Tracer.initial_ray light_dir local_x local_y).
  assert (H1 : same_path
                 (Tracer.trace_loop pow ifaces (Z.to_nat (to_uint (bounce1 ghost))) 0
                    (to_uint (bounce1 ghost)) st)
                 (Tracer.trace_loop pow' ifaces' (Z.to_nat (to_uint (bounce1 ghost))) 0
                    (to_uint (bounce1 ghost)) st)).
  { apply trace_loop_same_path. split; reflexivity. }
  pose proof (trace_loop_same_path
                (Z.to_nat (to_uint (bounce2 ghost) - to_uint (bounce1 ghost)))
                (to_uint (bounce1 ghost)) (to_uint (bounce2 ghost)) _ _ H1) as [Hp _].
  unfold Tracer.vertex_record, Tracer.screen_pos. cbn [v4_x v4_y v2_x v2_y].
  rewrite Hp. split; reflexivity.
Qed.

End Geometry.

Lemma ghost_position_ignores_indices_witness :
  v4_x (unit_record Tracer.pow_ref axial_light hd_backbuffer lens_interfaces
          (ghost_record 3 1) 12 8)
  = v4_x (unit_record (fun _ _ => F32.zero) axial_light hd_backbuffer
            (bare_surface <$> lens_interfaces) (ghost_record 3 1) 12 8)
  /\ v4_y (unit_record Tracer.pow_ref axial_light hd_backbuffer lens_interfaces
             (ghost_record 3 1) 12 8)
     = v4_y (unit_record (fun _ _ => F32.zero) axial_light hd_backbuffer
               (bare_surface <$> lens_interfaces) (ghost_record 3 1) 12 8).
Proof.
  apply (ghost_position_ignores_indices Tracer.pow_ref (fun _ _ => F32.zero)
           lens_interfaces (bare_surface <$> lens_interfaces)).
  vm_compute. repeat constructor.
Defined.

(** ** The record of an enumerated ghost *)

(** X16: the record the kernel computes for a ghost of the enumerator (a
    stack of at most 2^24 interfaces, the ghost list built for its size)
    is the projection of the state phase 1 leaves and nothing more: when
    the ray misses one of the interfaces [0 .. bounce1 - 1] the record
    holds the projection of the last position reached with intensity
    exactly 0; when it hits them all the record holds the projection of the
    hit point on interface [bounce1 - 1] with the intensity
    [1.0 * (fresnel(...) * 0.1)] of the single reflection there. *)
Theorem enumerated_ghost_record (pow : float -> float -> float)
    (light_dir : vec3) (backbuffer_size : vec2) (ifaces : list LensInterface)
    (l : list GhostData) (ghost : GhostData) (local_x local_y : Z) :
  Z.of_nat (length ifaces) <= 2 ^ 24 ->
  generate_ghosts (length ifaces) = Some l -> ghost ∈ l ->
  let b1 := to_uint (bounce1 ghost) in
  let record := unit_record pow light_dir backbuffer_size ifaces ghost local_x local_y in
  exists (iface : LensInterface) (st' : Ray) (ok : bool),
    ifaces !! Z.to_nat (b1 - 1) = Some iface
    /\ Tracer.walk (take (Z.to_nat b1) ifaces)
         (Tracer.initial_ray light_dir local_x local_y) = (st', ok)
    /\ record
       = Tracer.vertex_record backbuffer_size
           (if ok then Tracer.reflect_at pow iface st' else Tracer.dead st')
    /\ v4_x record = v2_x (Tracer.screen_pos backbuffer_size st')
    /\ v4_y record = v2_y (Tracer.screen_pos backbuffer_size st')
    /\ (ok = false -> v4_z record = F32.zero).
Proof.
  intros Hsize Hgen Hin b1 record.
  pose proof (generated_bounces_ordered _ _ Hsize Hgen) as Hall.
  rewrite Forall_forall in Hall. destruct (Hall ghost Hin) as (Hsep & Hb2 & Hb1).
  fold b1 in Hsep, Hb1.
  destruct (lookup_lt_is_Some_2 ifaces (Z.to_nat (b1 - 1))) as [iface Hl]; [lia|].
  destruct (Tracer.walk (take (Z.to_nat b1) ifaces)
              (Tracer.initial_ray light_dir local_x local_y)) as [st' ok] eqn:Hw.
  exists iface, st', ok. split; [exact Hl|]. split; [reflexivity|].
  assert (Hrec : record
                 = Tracer.vertex_record backbuffer_size
                     (if ok then Tracer.reflect_at pow iface st' else Tracer.dead st')).
  { unfold record, unit_record. fold b1.
    rewrite phase2_no_pass by lia.
    rewrite phase1_walk by lia. rewrite Hw, Hl. destruct ok; reflexivity. }
  split; [exact Hrec|]. rewrite Hrec.
  destruct ok; cbn; repeat split; congruence.
Qed.

Lemma enumerated_ghost_record_witness :
  let b1 := to_uint (bounce1 (ghost_record 3 1)) in
  let record := unit_record Tracer.pow_ref transverse_light hd_backbuffer
                  lens_interfaces (ghost_record 3 1) 12 8 in
  exists (iface : LensInterface) (st' : Ray) (ok : bool),
    lens_interfaces !! Z.to_nat (b1 - 1) = Some iface
    /\ Tracer.walk (take (Z.to_nat b1) lens_interfaces)
         (Tracer.initial_ray transverse_light 12 8) = (st', ok)
    /\ record
       = Tracer.vertex_record hd_backbuffer
           (if ok then Tracer.reflect_at Tracer.pow_ref iface st' else Tracer.dead st')
    /\ v4_x record = v2_x (Tracer.screen_pos hd_backbuffer st')
    /\ v4_y record = v2_y (Tracer.screen_pos hd_backbuffer st')
    /\ (ok = false -> v4_z record = F32.zero).
Proof.
  apply (enumerated_ghost_record Tracer.pow_ref transverse_light hd_backbuffer
           lens_interfaces ghost_data (ghost_record 3 1) 12 8).
  - vm_compute. discriminate.
  - vm_compute. reflexivity.
  - apply list_elem_of_lookup. exists 0%nat. vm_compute. reflexivity.
Defined.

(** ** The sample grid of the tracer *)

(** The sixteen values of a tile coordinate. *)
Lemma tile_coordinate_cases (c : Z) :
  0 <= c < 16 ->
  c = 0 \/ c = 1 \/ c = 2 \/ c = 3 \/ c = 4 \/ c = 5 \/ c = 6 \/ c = 7
  \/ c = 8 \/ c = 9 \/ c = 10 \/ c = 11 \/ c = 12 \/ c = 13 \/ c = 14 \/ c = 15.
Proof. lia. Qed.

Ltac tile_cases c H :=
  pose proof (tile_coordinate_cases c H) as Hcases;
  repeat (destruct Hcases as [Hcases|Hcases]); subst c.

Lemma aperture_sample_exact (c : Z) :
  0 <= c < 16 ->
  F32.mul (F32.mul (F32.sub (F32.div (F32.of_Z c) (F32.of_Z 16)) (F32.dec 5 1)) GLSL.two)
    (F32.of_Z 10)
  = F32.div (F32.of_Z (5 * (c - 8))) (F32.of_Z 4).
Proof.
  intros Hc. tile_cases c Hc; vm_compute; reflexivity.
Qed.

Lemma aperture_sample_range (c : Z) :
  0 <= c < 16 ->
  F32.leb (F32.neg (F32.of_Z 10)) (F32.div (F32.of_Z (5 * (c - 8))) (F32.of_Z 4)) = true
  /\ F32.leb (F32.div (F32.of_Z (5 * (c - 8))) (F32.of_Z 4)) (F32.dec 875 2) = true.
Proof.
  intros Hc. tile_cases c Hc; vm_compute; split; reflexivity.
Qed.

(** X17: the rays of a ghost start on an exact grid: for the sample
    [(local_x, local_y)] of the 16 x 16 tile the origin is
    [(1.25 * (local_x - 8), 1.25 * (local_y - 8), -100)] with no rounding
    error, so the grid runs from -10 to 8.75 in both directions and never
    reaches +10; every ray starts with intensity 1.0 and the normalized
    light direction. *)
Theorem initial_ray_grid (light_dir : vec3) (local_x local_y : Z) :
  0 <= local_x < 16 -> 0 <= local_y < 16 ->
  let st := Tracer.initial_ray light_dir local_x local_y in
  current_pos st
  = Vec3 (F32.div (F32.of_Z (5 * (local_x - 8))) (F32.of_Z 4))
         (F32.div (F32.of_Z (5 * (local_y - 8))) (F32.of_Z 4))
         (F32.neg (F32.of_Z 100))
  /\ F32.leb (F32.neg (F32.of_Z 10)) (v3_x (current_pos st)) = true
  /\ F32.leb (v3_x (current_pos st)) (F32.dec 875 2) = true
  /\ F32.leb (F32.neg (F32.of_Z 10)) (v3_y (current_pos st)) = true
  /\ F32.leb (v3_y (current_pos st)) (F32.dec 875 2) = true
  /\ current_dir st = GLSL.normalize light_dir
  /\ intensity st = F32.one.
Proof.
  intros Hx Hy st. unfold st, Tracer.initial_ray.
  cbn [current_pos current_dir intensity v3_x v3_y].
  rewrite !aperture_sample_exact by assumption.
  destruct (aperture_sample_range local_x Hx) as [Hx1 Hx2].
  destruct (aperture_sample_range local_y Hy) as [Hy1 Hy2].
  repeat split; assumption.
Qed.

Lemma initial_ray_grid_witness :
  let st := Tracer.initial_ray axial_light 12 8 in
  current_pos st
  = Vec3 (F32.div (F32.of_Z (5 * (12 - 8))) (F32.of_Z 4))
         (F32.div (F32.of_Z (5 * (8 - 8))) (F32.of_Z 4))
         (F32.neg (F32.of_Z 100))
  /\ F32.leb (F32.neg (F32.of_Z 10)) (v3_x (current_pos st)) = true
  /\ F32.leb (v3_x (current_pos st)) (F32.dec 875 2) = true
  /\ F32.leb (F32.neg (F32.of_Z 10)) (v3_y (current_pos st)) = true
  /\ F32.leb (v3_y (current_pos st)) (F32.dec 875 2) = true
  /\ current_dir st = GLSL.normalize axial_light
  /\ intensity st = F32.one.
Proof.
  apply (initial_ray_grid axial_light 12 8); lia.
Defined.

(** ** More binary32 facts *)

Section FloatSymmetry.
Import F32.

Lemma add_comm (x y : float) : add x y = add y x.
Proof.
  destruct x as [sx|sx| |sx mx ex], y as [sy|sy| |sy my ey];
    try reflexivity; try (destruct sx, sy; reflexivity).
  unfold add, SFadd. cbv zeta. rewrite (Z.min_comm ey ex), Z.add_comm. reflexivity.
Qed.

Lemma mul_comm (x y : float) : mul x y = mul y x.
Proof.
  destruct x as [sx|sx| |sx mx ex], y as [sy|sy| |sy my ey];
    try reflexivity; try (destruct sx, sy; reflexivity).
  unfold mul, SFmul.
  rewrite (Pos.mul_comm my mx), (Z.add_comm ey ex), (xorb_comm sy sx). reflexivity.
Qed.

Lemma binary_round_aux_neg (s : bool) (m e : Z) (l : location) :
  binary_round_aux prec emax (negb s) m e l
  = neg (binary_round_aux prec emax s m e l).
Proof.
  unfold binary_round_aux.
  destruct (shr_fexp prec emax m e l) as [mrs' e'].
  destruct (shr_fexp prec emax _ e' loc_Exact) as [mrs'' e''].
  destruct (shr_m mrs'') as [|p|p]; [reflexivity| |reflexivity].
  destruct (e'' <=? emax - prec); reflexivity.
Qed.

Lemma binary_normalize_opp (m e : Z) :
  m <> 0 ->
  binary_normalize prec emax (- m) e false
  = neg (binary_normalize prec emax m e false).
Proof.
  intros Hm. destruct m as [|p|p]; [congruence| |].
  - change (- Z.pos p) with (Z.neg p). unfold binary_normalize, binary_round.
    destruct (shl_align _ _ _) as [mz ez].
    apply (binary_round_aux_neg false).
  - change (- Z.neg p) with (Z.pos p). unfold binary_normalize, binary_round.
    destruct (shl_align _ _ _) as [mz ez].
    apply (binary_round_aux_neg true).
Qed.

(** Swapping the operands of a subtraction negates the difference; when
    the difference is [+0] it stays [+0]. *)
Lemma sub_swap (x y : float) :
  sub y x = neg (sub x y) \/ (sub y x = zero /\ sub x y = zero).
Proof.
  destruct x as [sx|sx| |sx mx ex], y as [sy|sy| |sy my ey];
    try (left; reflexivity);
    try (destruct sx, sy; (left; reflexivity) || (right; split; reflexivity)).
  unfold sub, SFsub. cbv zeta. rewrite (Z.min_comm ey ex).
  set (ez := Z.min ex ey).
  set (a := cond_Zopp sx (Z.pos (shl_align mx ex ez).1)).
  set (b := cond_Zopp sy (Z.pos (shl_align my ey ez).1)).
  destruct (Z.eq_dec (a - b) 0) as [H0|Hne].
  - right. replace (b - a) with 0 by lia. rewrite H0. split; reflexivity.
  - left. replace (b - a) with (- (a - b)) by lia.
    apply binary_normalize_opp. exact Hne.
Qed.

Lemma div_neg_l (a b : float) : div (neg a) b = neg (div a b).
Proof.
  destruct a as [sa|sa| |sa ma ea], b as [sb|sb| |sb mb eb];
    try reflexivity; try (destruct sa, sb; reflexivity).
  change (neg (S754_finite sa ma ea)) with (S754_finite (negb sa) ma ea).
  unfold div, SFdiv.
  destruct (SFdiv_core_binary prec emax (Z.pos ma) ea (Z.pos mb) eb) as [[mz ez] lz].
  rewrite <- binary_round_aux_neg. f_equal. destruct sa, sb; reflexivity.
Qed.

Lemma mul_zero_l_finite (x : float) :
  is_finite x = true -> is_zero (mul (of_Z 0) x) = true.
Proof. destruct x; cbn; congruence. Qed.

Lemma mul_zero_r_finite (x : float) :
  is_finite x = true -> is_zero (mul x (of_Z 0)) = true.
Proof. rewrite mul_comm. apply mul_zero_l_finite. Qed.

Lemma add_zeros (a b : float) :
  is_zero a = true -> is_zero b = true -> is_zero (add a b) = true.
Proof.
  destruct a as [sa|sa| |sa ma ea], b as [sb|sb| |sb mb eb]; cbn; try discriminate.
  destruct sa, sb; reflexivity.
Qed.

Lemma add_zero_any (z x : float) :
  is_zero z = true -> is_zero x = false -> add z x = x.
Proof.
  destruct z as [sz|sz| |sz mz ez], x as [sx|sx| |sx mx ex]; cbn;
    try discriminate; reflexivity.
Qed.

Lemma abs_zero (z : float) : is_zero z = true -> abs z = zero.
Proof. destruct z; cbn; try discriminate; reflexivity. Qed.

End FloatSymmetry.

(** ** [fresnel] and [intersectPlane] *)

(** X18: [fresnel] does not tell the two sides of an interface apart: for
    all arguments, NaN and infinities included, swapping [n1] and [n2]
    gives the same reflectance. *)
Theorem fresnel_symmetric (pow : float -> float -> float)
    (cosTheta n1 n2 : float) :
  Tracer.fresnel pow cosTheta n1 n2 = Tracer.fresnel pow cosTheta n2 n1.
Proof.
  unfold Tracer.fresnel. cbv zeta.
  assert (Hr0 : F32.mul (F32.div (F32.sub n2 n1) (F32.add n2 n1))
                  (F32.div (F32.sub n2 n1) (F32.add n2 n1))
                = F32.mul (F32.div (F32.sub n1 n2) (F32.add n1 n2))
                    (F32.div (F32.sub n1 n2) (F32.add n1 n2))).
  { rewrite (add_comm n2 n1).
    destruct (sub_swap n1 n2) as [H|[H1 H2]].
    - rewrite H, div_neg_l. apply mul_neg_neg.
    - rewrite H1, H2. reflexivity. }
  rewrite Hr0. reflexivity.
Qed.

(** X19: the plane test of the kernel, which is always called with the
    normal [(0, 0, 1)], looks at the axial components only.  For a ray
    whose direction and whose offset to the plane centre have finite [x]
    and [y] components, and whose origin does not lie at the axial position
    of the plane, the test misses when [|dir.z| < 1e-6] and otherwise
    reports [t = (center.z - origin.z) / dir.z], a hit when [t >= 0]. *)
Theorem intersectPlane_axial (rayOrigin rayDir planeCenter : vec3) :
  F32.is_finite (v3_x rayDir) = true -> F32.is_finite (v3_y rayDir) = true ->
  F32.is_finite (F32.sub (v3_x planeCenter) (v3_x rayOrigin)) = true ->
  F32.is_finite (F32.sub (v3_y planeCenter) (v3_y rayOrigin)) = true ->
  valid_binary F32.prec F32.emax (v3_z rayDir) = true ->
  valid_binary F32.prec F32.emax (F32.sub (v3_z planeCenter) (v3_z rayOrigin)) = true ->
  F32.is_zero (F32.sub (v3_z planeCenter) (v3_z rayOrigin)) = false ->
  Tracer.intersectPlane rayOrigin rayDir planeCenter
    (Vec3 (F32.of_Z 0) (F32.of_Z 0) (F32.of_Z 1))
  = if F32.ltb (F32.abs (v3_z rayDir)) (F32.dec 1 6) then (false, None)
    else
      let t := F32.div (F32.sub (v3_z planeCenter) (v3_z rayOrigin)) (v3_z rayDir) in
      (F32.geb t F32.zero, Some t).
Proof.
  intros Hdx Hdy Hpx Hpy Hdz Hpz Hnz.
  unfold Tracer.intersectPlane, GLSL.dot, GLSL.vsub. cbn [v3_x v3_y v3_z].
  change (F32.of_Z 1) with F32.one.
  rewrite (mul_one_l _ Hdz), (mul_comm _ F32.one), (mul_one_l _ Hpz).
  pose proof (add_zeros _ _ (mul_zero_l_finite _ Hdx) (mul_zero_l_finite _ Hdy)) as Hzd.
  pose proof (add_zeros _ _ (mul_zero_r_finite _ Hpx) (mul_zero_r_finite _ Hpy)) as Hzp.
  rewrite (add_zero_any _ _ Hzp Hnz).
  destruct (F32.is_zero (v3_z rayDir)) eqn:Hz.
  - rewrite (abs_zero _ (add_zeros _ _ Hzd Hz)), (abs_zero _ Hz). reflexivity.
  - rewrite (add_zero_any _ _ Hzd Hz). reflexivity.
Qed.

Lemma intersectPlane_axial_witness :
  Tracer.intersectPlane (Vec3 (F32.of_Z 5) (F32.of_Z 0) (F32.neg (F32.of_Z 100)))
    axial_light (Vec3 (F32.of_Z 0) (F32.of_Z 0) (F32.of_Z 5))
    (Vec3 (F32.of_Z 0) (F32.of_Z 0) (F32.of_Z 1))
  = if F32.ltb (F32.abs (v3_z axial_light)) (F32.dec 1 6) then (false, None)
    else
      let t := F32.div (F32.sub (F32.of_Z 5) (F32.neg (F32.of_Z 100)))
                 (v3_z axial_light) in
      (F32.geb t F32.zero, Some t).
Proof.
  apply (intersectPlane_axial
           (Vec3 (F32.of_Z 5) (F32.of_Z 0) (F32.neg (F32.of_Z 100)))
           axial_light (Vec3 (F32.of_Z 0) (F32.of_Z 0) (F32.of_Z 5)));
    vm_compute; reflexivity.
Defined.

(** ** A frame traced twice *)

Section Retrace.

Variable pow : float -> float -> float.
Variable light_dir : vec3.
Variable backbuffer_size : vec2.
Variable ifaces : list LensInterface.
Variable ghosts : list GhostData.

Local Abbreviation frame := (trace_frame pow light_dir backbuffer_size ifaces ghosts).

(** X20: step 1 of a frame reads nothing of what an earlier frame left in
    the vertex buffer: with the same uniforms and the same stack, tracing a
    second time changes nothing, and two buffers of the same length that
    agree on the slots no unit owns are equal after the dispatch. *)
Theorem trace_frame_idempotent (tessellation : Z) (buf buf' : list vec4) :
  1 <= tessellation ->
  Z.of_nat (length ghosts) * work_groups tessellation * 16 <= 2 ^ 32 ->
  Z.of_nat (length ghosts) * 256 <= 2 ^ 32 ->
  frame tessellation (frame tessellation buf) = frame tessellation buf
  /\ (length buf = length buf' ->
      (forall s : nat,
          slot_record pow light_dir backbuffer_size ifaces ghosts (Z.of_nat s) = None ->
          buf !! s = buf' !! s) ->
      frame tessellation buf = frame tessellation buf').
Proof.
  intros Htess Hd Hg. split.
  - apply list_eq. intros s.
    destruct (decide (s < length buf)%nat) as [Hs|Hs].
    + rewrite trace_frame_lookup by (rewrite ?trace_frame_length; assumption).
      rewrite (trace_frame_lookup _ _ _ _ _ tessellation buf) by assumption.
      destruct (slot_record _ _ _ _ _ _); reflexivity.
    + rewrite !lookup_ge_None_2; [reflexivity| |];
        rewrite ?trace_frame_length; lia.
  - intros Hlen Hagree. apply list_eq. intros s.
    destruct (decide (s < length buf)%nat) as [Hs|Hs].
    + rewrite !trace_frame_lookup by (assumption || lia).
      destruct (slot_record _ _ _ _ _ _) eqn:R; [reflexivity|].
      apply Hagree. exact R.
    + rewrite !lookup_ge_None_2; [reflexivity| |];
        rewrite ?trace_frame_length; lia.
Qed.

End Retrace.

Lemma trace_frame_idempotent_witness :
  trace_frame Tracer.pow_ref axial_light hd_backbuffer lens_interfaces ghost_data
    patch_tessellation
    (trace_frame Tracer.pow_ref axial_light hd_backbuffer lens_interfaces ghost_data
       patch_tessellation (cleared_buffer 64))
  = trace_frame Tracer.pow_ref axial_light hd_backbuffer lens_interfaces ghost_data
      patch_tessellation (cleared_buffer 64).
Proof.
  destruct (trace_frame_idempotent Tracer.pow_ref axial_light hd_backbuffer
              lens_interfaces ghost_data patch_tessellation
              (cleared_buffer 64) (cleared_buffer 64)) as [H _].
  - vm_compute. discriminate.
  - vm_compute. discriminate.
  - vm_compute. discriminate.
  - exact H.
Defined.

(** ** [loadShaderFromFile] *)

Lemma read_line_cases (c : Byte.byte) (s : list Byte.byte) :
  let '(line, rest) := read_line (c :: s) in
  (length rest <= length s)%nat
  /\ ((c :: s = line ++ newline :: rest
       /\ (rest <> [] -> last (c :: s) = last rest)
       /\ (rest = [] -> last (c :: s) = Some newline))
      \/ (c :: s = line /\ rest = []
          /\ exists d, last (c :: s) = Some d /\ Strings.Byte.eqb d newline = false)).
Proof.
  revert c. induction s as [|c' s IH]; intros c; cbn [read_line].
  - destruct (Strings.Byte.eqb c newline) eqn:E.
    + apply Strings.Byte.byte_dec_bl in E. subst c. split; [reflexivity|].
      left. split; [reflexivity|]. split; [congruence|reflexivity].
    + split; [reflexivity|]. right. split; [reflexivity|]. split; [reflexivity|].
      exists c. split; [reflexivity|exact E].
  - destruct (Strings.Byte.eqb c newline) eqn:E.
    + apply Strings.Byte.byte_dec_bl in E. subst c. split; [reflexivity|].
      left. split; [reflexivity|]. split; [reflexivity|congruence].
    + specialize (IH c'). cbn [read_line] in IH.
      change (if Strings.Byte.eqb c' newline
              then ([], s)
              else let '(line, rest') := read_line s in (c' :: line, rest'))
        with (read_line (c' :: s)) in *.
      destruct (read_line (c' :: s)) as [line rest].
      destruct IH as [Hlen IH]. split; [cbn [length] in *; lia|].
      destruct IH as [(Heq & Hl1 & Hl2) | (Heq & Hr & d & Hd & Hdn)].
      * left. split; [rewrite Heq; reflexivity|]. split.
        -- intros Hne. rewrite <- (Hl1 Hne). reflexivity.
        -- intros He. rewrite <- (Hl2 He). reflexivity.
      * right. split; [rewrite Heq; reflexivity|]. split; [exact Hr|].
        exists d. split; [|exact Hdn]. rewrite <- Hd. reflexivity.
Qed.

Lemma read_lines_spec (fuel : nat) :
  forall stream content : list Byte.byte,
    (length stream <= fuel)%nat ->
    read_lines fuel stream content = content ++ newline_terminated stream.
Proof.
  induction fuel as [|fuel IH]; intros stream content Hfuel.
  - destruct stream; [|cbn [length] in Hfuel; lia].
    cbn. rewrite app_nil_r. reflexivity.
  - destruct stream as [|c s].
    + cbn. rewrite app_nil_r. reflexivity.
    + cbn [read_lines getline].
      pose proof (read_line_cases c s) as Hcases.
      destruct (read_line (c :: s)) as [line rest].
      destruct Hcases as [Hlen Hcases].
      rewrite IH by (cbn [length] in Hfuel; lia).
      rewrite <- app_assoc. f_equal. unfold newline_terminated.
      destruct Hcases as [(Heq & Hl1 & Hl2) | (Heq & Hr & d & Hd & Hdn)].
      * destruct rest as [|r rest].
        -- rewrite (Hl2 eq_refl). cbn [last]. rewrite app_nil_r.
           change (Strings.Byte.eqb newline newline) with true. cbn iota.
           rewrite Heq. reflexivity.
        -- rewrite (Hl1 ltac:(congruence)).
           destruct (last (r :: rest)) as [e|] eqn:He.
           ++ destruct (Strings.Byte.eqb e newline).
              ** rewrite Heq, <- app_assoc. reflexivity.
              ** rewrite Heq, <- !app_assoc. reflexivity.
           ++ apply last_None in He. discriminate He.
      * subst rest. cbn [last]. rewrite app_nil_r, Hd, Hdn, Heq. reflexivity.
Qed.

Lemma newline_terminated_idempotent (s : list Byte.byte) :
  newline_terminated (newline_terminated s) = newline_terminated s.
Proof.
  unfold newline_terminated at 2.
  destruct (last s) as [c|] eqn:Hl; [|apply last_None in Hl; subst s; reflexivity].
  destruct (Strings.Byte.eqb c newline) eqn:E.
  - unfold newline_terminated. rewrite Hl, E. reflexivity.
  - unfold newline_terminated. rewrite last_snoc, Hl, E.
    change (Strings.Byte.eqb newline newline) with true. reflexivity.
Qed.

(** X21: what [loadShaderFromFile] returns: nothing for a file that cannot
    be opened, which is also what an empty file gives; for a file that can
    be read, its bytes with the last line closed, that is, one newline
    appended when the file is not empty and does not end in one.  Loading
    what a load returned gives the same text again. *)
Theorem loadShaderFromFile_closes_last_line (s : list Byte.byte) :
  loadShaderFromFile None = []
  /\ loadShaderFromFile (Some []) = []
  /\ loadShaderFromFile (Some s) = newline_terminated s
  /\ loadShaderFromFile (Some (s ++ [newline])) = s ++ [newline]
  /\ loadShaderFromFile (Some (loadShaderFromFile (Some s)))
     = loadShaderFromFile (Some s).
Proof.
  assert (H : forall t, loadShaderFromFile (Some t) = newline_terminated t).
  { intros t. unfold loadShaderFromFile. rewrite read_lines_spec by lia. reflexivity. }
  split; [reflexivity|]. split; [reflexivity|]. split; [apply H|]. split.
  - rewrite H. unfold newline_terminated. rewrite last_snoc.
    change (Strings.Byte.eqb newline newline) with true. reflexivity.
  - rewrite !H. apply newline_terminated_idempotent.
Qed.

(** ** The colour functions of the fragment shaders *)

Section Comparison.
Import F32.

Lemma compare_antisym (x y : float) :
  SFcompare y x = option_map CompOpp (SFcompare x y).
Proof.
  destruct x as [sx|sx| |sx mx ex], y as [sy|sy| |sy my ey];
    try reflexivity; try (destruct sx, sy; reflexivity); try (destruct sx; reflexivity);
    try (destruct sy; reflexivity).
  cbn [SFcompare option_map].
  rewrite (Z.compare_antisym ex ey).
  change (Pos.compare_cont Eq my mx) with (Pos.compare my mx).
  change (Pos.compare_cont Eq mx my) with (Pos.compare mx my).
  rewrite (Pos.compare_antisym mx my).
  destruct sx, sy; try reflexivity;
    destruct (ex ?= ey); cbn [CompOpp]; try reflexivity;
    destruct (mx ?= my)%positive; reflexivity.
Qed.

Lemma compare_refl (x : float) : is_nan x = false -> SFcompare x x = Some Eq.
Proof.
  destruct x as [s|s| |s m e]; cbn; try discriminate; intros _.
  - reflexivity.
  - destruct s; reflexivity.
  - rewrite Z.compare_refl, Pos.compare_cont_refl. destruct s; reflexivity.
Qed.

Lemma leb_refl (x : float) : is_nan x = false -> leb x x = true.
Proof. intros H. unfold leb, SFleb. rewrite (compare_refl x H). reflexivity. Qed.

Lemma leb_not_nan (x y : float) :
  leb x y = true -> is_nan x = false /\ is_nan y = false.
Proof. destruct x, y; cbn; try discriminate; split; reflexivity. Qed.

Lemma ltb_false_leb (x y : float) :
  is_nan x = false -> is_nan y = false -> ltb x y = false -> leb y x = true.
Proof.
  intros Hx Hy. unfold ltb, leb, SFltb, SFleb. rewrite (compare_antisym x y).
  destruct (SFcompare x y) as [[| |]|] eqn:E; cbn; try congruence.
  destruct x, y; cbn in *; discriminate.
Qed.

Lemma clamp_nan (lo hi : float) : Shading.clamp S754_nan lo hi = S754_nan.
Proof.
  unfold Shading.clamp, Shading.max, Shading.min.
  destruct lo, hi; reflexivity.
Qed.

(** [clamp] on a number lands in the range. *)
Lemma clamp_within (x lo hi : float) :
  is_nan x = false -> leb lo hi = true ->
  Shading.within lo hi (Shading.clamp x lo hi).
Proof.
  intros Hx Hle. destruct (leb_not_nan _ _ Hle) as [Hlo Hhi].
  unfold Shading.clamp, Shading.within.
  assert (Hm : is_nan (Shading.max x lo) = false /\ leb lo (Shading.max x lo) = true).
  { unfold Shading.max. destruct (ltb x lo) eqn:E.
    - split; [exact Hlo|apply leb_refl; exact Hlo].
    - split; [exact Hx|apply ltb_false_leb; assumption]. }
  destruct Hm as [Hmn Hml]. set (m := Shading.max x lo) in *.
  unfold Shading.min. destruct (ltb hi m) eqn:E.
  - split; [exact Hle|apply leb_refl; exact Hhi].
  - split; [exact Hml|apply ltb_false_leb; assumption].
Qed.

Lemma clamp_range (x lo hi : float) :
  leb lo hi = true ->
  Shading.clamp x lo hi = S754_nan \/ Shading.within lo hi (Shading.clamp x lo hi).
Proof.
  intros Hle. destruct (is_nan x) eqn:Hx.
  - left. destruct x; try discriminate. apply clamp_nan.
  - right. apply clamp_within; assumption.
Qed.

(** Rounding a non-negative mantissa never gives NaN. *)
Lemma shr_1_nonneg (mrs : shr_record) : 0 <= shr_m mrs -> 0 <= shr_m (shr_1 mrs).
Proof.
  destruct mrs as [m r s]. destruct m as [|[p|p|]|p]; cbn; lia.
Qed.

Lemma iter_shr_1_nonneg (p : positive) :
  forall mrs : shr_record,
    0 <= shr_m mrs -> 0 <= shr_m (SpecFloat.iter_pos shr_1 p mrs).
Proof.
  induction p as [p IH|p IH|]; intros mrs H; cbn [SpecFloat.iter_pos].
  - apply IH, IH, shr_1_nonneg, H.
  - apply IH, IH, H.
  - apply shr_1_nonneg, H.
Qed.

Lemma shr_fexp_nonneg (m e : Z) (l : location) :
  0 <= m -> 0 <= shr_m (shr_fexp prec emax m e l).1.
Proof.
  intros H. unfold shr_fexp, shr.
  assert (H0 : 0 <= shr_m (shr_record_of_loc m l)) by (destruct l as [|[]]; exact H).
  destruct (fexp prec emax (Zdigits2 m + e) - e) as [|p|p]; cbn [fst];
    [exact H0|apply iter_shr_1_nonneg; exact H0|exact H0].
Qed.

Lemma round_nearest_even_nonneg (m : Z) (l : location) :
  0 <= m -> 0 <= round_nearest_even m l.
Proof.
  intros H. destruct l as [|[]]; cbn; try lia. destruct (Z.even m); lia.
Qed.

Lemma binary_round_aux_not_nan (s : bool) (m e : Z) (l : location) :
  0 <= m -> is_nan (binary_round_aux prec emax s m e l) = false.
Proof.
  intros H. unfold binary_round_aux.
  pose proof (shr_fexp_nonneg m e l H) as H1.
  destruct (shr_fexp prec emax m e l) as [mrs' e']. cbn [fst] in H1.
  pose proof (shr_fexp_nonneg _ e' loc_Exact
                (round_nearest_even_nonneg _ (loc_of_shr_record mrs') H1)) as H2.
  destruct (shr_fexp prec emax _ e' loc_Exact) as [mrs'' e'']. cbn [fst] in H2.
  destruct (shr_m mrs'') as [|p|p]; [reflexivity| |lia].
  destruct (e'' <=? emax - prec); reflexivity.
Qed.

Lemma binary_normalize_not_nan (m e : Z) :
  is_nan (binary_normalize prec emax m e false) = false.
Proof.
  destruct m as [|p|p]; [reflexivity| |]; unfold binary_normalize, binary_round;
    destruct (shl_align _ _ _) as [mz ez]; apply binary_round_aux_not_nan; lia.
Qed.

(** Arithmetic with one finite operand keeps numbers numbers. *)
Lemma add_finite_not_nan (c x : float) :
  is_finite c = true -> is_nan x = false -> is_nan (add c x) = false.
Proof.
  destruct c as [sc|sc| |sc mc ec], x as [sx|sx| |sx mx ex];
    try discriminate; try reflexivity; intros _ _.
  - destruct sc, sx; reflexivity.
  - apply binary_normalize_not_nan.
Qed.

Lemma sub_finite_l_not_nan (c x : float) :
  is_finite c = true -> is_nan x = false -> is_nan (sub c x) = false.
Proof.
  destruct c as [sc|sc| |sc mc ec], x as [sx|sx| |sx mx ex];
    try discriminate; try reflexivity; intros _ _.
  - destruct sc, sx; reflexivity.
  - apply binary_normalize_not_nan.
Qed.

Lemma sub_finite_r_not_nan (x c : float) :
  is_finite c = true -> is_nan x = false -> is_nan (sub x c) = false.
Proof.
  destruct c as [sc|sc| |sc mc ec], x as [sx|sx| |sx mx ex];
    try discriminate; try reflexivity; intros _ _.
  - destruct sc, sx; reflexivity.
  - apply binary_normalize_not_nan.
Qed.

Lemma mul_finite_not_nan (c x : float) :
  is_finite c = true -> is_zero c = false -> is_nan x = false ->
  is_nan (mul c x) = false.
Proof.
  destruct c as [sc|sc| |sc mc ec], x as [sx|sx| |sx mx ex];
    try discriminate; try reflexivity; intros _ _ _.
  apply binary_round_aux_not_nan. lia.
Qed.

Lemma div_finite_not_nan (x c : float) :
  is_finite c = true -> is_zero c = false -> is_nan x = false ->
  is_nan (div x c) = false.
Proof.
  destruct c as [sc|sc| |sc mc ec], x as [sx|sx| |sx mx ex];
    try discriminate; try reflexivity; intros _ _ _.
  unfold div, SFdiv, SFdiv_core_binary. cbv zeta.
  match goal with
  | |- context [Z.div_eucl ?a ?b] =>
      assert (Ha : 0 <= a);
      [|pose proof (Z.div_pos a b Ha ltac:(lia)) as Hq; unfold Z.div in Hq;
        destruct (Z.div_eucl a b) as [q r]]
  end.
  - match goal with
    | |- 0 <= match ?s with _ => _ end =>
        destruct s as [|p|p]; [lia|apply Z.shiftl_nonneg; lia|lia]
    end.
  - apply binary_round_aux_not_nan. exact Hq.
Qed.

End Comparison.


(** X22: for every temperature that is a number, each channel of
    [temperatureToColor] lies inside the range of its [clamp]: red in
    [0.6, 1.0], green in [0.8, 1.0], blue in [0.5, 1.0], whatever the
    rounding and also for infinite temperatures; a NaN temperature gives
    NaN in every channel.  For 6000.0, the temperature of every call in
    the shaders, the colour is exactly (1.0, 0.9, 0.8). *)
Theorem temperatureToColor_range (temp : float) :
  let c := Shading.temperatureToColor temp in
  (F32.is_nan temp = false ->
   Shading.within (F32.dec 6 1) F32.one (v3_x c)
   /\ Shading.within (F32.dec 8 1) F32.one (v3_y c)
   /\ Shading.within (F32.dec 5 1) F32.one (v3_z c))
  /\ (F32.is_nan temp = true -> c = Vec3 S754_nan S754_nan S754_nan)
  /\ Shading.temperatureToColor (F32.of_Z 6000)
     = Vec3 F32.one (F32.dec 9 1) (F32.dec 8 1).
Proof.
  intros c. split; [|split].
  - intros Hn. unfold c, Shading.temperatureToColor. cbn [v3_x v3_y v3_z].
    assert (Ht : F32.is_nan (F32.div temp (F32.of_Z 6000)) = false).
    { apply div_finite_not_nan;
        [vm_compute; reflexivity | vm_compute; reflexivity | exact Hn]. }
    set (t := F32.div temp (F32.of_Z 6000)) in *. clearbody t.
    split; [|split]; (apply clamp_within; [|vm_compute; reflexivity]).
    + apply add_finite_not_nan; [vm_compute; reflexivity|].
      apply mul_finite_not_nan; [vm_compute; reflexivity|vm_compute; reflexivity|].
      apply sub_finite_r_not_nan; [vm_compute; reflexivity|exact Ht].
    + apply add_finite_not_nan; [vm_compute; reflexivity|].
      apply mul_finite_not_nan; [vm_compute; reflexivity|vm_compute; reflexivity|].
      apply sub_finite_r_not_nan; [vm_compute; reflexivity|exact Ht].
    + apply add_finite_not_nan; [vm_compute; reflexivity|].
      apply mul_finite_not_nan; [vm_compute; reflexivity|vm_compute; reflexivity|].
      apply sub_finite_l_not_nan; [vm_compute; reflexivity|exact Ht].
  - intros Hn. destruct temp; try discriminate. reflexivity.
  - vm_compute. reflexivity.
Qed.

Lemma temperatureToColor_range_witness :
  Shading.within (F32.dec 6 1) F32.one
    (v3_x (Shading.temperatureToColor (F32.of_Z 2700)))
  /\ Shading.within (F32.dec 8 1) F32.one
       (v3_y (Shading.temperatureToColor (F32.of_Z 2700)))
  /\ Shading.within (F32.dec 5 1) F32.one
       (v3_z (Shading.temperatureToColor (F32.of_Z 2700))).
Proof.
  destruct (temperatureToColor_range (F32.of_Z 2700)) as [H _].
  apply H. vm_compute. reflexivity.
Defined.

(** X23: every channel of [ACESFilm] is either NaN or inside [0, 1], for
    every input.  NaN does occur for numbers: a channel of 2^64 overflows
    numerator and denominator to infinity and the tone-mapped value is NaN,
    not 1.0. *)
Theorem ACESFilm_range (x : vec3) :
  let y := Shading.ACESFilm x in
  (v3_x y = S754_nan \/ Shading.within F32.zero F32.one (v3_x y))
  /\ (v3_y y = S754_nan \/ Shading.within F32.zero F32.one (v3_y y))
  /\ (v3_z y = S754_nan \/ Shading.within F32.zero F32.one (v3_z y))
  /\ Shading.ACESFilm_channel (F32.of_Z (2 ^ 64)) = S754_nan.
Proof.
  intros y. unfold y, Shading.ACESFilm, Shading.ACESFilm_channel.
  cbn [v3_x v3_y v3_z].
  split; [apply clamp_range; vm_compute; reflexivity|].
  split; [apply clamp_range; vm_compute; reflexivity|].
  split; [apply clamp_range; vm_compute; reflexivity|].
  vm_compute. reflexivity.
Qed.

(** ** A degenerate light direction *)

Section NaNArithmetic.
Import F32.

Lemma mul_nan_r (x : float) : mul x S754_nan = S754_nan.
Proof. destruct x; reflexivity. Qed.

Lemma add_nan_r (x : float) : add x S754_nan = S754_nan.
Proof. destruct x; reflexivity. Qed.

Lemma sub_nan_r (x : float) : sub x S754_nan = S754_nan.
Proof. destruct x; reflexivity. Qed.

Lemma div_nan_r (x : float) : div x S754_nan = S754_nan.
Proof. destruct x; reflexivity. Qed.

Lemma mul_nan_l (x : float) : mul S754_nan x = S754_nan.
Proof. reflexivity. Qed.

Lemma normalize_zero (v : vec3) :
  is_zero (v3_x v) = true -> is_zero (v3_y v) = true -> is_zero (v3_z v) = true ->
  GLSL.normalize v = Vec3 S754_nan S754_nan S754_nan.
Proof.
  destruct v as [[sx|sx| |sx mx ex] [sy|sy| |sy my ey] [sz|sz| |sz mz ez]];
    cbn [v3_x v3_y v3_z is_zero]; try discriminate; intros _ _ _.
  destruct sx, sy, sz; vm_compute; reflexivity.
Qed.

End NaNArithmetic.

(** A ray without a direction misses every interface. *)
Lemma advance_nan_dir (iface : LensInterface) (st : Ray) :
  current_dir st = Vec3 S754_nan S754_nan S754_nan ->
  Tracer.advance iface st = None.
Proof.
  intros Hd. unfold Tracer.advance, Tracer.intersect. rewrite Hd.
  destruct (F32.gtb (li_is_flat iface) (F32.dec 5 1)).
  - unfold Tracer.intersectPlane, GLSL.dot. cbn [v3_x v3_y v3_z].
    rewrite !mul_nan_r, !add_nan_r, div_nan_r. reflexivity.
  - unfold Tracer.intersectSphere, GLSL.dot. cbn [v3_x v3_y v3_z]. cbv zeta.
    set (oc := GLSL.vsub (current_pos st) (li_center iface)).
    repeat (progress rewrite ?mul_nan_r, ?add_nan_r, ?mul_nan_l, ?sub_nan_r).
    reflexivity.
Qed.

(** X24: a light direction of length zero blacks the ghosts out instead of
    failing: [normalize] of the zero vector is NaN in every component, the
    ray then misses the first interface it meets, and the record of every
    ghost whose first bounce is inside the stack and whose second bounce
    does not exceed the first (every enumerated ghost is such a ghost) has
    intensity exactly 0 for every sample. *)
Theorem zero_light_dir_dark (pow : float -> float -> float) (light_dir : vec3)
    (backbuffer_size : vec2) (ifaces : list LensInterface) (ghost : GhostData)
    (local_x local_y : Z) :
  F32.is_zero (v3_x light_dir) = true -> F32.is_zero (v3_y light_dir) = true ->
  F32.is_zero (v3_z light_dir) = true ->
  1 <= to_uint (bounce1 ghost) <= Z.of_nat (length ifaces) ->
  to_uint (bounce2 ghost) <= to_uint (bounce1 ghost) ->
  v4_z (unit_record pow light_dir backbuffer_size ifaces ghost local_x local_y)
  = F32.zero.
Proof.
  intros Hx Hy Hz Hb1 Hb2. unfold unit_record.
  pose proof (to_uint_range (bounce1 ghost)) as Hr.
  rewrite phase2_no_pass by exact Hb2.
  rewrite phase1_walk by lia.
  set (st := Tracer.initial_ray light_dir local_x local_y).
  assert (Hd : current_dir st = Vec3 S754_nan S754_nan S754_nan).
  { unfold st, Tracer.initial_ray. cbn [current_dir].
    apply normalize_zero; assumption. }
  destruct (lookup_lt_is_Some_2 ifaces 0) as [iface Hl]; [lia|].
  assert (Htake : take (Z.to_nat (to_uint (bounce1 ghost))) ifaces
                  = iface :: take (Z.to_nat (to_uint (bounce1 ghost)) - 1) (drop 1 ifaces)).
  { destruct ifaces as [|a rest]; [discriminate Hl|].
    injection Hl as ->.
    destruct (Z.to_nat (to_uint (bounce1 ghost))) as [|n] eqn:En; [lia|].
    cbn [take drop]. rewrite drop_0. f_equal. f_equal. lia. }
  rewrite Htake. cbn [Tracer.walk]. rewrite (advance_nan_dir iface st Hd).
  reflexivity.
Qed.

Lemma zero_light_dir_dark_witness :
  v4_z (unit_record Tracer.pow_ref (Vec3 F32.zero F32.zero F32.zero) hd_backbuffer
          lens_interfaces (ghost_record 3 1) 12 8)
  = F32.zero.
Proof.
  apply (zero_light_dir_dark Tracer.pow_ref (Vec3 F32.zero F32.zero F32.zero)
           hd_backbuffer lens_interfaces (ghost_record 3 1) 12 8).
  - reflexivity.
  - reflexivity.
  - reflexivity.
  - vm_compute. split; discriminate.
  - vm_compute. discriminate.
Defined.

(** ** Enumerator and tracer together *)

(** X25: with the ghost list the enumerator builds for the stack itself
    (at most 2^24 interfaces), the bounce guard of the kernel never fires:
    after step 1 of a frame every slot below [256 * num_ghosts] that the
    buffer has holds the record of ghost [s / 256] for the sample
    [(s mod 16, (s / 16) mod 16)]. *)
Theorem frame_writes_every_tile (pow : float -> float -> float)
    (light_dir : vec3) (backbuffer_size : vec2) (ifaces : list LensInterface)
    (ghosts : list GhostData) (tessellation : Z) (buf : list vec4) (s : nat) :
  Z.of_nat (length ifaces) <= 2 ^ 24 ->
  generate_ghosts (length ifaces) = Some ghosts ->
  1 <= tessellation ->
  Z.of_nat (length ghosts) * work_groups tessellation * 16 <= 2 ^ 32 ->
  Z.of_nat (length ghosts) * 256 <= 2 ^ 32 ->
  (s < length buf)%nat -> Z.of_nat s < 256 * Z.of_nat (length ghosts) ->
  exists ghost : GhostData,
    ghosts !! Z.to_nat (Z.of_nat s / 256) = Some ghost
    /\ trace_frame pow light_dir backbuffer_size ifaces ghosts tessellation buf !! s
       = Some (unit_record pow light_dir backbuffer_size ifaces ghost
                 (Z.of_nat s mod 16) ((Z.of_nat s / 16) mod 16)).
Proof.
  intros Hsize Hgen Htess Hd Hg Hs Hslot.
  destruct (lookup_lt_is_Some_2 ghosts (Z.to_nat (Z.of_nat s / 256))) as [ghost Hl].
  { assert (Z.of_nat s / 256 < Z.of_nat (length ghosts))
      by (apply Z.div_lt_upper_bound; lia).
    assert (0 <= Z.of_nat s / 256) by (apply Z.div_pos; lia). lia. }
  exists ghost. split; [exact Hl|].
  rewrite trace_frame_lookup by assumption.
  unfold slot_record. rewrite Hl.
  pose proof (generated_bounces_ordered _ _ Hsize Hgen) as Hall.
  rewrite Forall_forall in Hall.
  destruct (Hall ghost) as (Hsep & Hb2 & Hb1).
  { apply list_elem_of_lookup. eexists. exact Hl. }
  unfold Tracer.interface_count.
  destruct (Z.geb_spec (to_uint (bounce1 ghost)) (Z.of_nat (length ifaces))) as [?|_];
    [lia|].
  destruct (Z.geb_spec (to_uint (bounce2 ghost)) (Z.of_nat (length ifaces))) as [?|_];
    [lia|].
  reflexivity.
Qed.

Lemma frame_writes_every_tile_witness :
  exists ghost : GhostData,
    ghost_data !! Z.to_nat (Z.of_nat 652 / 256) = Some ghost
    /\ trace_frame Tracer.pow_ref axial_light hd_backbuffer lens_interfaces ghost_data
         patch_tessellation (cleared_buffer 1024) !! 652%nat
       = Some (unit_record Tracer.pow_ref axial_light hd_backbuffer lens_interfaces
                 ghost (Z.of_nat 652 mod 16) ((Z.of_nat 652 / 16) mod 16)).
Proof.
  apply (frame_writes_every_tile Tracer.pow_ref axial_light hd_backbuffer
           lens_interfaces ghost_data patch_tessellation (cleared_buffer 1024) 652).
  - vm_compute. discriminate.
  - vm_compute. reflexivity.
  - vm_compute. discriminate.
  - vm_compute. discriminate.
  - vm_compute. discriminate.
  - vm_compute. lia.
  - vm_compute. reflexivity.
Defined.
